(** * libmprompt: the prompt / resumption engine of [src/mprompt/mprompt.c]

    A shallow embedding of the prompt chain, of the link / unlink state
    machine, of once- and multi-shot resumption handles and of the
    stack-snapshot lists, followed by the properties of the engine.

    Memory is explicit: every C struct lives in a finite map from addresses
    to records, pointers are integers and [NULL] is [0].  Calls into the
    external collaborators (stacklet allocator, unwinder, logger) are
    recorded in a trace.  Non-local exits ([mp_longjmp], [mp_gstack_enter],
    fatal errors) are results of their own kind. *)

From stdpp Require Import gmap strings list fin_maps.
From Stdlib Require Import ZArith Lia.

Open Scope Z_scope.

(** ** Data model *)

Abbreviation ptr := Z (only parsing).
Abbreviation NULL := 0%Z (only parsing).

(** [intptr_t] arithmetic: 64-bit two's complement. *)
Definition intptr_wrap (z : Z) : Z := (z + 2 ^ 63) mod 2 ^ 64 - 2 ^ 63.
(** [long] arithmetic (LP64). *)
Definition long_wrap (z : Z) : Z := (z + 2 ^ 63) mod 2 ^ 64 - 2 ^ 63.

Inductive mp_return_kind_t :=
  | MP_RETURN
  | MP_EXCEPTION
  | MP_YIELD_ONCE
  | MP_YIELD_MULTI.

#[global] Instance mp_return_kind_eq_dec : EqDecision mp_return_kind_t.
Proof. solve_decision. Defined.

(** Of a jump buffer only the saved stack pointer is read by this file. *)
Record mp_jmpbuf_t := { reg_sp : Z }.

Record mp_resume_point_t := {
  res_jmp : mp_jmpbuf_t;
  res_result : Z
}.

Record mp_return_point_t := {
  ret_jmp : mp_jmpbuf_t;
  ret_kind : mp_return_kind_t;
  ret_fun : ptr;
  ret_arg : Z
}.

Record mp_prompt_s := {
  p_parent : ptr;
  p_top : ptr;
  p_refcount : Z;
  p_gstack : ptr;
  p_return_point : ptr;
  p_resume_point : ptr;
  p_start_fun : ptr;
  p_start_arg : Z;
  p_unwind_frame : ptr
}.

Record mp_prompt_save_t := {
  s_next : ptr;
  s_prompt : ptr;
  s_gsave : ptr
}.

Record mp_mresume_t := {
  r_refcount : Z;
  r_resume_count : Z;
  r_prompt : ptr;
  r_save : ptr;
  r_tail_return_point : ptr
}.

Inductive errno := ENOMEM | EINVAL.

(** Calls into code outside this file, in program order. *)
Inductive event :=
  | EvGstackFree (g : ptr) (delay : bool)
  | EvGstackSave (g : ptr) (sp : Z) (gs : ptr)
  | EvGsaveRestore (gs : ptr)
  | EvGsaveFree (gs : ptr)
  | EvUnwindFrameUpdate (uf : ptr) (jmp : ptr)
  | EvErrorMessage (err : errno) (msg : string).

Record state := {
  prompts : gmap Z mp_prompt_s;
  return_points : gmap Z mp_return_point_t;
  resume_points : gmap Z mp_resume_point_t;
  mresumes : gmap Z mp_mresume_t;
  saves : gmap Z mp_prompt_save_t;
  _mp_prompt_top : ptr;
  heap_next : ptr;
  trace : list event
}.

(** Field updates. *)
Definition set_p_parent (v : ptr) (pr : mp_prompt_s) : mp_prompt_s :=
  {| p_parent := v; p_top := p_top pr; p_refcount := p_refcount pr;
     p_gstack := p_gstack pr; p_return_point := p_return_point pr;
     p_resume_point := p_resume_point pr; p_start_fun := p_start_fun pr;
     p_start_arg := p_start_arg pr; p_unwind_frame := p_unwind_frame pr |}.

Definition set_p_top (v : ptr) (pr : mp_prompt_s) : mp_prompt_s :=
  {| p_parent := p_parent pr; p_top := v; p_refcount := p_refcount pr;
     p_gstack := p_gstack pr; p_return_point := p_return_point pr;
     p_resume_point := p_resume_point pr; p_start_fun := p_start_fun pr;
     p_start_arg := p_start_arg pr; p_unwind_frame := p_unwind_frame pr |}.

Definition set_p_refcount (v : Z) (pr : mp_prompt_s) : mp_prompt_s :=
  {| p_parent := p_parent pr; p_top := p_top pr; p_refcount := v;
     p_gstack := p_gstack pr; p_return_point := p_return_point pr;
     p_resume_point := p_resume_point pr; p_start_fun := p_start_fun pr;
     p_start_arg := p_start_arg pr; p_unwind_frame := p_unwind_frame pr |}.

Definition set_p_return_point (v : ptr) (pr : mp_prompt_s) : mp_prompt_s :=
  {| p_parent := p_parent pr; p_top := p_top pr; p_refcount := p_refcount pr;
     p_gstack := p_gstack pr; p_return_point := v;
     p_resume_point := p_resume_point pr; p_start_fun := p_start_fun pr;
     p_start_arg := p_start_arg pr; p_unwind_frame := p_unwind_frame pr |}.

Definition set_p_resume_point (v : ptr) (pr : mp_prompt_s) : mp_prompt_s :=
  {| p_parent := p_parent pr; p_top := p_top pr; p_refcount := p_refcount pr;
     p_gstack := p_gstack pr; p_return_point := p_return_point pr;
     p_resume_point := v; p_start_fun := p_start_fun pr;
     p_start_arg := p_start_arg pr; p_unwind_frame := p_unwind_frame pr |}.

Definition set_r_refcount (v : Z) (r : mp_mresume_t) : mp_mresume_t :=
  {| r_refcount := v; r_resume_count := r_resume_count r; r_prompt := r_prompt r;
     r_save := r_save r; r_tail_return_point := r_tail_return_point r |}.

Definition set_r_resume_count (v : Z) (r : mp_mresume_t) : mp_mresume_t :=
  {| r_refcount := r_refcount r; r_resume_count := v; r_prompt := r_prompt r;
     r_save := r_save r; r_tail_return_point := r_tail_return_point r |}.

Definition set_r_save (v : ptr) (r : mp_mresume_t) : mp_mresume_t :=
  {| r_refcount := r_refcount r; r_resume_count := r_resume_count r;
     r_prompt := r_prompt r; r_save := v;
     r_tail_return_point := r_tail_return_point r |}.

Definition set_r_tail_return_point (v : ptr) (r : mp_mresume_t) : mp_mresume_t :=
  {| r_refcount := r_refcount r; r_resume_count := r_resume_count r;
     r_prompt := r_prompt r; r_save := r_save r; r_tail_return_point := v |}.

Definition set_res_result (v : Z) (r : mp_resume_point_t) : mp_resume_point_t :=
  {| res_jmp := res_jmp r; res_result := v |}.

Definition with_prompts (f : gmap Z mp_prompt_s → gmap Z mp_prompt_s) (s : state) : state :=
  {| prompts := f (prompts s); return_points := return_points s;
     resume_points := resume_points s; mresumes := mresumes s; saves := saves s;
     _mp_prompt_top := _mp_prompt_top s; heap_next := heap_next s; trace := trace s |}.

Definition with_return_points (f : gmap Z mp_return_point_t → gmap Z mp_return_point_t)
    (s : state) : state :=
  {| prompts := prompts s; return_points := f (return_points s);
     resume_points := resume_points s; mresumes := mresumes s; saves := saves s;
     _mp_prompt_top := _mp_prompt_top s; heap_next := heap_next s; trace := trace s |}.

Definition with_resume_points (f : gmap Z mp_resume_point_t → gmap Z mp_resume_point_t)
    (s : state) : state :=
  {| prompts := prompts s; return_points := return_points s;
     resume_points := f (resume_points s); mresumes := mresumes s; saves := saves s;
     _mp_prompt_top := _mp_prompt_top s; heap_next := heap_next s; trace := trace s |}.

Definition with_mresumes (f : gmap Z mp_mresume_t → gmap Z mp_mresume_t) (s : state) : state :=
  {| prompts := prompts s; return_points := return_points s;
     resume_points := resume_points s; mresumes := f (mresumes s); saves := saves s;
     _mp_prompt_top := _mp_prompt_top s; heap_next := heap_next s; trace := trace s |}.

Definition with_saves (f : gmap Z mp_prompt_save_t → gmap Z mp_prompt_save_t) (s : state) : state :=
  {| prompts := prompts s; return_points := return_points s;
     resume_points := resume_points s; mresumes := mresumes s; saves := f (saves s);
     _mp_prompt_top := _mp_prompt_top s; heap_next := heap_next s; trace := trace s |}.

Definition with_top (v : ptr) (s : state) : state :=
  {| prompts := prompts s; return_points := return_points s;
     resume_points := resume_points s; mresumes := mresumes s; saves := saves s;
     _mp_prompt_top := v; heap_next := heap_next s; trace := trace s |}.

Definition with_heap_next (v : ptr) (s : state) : state :=
  {| prompts := prompts s; return_points := return_points s;
     resume_points := resume_points s; mresumes := mresumes s; saves := saves s;
     _mp_prompt_top := _mp_prompt_top s; heap_next := v; trace := trace s |}.

Definition with_event (e : event) (s : state) : state :=
  {| prompts := prompts s; return_points := return_points s;
     resume_points := resume_points s; mresumes := mresumes s; saves := saves s;
     _mp_prompt_top := _mp_prompt_top s; heap_next := heap_next s;
     trace := trace s ++ [e] |}.

(** ** The computation monad

    A C function either returns a value in a new state, leaves through a
    non-local exit, dereferences an address that holds no record
    ([Undef]), or is cut off by the loop budget ([OutOfFuel]). *)

Inductive exit :=
  | ExLongjmp (jb : ptr)
  | ExGstackEnter (g : ptr) (p : ptr) (arg : Z)
  | ExFatal (err : errno) (msg : string)
  | ExUnreachable (msg : string).

Inductive res (A : Type) :=
  | Done (a : A) (s : state)
  | Exit (e : exit) (s : state)
  | Undef
  | OutOfFuel.

Arguments Done {A} a s.
Arguments Exit {A} e s.
Arguments Undef {A}.
Arguments OutOfFuel {A}.

Definition M (A : Type) : Type := state → res A.

Definition mreturn {A} (a : A) : M A := λ s, Done a s.

Definition mbind' {A B} (c : M A) (k : A → M B) : M B :=
  λ s, match c s with
       | Done a s' => k a s'
       | Exit e s' => Exit e s'
       | Undef => Undef
       | OutOfFuel => OutOfFuel
       end.

Notation "'let*' x ':=' c 'in' k" := (mbind' c (λ x, k))
  (at level 10, x binder, c at level 100, k at level 200).
Notation "c ';;;' k" := (mbind' c (λ _, k))
  (at level 100, k at level 200, right associativity).

Definition mexit {A} (e : exit) : M A := λ s, Exit e s.
Definition mundef {A} : M A := λ _, Undef.
Definition mfuel {A} : M A := λ _, OutOfFuel.
Definition mmodify (f : state → state) : M unit := λ s, Done tt (f s).
Definition mget : M state := λ s, Done s s.

(** Loads and stores.  An access to an address without a record is [Undef]. *)
Definition load_prompt (p : ptr) : M mp_prompt_s :=
  λ s, match prompts s !! p with Some pr => Done pr s | None => Undef end.

Definition store_prompt (p : ptr) (f : mp_prompt_s → mp_prompt_s) : M unit :=
  λ s, match prompts s !! p with
       | Some pr => Done tt (with_prompts (insert p (f pr)) s)
       | None => Undef
       end.

Definition load_return_point (a : ptr) : M mp_return_point_t :=
  λ s, match return_points s !! a with Some r => Done r s | None => Undef end.

Definition load_resume_point (a : ptr) : M mp_resume_point_t :=
  λ s, match resume_points s !! a with Some r => Done r s | None => Undef end.

Definition store_resume_point (a : ptr) (f : mp_resume_point_t → mp_resume_point_t) : M unit :=
  λ s, match resume_points s !! a with
       | Some r => Done tt (with_resume_points (insert a (f r)) s)
       | None => Undef
       end.

Definition load_mresume (r : ptr) : M mp_mresume_t :=
  λ s, match mresumes s !! r with Some m => Done m s | None => Undef end.

Definition store_mresume (r : ptr) (f : mp_mresume_t → mp_mresume_t) : M unit :=
  λ s, match mresumes s !! r with
       | Some m => Done tt (with_mresumes (insert r (f m)) s)
       | None => Undef
       end.

Definition load_save (a : ptr) : M mp_prompt_save_t :=
  λ s, match saves s !! a with Some n => Done n s | None => Undef end.

Definition emit (e : event) : M unit := mmodify (with_event e).

(** ** External collaborators *)

(** The allocator of [internal/util.h] hands out addresses it has not
    handed out before; the model keeps its cursor in [heap_next] and moves
    it by one 16-byte granule per request. *)
Definition mp_malloc : M ptr :=
  λ s, Done (heap_next s) (with_heap_next (heap_next s + 16) s).

Definition mp_free_mresume (r : ptr) : M unit := mmodify (with_mresumes (delete r)).
Definition mp_free_save (a : ptr) : M unit := mmodify (with_saves (delete a)).

(** Stacklet allocator ([internal/gstack.h]): the calls are recorded in the
    trace.  What they do to the bytes of a stacklet is outside this file: in
    the model a prompt header stays readable after [mp_gstack_free] and is
    not rewritten by [mp_gsave_restore]. *)
Definition mp_gstack_free (g : ptr) (delay : bool) : M unit := emit (EvGstackFree g delay).

Definition mp_gstack_save (g : ptr) (sp : Z) : M ptr :=
  let* gs := mp_malloc in
  emit (EvGstackSave g sp gs);;;
  mreturn gs.

Definition mp_gsave_restore (gs : ptr) : M unit := emit (EvGsaveRestore gs).
Definition mp_gsave_free (gs : ptr) : M unit := emit (EvGsaveFree gs).

Definition mp_unwind_frame_update (uf : ptr) (jmp : ptr) : M unit :=
  emit (EvUnwindFrameUpdate uf jmp).

Definition mp_error_message (err : errno) (msg : string) : M unit :=
  emit (EvErrorMessage err msg).

Definition mp_longjmp {A} (jb : ptr) : M A := mexit (ExLongjmp jb).

(** The line feed that ends the messages of the source. *)
Definition newline : string := String (Ascii.ascii_of_nat 10) EmptyString.

(** [mp_fatal_message] ends the process; [mp_unreachable] marks a point
    that control does not reach. *)
Definition mp_fatal_message {A} (err : errno) (msg : string) : M A := mexit (ExFatal err msg).
Definition mp_unreachable {A} (msg : string) : M A := mexit (ExUnreachable msg).

(** ** Resumption handles: bit 2 of the pointer *)

Definition mp_resume_is_once (r : Z) : ptr :=
  let i := r in
  if Z.land i 4 =? 0 then r else NULL.

Definition mp_resume_is_multi (r : Z) : ptr :=
  let i := r in
  if Z.land i 4 =? 0 then NULL else Z.lxor i 4.

Definition mp_resume_once (p : ptr) : Z := p.

Definition mp_resume_multi (r : ptr) : Z := Z.lor r 4.

(** ** Prompt chain *)

Definition mp_prompt_top : M ptr := λ s, Done (_mp_prompt_top s) s.

Definition mp_prompt_parent (p : ptr) : M ptr :=
  if p =? NULL then mp_prompt_top
  else let* pr := load_prompt p in mreturn (p_parent pr).

Definition mp_prompt_is_active (p : ptr) : M bool :=
  if p =? NULL then mreturn false
  else let* pr := load_prompt p in mreturn (p_top pr =? NULL).

(** The [while] loop of [mp_prompt_is_ancestor]; [q] is the prompt last
    returned by [mp_prompt_parent]. *)
Fixpoint mp_prompt_is_ancestor_loop (fuel : nat) (p q : ptr) : M bool :=
  match fuel with
  | O => mfuel
  | S fuel' =>
      let* q' := mp_prompt_parent q in
      if q' =? NULL then mreturn false
      else if q' =? p then mreturn true
      else mp_prompt_is_ancestor_loop fuel' p q'
  end.

Definition mp_prompt_is_ancestor (fuel : nat) (p : ptr) : M bool :=
  mp_prompt_is_ancestor_loop fuel p NULL.

(** [gstack] and [p] are what [mp_gstack_alloc] and [mp_gstack_reserve]
    returned. *)
Definition mp_prompt_create (gstack p : ptr) (fn : ptr) (start_arg : Z) : M Z :=
  if gstack =? NULL then mp_fatal_message ENOMEM ("unable to allocate a stack" ++ newline)
  else
    mmodify (with_prompts (insert p
      {| p_parent := NULL; p_top := p; p_refcount := 1; p_gstack := gstack;
         p_return_point := NULL; p_resume_point := NULL; p_start_fun := fn;
         p_start_arg := start_arg; p_unwind_frame := NULL |}));;;
    mreturn (mp_resume_once p).

(** The loop of [mp_prompt_free], entered with [p = p->top]. *)
Fixpoint mp_prompt_free_loop (fuel : nat) (p : ptr) (delay : bool) : M unit :=
  if p =? NULL then mreturn tt
  else match fuel with
       | O => mfuel
       | S fuel' =>
           let* pr := load_prompt p in
           let parent := p_parent pr in
           mp_gstack_free (p_gstack pr) delay;;;
           (if parent =? NULL then mreturn tt
            else let* ppr := load_prompt parent in
                 store_prompt parent (set_p_refcount (intptr_wrap (p_refcount ppr - 1))));;;
           mp_prompt_free_loop fuel' parent delay
       end.

Definition mp_prompt_free (fuel : nat) (p : ptr) (delay : bool) : M unit :=
  let* pr := load_prompt p in
  mp_prompt_free_loop fuel (p_top pr) delay.

Definition mp_prompt_drop_internal (fuel : nat) (p : ptr) (delay : bool) : M unit :=
  let* pr := load_prompt p in
  let i := p_refcount pr in
  store_prompt p (set_p_refcount (intptr_wrap (p_refcount pr - 1)));;;
  if i <=? 1 then mp_prompt_free fuel p delay else mreturn tt.

Definition mp_prompt_drop (fuel : nat) (p : ptr) : M unit :=
  mp_prompt_drop_internal fuel p false.

Definition mp_prompt_drop_delayed (fuel : nat) (p : ptr) : M unit :=
  mp_prompt_drop_internal fuel p true.

Definition mp_prompt_dup (p : ptr) : M ptr :=
  let* pr := load_prompt p in
  store_prompt p (set_p_refcount (intptr_wrap (p_refcount pr + 1)));;;
  mreturn p.

Definition mp_prompt_link (p ret : ptr) : M ptr :=
  let* top := mp_prompt_top in
  store_prompt p (set_p_parent top);;;
  let* pr := load_prompt p in
  mmodify (with_top (p_top pr));;;
  store_prompt p (set_p_top NULL);;;
  (if negb (ret =? NULL) then
     store_prompt p (set_p_return_point ret);;;
     let* pr := load_prompt p in
     mp_unwind_frame_update (p_unwind_frame pr) ret
   else mreturn tt);;;
  let* pr := load_prompt p in
  mreturn (p_resume_point pr).

Definition mp_prompt_unlink (p res : ptr) : M ptr :=
  let* top := mp_prompt_top in
  store_prompt p (set_p_top top);;;
  let* pr := load_prompt p in
  mmodify (with_top (p_parent pr));;;
  store_prompt p (set_p_parent NULL);;;
  store_prompt p (set_p_resume_point res);;;
  let* pr := load_prompt p in
  mreturn (p_return_point pr).

(** The state reached by [mp_prompt_link]. *)
Definition link_state (s : state) (p ret : ptr) (pr : mp_prompt_s) : state :=
  {| prompts :=
       <[p := {| p_parent := _mp_prompt_top s; p_top := NULL;
                 p_refcount := p_refcount pr; p_gstack := p_gstack pr;
                 p_return_point := if ret =? NULL then p_return_point pr else ret;
                 p_resume_point := p_resume_point pr;
                 p_start_fun := p_start_fun pr; p_start_arg := p_start_arg pr;
                 p_unwind_frame := p_unwind_frame pr |}]> (prompts s);
     return_points := return_points s; resume_points := resume_points s;
     mresumes := mresumes s; saves := saves s;
     _mp_prompt_top := p_top pr; heap_next := heap_next s;
     trace := if ret =? NULL then trace s
              else trace s ++ [EvUnwindFrameUpdate (p_unwind_frame pr) ret] |}.

(** The state reached by [mp_prompt_unlink]. *)
Definition unlink_state (s : state) (p res : ptr) (pr : mp_prompt_s) : state :=
  {| prompts :=
       <[p := {| p_parent := NULL; p_top := _mp_prompt_top s;
                 p_refcount := p_refcount pr; p_gstack := p_gstack pr;
                 p_return_point := p_return_point pr;
                 p_resume_point := res;
                 p_start_fun := p_start_fun pr; p_start_arg := p_start_arg pr;
                 p_unwind_frame := p_unwind_frame pr |}]> (prompts s);
     return_points := return_points s; resume_points := resume_points s;
     mresumes := mresumes s; saves := saves s;
     _mp_prompt_top := p_parent pr; heap_next := heap_next s;
     trace := trace s |}.


(** ** Entering and resuming a prompt *)

Definition store_return_point (a : ptr) (f : mp_return_point_t → mp_return_point_t) : M unit :=
  λ s, match return_points s !! a with
       | Some r => Done tt (with_return_points (insert a (f r)) s)
       | None => Undef
       end.

(** [mp_setjmp(&ret.jmp)] on a local [mp_return_point_t ret] at address
    [ret]: the buffer receives the context [jb]; the other fields of the
    local keep whatever the slot held. *)
Definition setjmp_return_point (ret : ptr) (jb : mp_jmpbuf_t) : M unit :=
  mmodify (with_return_points (λ h,
    <[ret := match h !! ret with
             | Some r => {| ret_jmp := jb; ret_kind := ret_kind r;
                            ret_fun := ret_fun r; ret_arg := ret_arg r |}
             | None => {| ret_jmp := jb; ret_kind := MP_RETURN;
                          ret_fun := NULL; ret_arg := 0 |}
             end]> h)).

(** [mp_setjmp(&res.jmp)] on a local [mp_resume_point_t res]. *)
Definition setjmp_resume_point (res : ptr) (jb : mp_jmpbuf_t) : M unit :=
  mmodify (with_resume_points (λ h,
    <[res := match h !! res with
             | Some r => {| res_jmp := jb; res_result := res_result r |}
             | None => {| res_jmp := jb; res_result := 0 |}
             end]> h)).

(** The path of [mp_prompt_resume] on which [mp_setjmp] returns zero.
    [ret] is the address of the local return point and [jb] the context
    saved in it.  The path on which [mp_setjmp] returns non-zero is
    [mp_prompt_exec_yield_fun]. *)
Definition mp_prompt_resume (p : ptr) (arg : Z) (ret : ptr) (jb : mp_jmpbuf_t) : M Z :=
  setjmp_return_point ret jb;;;
  let* res := mp_prompt_link p ret in
  if negb (res =? NULL) then
    store_resume_point res (set_res_result arg);;;
    mp_longjmp res
  else
    let* pr := load_prompt p in
    mexit (ExGstackEnter (p_gstack pr) p arg).

Definition mp_prompt_resume_tail (p : ptr) (arg : Z) (ret : ptr) : M Z :=
  let* res := mp_prompt_link p ret in
  store_resume_point res (set_res_result arg);;;
  mp_longjmp res.

(** The yielding side: the path of [mp_yield_internal] on which
    [mp_setjmp] returns zero. *)
Definition mp_yield_internal (rkind : mp_return_kind_t) (p : ptr) (fn : ptr) (arg : Z)
    (res : ptr) (jb : mp_jmpbuf_t) : M Z :=
  setjmp_resume_point res jb;;;
  let* ret := mp_prompt_unlink p res in
  store_return_point ret (λ r, {| ret_jmp := ret_jmp r; ret_kind := ret_kind r;
                                  ret_fun := fn; ret_arg := ret_arg r |});;;
  store_return_point ret (λ r, {| ret_jmp := ret_jmp r; ret_kind := ret_kind r;
                                  ret_fun := ret_fun r; ret_arg := arg |});;;
  store_return_point ret (λ r, {| ret_jmp := ret_jmp r; ret_kind := rkind;
                                  ret_fun := ret_fun r; ret_arg := ret_arg r |});;;
  mp_longjmp ret.

Definition mp_yield (p fn : ptr) (arg : Z) (res : ptr) (jb : mp_jmpbuf_t) : M Z :=
  mp_yield_internal MP_YIELD_ONCE p fn arg res jb.

Definition mp_yieldm (p fn : ptr) (arg : Z) (res : ptr) (jb : mp_jmpbuf_t) : M Z :=
  mp_yield_internal MP_YIELD_MULTI p fn arg res jb.

(** ** Multi-shot resumptions *)

Definition mp_mresume_dup (r : ptr) : M ptr :=
  let* m := load_mresume r in
  store_mresume r (set_r_refcount (intptr_wrap (r_refcount m + 1)));;;
  mreturn r.

(** The loop of [mp_mresume_drop] over the saved stacklets. *)
Fixpoint mp_mresume_drop_loop (fuel : nat) (s : ptr) : M unit :=
  if s =? NULL then mreturn tt
  else match fuel with
       | O => mfuel
       | S fuel' =>
           let* n := load_save s in
           let next := s_next n in
           let p := s_prompt n in
           mp_gsave_free (s_gsave n);;;
           mp_free_save s;;;
           mp_prompt_drop fuel p;;;
           mp_mresume_drop_loop fuel' next
       end.

Definition mp_mresume_drop (fuel : nat) (r : ptr) : M unit :=
  let* m := load_mresume r in
  let i := r_refcount m in
  store_mresume r (set_r_refcount (intptr_wrap (r_refcount m - 1)));;;
  if i <=? 1 then
    let* m := load_mresume r in
    mp_mresume_drop_loop fuel (r_save m);;;
    let* m := load_mresume r in
    mp_prompt_drop fuel (r_prompt m);;;
    mp_free_mresume r
  else mreturn tt.

(** The [do]-[while] loop of [mp_prompt_save]. *)
Fixpoint mp_prompt_save_loop (fuel : nat) (p : ptr) (sp : Z) (savep : ptr) : M ptr :=
  match fuel with
  | O => mfuel
  | S fuel' =>
      let* save := mp_malloc in
      let* q := mp_prompt_dup p in
      let* pr := load_prompt p in
      let* gs := mp_gstack_save (p_gstack pr) sp in
      mmodify (with_saves (insert save
        {| s_next := savep; s_prompt := q; s_gsave := gs |}));;;
      let savep := save in
      let* pr := load_prompt p in
      let* sp := (if p_parent pr =? NULL then mreturn NULL
                  else let* rp := load_return_point (p_return_point pr) in
                       mreturn (reg_sp (ret_jmp rp))) in
      let p := p_parent pr in
      if negb (p =? NULL) then mp_prompt_save_loop fuel' p sp savep
      else mreturn savep
  end.

Definition mp_prompt_save (fuel : nat) (p : ptr) : M ptr :=
  let savep := NULL in
  let* pr := load_prompt p in
  let* rp := load_resume_point (p_resume_point pr) in
  let sp := reg_sp (res_jmp rp) in
  let p := p_top pr in
  mp_prompt_save_loop fuel p sp savep.

(** The [do]-[while] loop of [mp_prompt_restore]. *)
Fixpoint mp_prompt_restore_loop (fuel : nat) (save : ptr) : M unit :=
  match fuel with
  | O => mfuel
  | S fuel' =>
      let* n := load_save save in
      mp_gsave_restore (s_gsave n);;;
      let save := s_next n in
      if negb (save =? NULL) then mp_prompt_restore_loop fuel' save
      else mreturn tt
  end.

Definition mp_prompt_restore (fuel : nat) (p : ptr) (save : ptr) : M unit :=
  mp_prompt_restore_loop fuel save.

Definition mp_resume_get_prompt (fuel : nat) (r : ptr) : M ptr :=
  let* m := load_mresume r in
  let p := r_prompt m in
  (if negb (r_save m =? NULL) then
     mp_prompt_restore fuel p (r_save m)
   else
     let* again :=
       (if r_refcount m >? 1 then mreturn true
        else let* pr := load_prompt p in mreturn (p_refcount pr >? 1)) in
     if (again : bool) then
       let* sv := mp_prompt_save fuel p in
       store_mresume r (set_r_save sv)
     else mreturn tt);;;
  mp_prompt_dup p;;;
  mp_mresume_drop fuel r;;;
  mreturn p.

Definition mp_mresume (fuel : nat) (r : ptr) (arg : Z) (ret : ptr) (jb : mp_jmpbuf_t) : M Z :=
  let* m := load_mresume r in
  store_mresume r (set_r_resume_count (long_wrap (r_resume_count m + 1)));;;
  let* p := mp_resume_get_prompt fuel r in
  mp_prompt_resume p arg ret jb.

(** [frame] and [jb] are the local return point and context that the
    fallback to [mp_mresume] sets up. *)
Definition mp_mresume_tail (fuel : nat) (r : ptr) (arg : Z) (frame : ptr) (jb : mp_jmpbuf_t)
    : M Z :=
  let* m := load_mresume r in
  let ret := r_tail_return_point m in
  if ret =? NULL then mp_mresume fuel r arg frame jb
  else
    store_mresume r (set_r_tail_return_point NULL);;;
    let* m := load_mresume r in
    store_mresume r (set_r_resume_count (long_wrap (r_resume_count m + 1)));;;
    let* p := mp_resume_get_prompt fuel r in
    mp_prompt_resume_tail p arg ret.

(** ** The public resume interface *)

Definition mp_resume (fuel : nat) (resume : Z) (arg : Z) (ret : ptr) (jb : mp_jmpbuf_t) : M Z :=
  let p := mp_resume_is_once resume in
  if p =? NULL then mp_mresume fuel (mp_resume_is_multi resume) arg ret jb
  else mp_prompt_resume p arg ret jb.

Definition mp_resume_tail (fuel : nat) (resume : Z) (arg : Z) (frame : ptr) (jb : mp_jmpbuf_t)
    : M Z :=
  let p := mp_resume_is_once resume in
  if p =? NULL then mp_mresume_tail fuel (mp_resume_is_multi resume) arg frame jb
  else let* pr := load_prompt p in
       mp_prompt_resume_tail p arg (p_return_point pr).

Definition mp_resume_drop (fuel : nat) (resume : Z) : M unit :=
  let p := mp_resume_is_once resume in
  if p =? NULL then mp_mresume_drop fuel (mp_resume_is_multi resume)
  else mp_prompt_drop fuel p.

(** The text that [mp_resume_dup] logs for a once-resumption. *)
Definition mp_resume_dup_message : string :=
  "cannot dup once-resumptions; use 'mp_myield' instead." ++ newline.

Definition mp_resume_dup (resume : Z) : M Z :=
  let r := mp_resume_is_multi resume in
  if r =? NULL then
    mp_error_message EINVAL mp_resume_dup_message;;;
    mreturn NULL
  else
    mp_mresume_dup r;;;
    mreturn resume.

Definition mp_resume_resume_count (resume : Z) : M Z :=
  let r := mp_resume_is_multi resume in
  if r =? NULL then mreturn 0
  else let* m := load_mresume r in mreturn (r_resume_count m).

Definition mp_resume_should_unwind (resume : Z) : M bool :=
  let r := mp_resume_is_multi resume in
  if negb (r =? NULL) then
    let* m := load_mresume r in
    if r_refcount m =? 1 then mreturn (r_resume_count m =? 0)
    else mreturn false
  else mreturn false.

(** ** The receiving side and the entry trampoline

    User code is reached through function pointers; what a pointer does
    when called is a parameter of the model. *)
Section Callbacks.

(** [(ret->fun)(resume, arg)] *)
Variable call_yield_fun : ptr → Z → Z → M Z.
(** [(p->start_fun)(p, p->start_arg, arg)] *)
Variable call_start_fun : ptr → ptr → Z → Z → M Z.

(** The C build: a return kind other than the three handled ones ends in
    [mp_unreachable]. *)
Definition mp_prompt_exec_yield_fun (fuel : nat) (ret : ptr) (p : ptr) : M Z :=
  let* rp := load_return_point ret in
  if decide (ret_kind rp = MP_YIELD_ONCE) then
    call_yield_fun (ret_fun rp) (mp_resume_once p) (ret_arg rp)
  else if decide (ret_kind rp = MP_RETURN) then
    let result := ret_arg rp in
    mp_prompt_drop fuel p;;;
    mreturn result
  else if decide (ret_kind rp = MP_YIELD_MULTI) then
    let* r := mp_malloc in
    let* pr := load_prompt p in
    mmodify (with_mresumes (insert r
      {| r_refcount := 1; r_resume_count := 0; r_prompt := p; r_save := NULL;
         r_tail_return_point := p_return_point pr |}));;;
    let* rp := load_return_point ret in
    call_yield_fun (ret_fun rp) (mp_resume_multi r) (ret_arg rp)
  else mp_unreachable "invalid return kind".

(** [env_prompt] and [env_arg] are the fields of the entry environment. *)
Definition mp_prompt_stack_entry (env_prompt : ptr) (env_arg : Z) (unwind_frame : ptr)
    : M unit :=
  let p := env_prompt in
  store_prompt p (λ pr,
    {| p_parent := p_parent pr; p_top := p_top pr; p_refcount := p_refcount pr;
       p_gstack := p_gstack pr; p_return_point := p_return_point pr;
       p_resume_point := p_resume_point pr; p_start_fun := p_start_fun pr;
       p_start_arg := p_start_arg pr; p_unwind_frame := unwind_frame |});;;
  let* pr := load_prompt p in
  let* result := call_start_fun (p_start_fun pr) p (p_start_arg pr) env_arg in
  let* ret := mp_prompt_unlink p NULL in
  store_return_point ret (λ r, {| ret_jmp := ret_jmp r; ret_kind := ret_kind r;
                                  ret_fun := ret_fun r; ret_arg := result |});;;
  store_return_point ret (λ r, {| ret_jmp := ret_jmp r; ret_kind := ret_kind r;
                                  ret_fun := NULL; ret_arg := ret_arg r |});;;
  store_return_point ret (λ r, {| ret_jmp := ret_jmp r; ret_kind := MP_RETURN;
                                  ret_fun := ret_fun r; ret_arg := ret_arg r |});;;
  mp_longjmp ret.

End Callbacks.

(** ** The prompt chain as a list *)

(** [chain h x l]: walking [parent] from [x] visits exactly the prompts
    of [l], in this order, and then reaches [NULL]. *)
Inductive chain (h : gmap Z mp_prompt_s) : ptr → list ptr → Prop :=
  | chain_nil : chain h NULL []
  | chain_cons x pr l :
      x ≠ NULL → h !! x = Some pr → chain h (p_parent pr) l → chain h x (x :: l).

(** [p] is part of the thread's current execution chain. *)
Definition on_chain (s : state) (p : ptr) : Prop :=
  ∃ l, chain (prompts s) (_mp_prompt_top s) l ∧ p ∈ l.

(** The biconditional read with "active" as membership of the current
    execution chain. *)
Definition active_iff_top_null (s : state) : Prop :=
  ∀ p pr, prompts s !! p = Some pr → (on_chain s p ↔ p_top pr = NULL).

(** What holds between operations. *)
Record prompt_chain_inv (s : state) : Prop := {
  inv_null : prompts s !! NULL = None;
  inv_chain : ∃ l, chain (prompts s) (_mp_prompt_top s) l;
  inv_active : ∀ p pr, on_chain s p → prompts s !! p = Some pr → p_top pr = NULL;
  inv_suspended : ∀ p pr,
    prompts s !! p = Some pr → p_top pr ≠ NULL →
    p_parent pr = NULL ∧
    ∃ l, chain (prompts s) (p_top pr) (l ++ [p]) ∧
         ∀ q qr, q ∈ l → prompts s !! q = Some qr → p_top qr = NULL
}.

(** ** Histories of chain operations *)

Inductive op :=
  | OpCreate (gstack p fn : ptr) (start_arg : Z)
  | OpLink (p ret : ptr)
  | OpUnlink (p res : ptr).

(** One operation, guarded by the assertions of the source. *)
Definition step (o : op) : M unit :=
  match o with
  | OpCreate gstack p fn start_arg =>
      let* s := mget in
      if (p =? NULL) || bool_decide (is_Some (prompts s !! p)) then mundef
      else mp_prompt_create gstack p fn start_arg;;; mreturn tt
  | OpLink p ret =>
      let* a := mp_prompt_is_active p in
      if (a : bool) then mundef
      else mp_prompt_link p ret;;; mreturn tt
  | OpUnlink p res =>
      let* s := mget in
      let* a := mp_prompt_is_active p in
      let* b := mp_prompt_is_ancestor (S (size (prompts s))) p in
      if a && b then mp_prompt_unlink p res;;; mreturn tt
      else mundef
  end.

Fixpoint run (ops : list op) : M unit :=
  match ops with
  | [] => mreturn tt
  | o :: ops' => step o;;; run ops'
  end.

Definition empty_state : state :=
  {| prompts := ∅; return_points := ∅; resume_points := ∅; mresumes := ∅;
     saves := ∅; _mp_prompt_top := NULL; heap_next := 16; trace := [] |}.




(** Two stores have the same shape when they agree on every [parent] and
    [top]. *)
Definition shape (pr : mp_prompt_s) : ptr * ptr := (p_parent pr, p_top pr).

Definition same_shape (h h' : gmap Z mp_prompt_s) : Prop :=
  ∀ x, shape <$> h !! x = shape <$> h' !! x.

(** ** Save lists *)

(** [save_list h a l]: following [next] from [a] visits exactly the nodes
    of [l], in this order, and then reaches [NULL]. *)
Inductive save_list (h : gmap Z mp_prompt_save_t) : ptr → list mp_prompt_save_t → Prop :=
  | save_list_nil : save_list h NULL []
  | save_list_cons a n l :
      a ≠ NULL → h !! a = Some n → save_list h (s_next n) l → save_list h a (n :: l).

Definition bump_refcount (pr : mp_prompt_s) : mp_prompt_s :=
  set_p_refcount (intptr_wrap (p_refcount pr + 1)) pr.

(** The allocator has not yet handed out the addresses from [heap_next] on. *)
Definition fresh_heap (s : state) : Prop :=
  0 < heap_next s ∧
  (∀ a, heap_next s ≤ a → saves s !! a = None) ∧
  (∀ a, heap_next s ≤ a → mresumes s !! a = None).

(** The return point of every prompt of [l] that has a parent is readable. *)
Definition return_points_readable (s : state) (l : list ptr) : Prop :=
  ∀ y yr, y ∈ l → prompts s !! y = Some yr → p_parent yr ≠ NULL →
          is_Some (return_points s !! p_return_point yr).

(** What one iteration of the save loop leaves behind for the prompt [y]:
    a node and the recorded snapshot request. *)
Definition snapshot_of (s : state) (y : ptr) (it : mp_prompt_save_t * event) : Prop :=
  s_prompt it.1 = y ∧
  ∃ yr sp, prompts s !! y = Some yr ∧ it.2 = EvGstackSave (p_gstack yr) sp (s_gsave it.1).

(** The reading "the save list is in child→parent order, the deepest child
    at its head": the prompts of the list built for [p] are those of the
    walk from [p->top] along [parent], in that order. *)
Definition save_list_child_to_parent : Prop :=
  ∀ fuel s p pr l sv s' nodes,
    prompts s !! p = Some pr →
    chain (prompts s) (p_top pr) l →
    mp_prompt_save fuel p s = Done sv s' →
    save_list (saves s') sv nodes →
    map s_prompt nodes = l.

(** The state after one iteration of the save loop on the prompt [x] with
    record [xr]: a reference taken, a snapshot requested, a node added in
    front of [savep]. *)
Definition save_step_state (s : state) (x : ptr) (xr : mp_prompt_s) (sp : Z) (savep : ptr)
    : state :=
  {| prompts := <[x := bump_refcount xr]> (prompts s);
     return_points := return_points s; resume_points := resume_points s;
     mresumes := mresumes s;
     saves := <[heap_next s := {| s_next := savep; s_prompt := x;
                                  s_gsave := heap_next s + 16 |}]> (saves s);
     _mp_prompt_top := _mp_prompt_top s;
     heap_next := heap_next s + 16 + 16;
     trace := trace s ++ [EvGstackSave (p_gstack xr) sp (heap_next s + 16)] |}.

(** [s'] has the return points of [s], and every multi-shot record of [s']
    is a record of [s] with the same [tail_return_point]. *)
Definition keeps_tail_points (s s' : state) : Prop :=
  return_points s' = return_points s ∧
  ∀ r m', mresumes s' !! r = Some m' →
          ∃ m, mresumes s !! r = Some m ∧ r_tail_return_point m' = r_tail_return_point m.

(** Every completed run of [c] is related by [R]. *)
Definition framed (R : state → state → Prop) {A} (c : M A) : Prop :=
  ∀ s a s', c s = Done a s' → R s s'.

(** ** Concrete states *)

Definition mk_prompt (parent top : ptr) (refcount : Z) (gstack ret res : ptr) : mp_prompt_s :=
  {| p_parent := parent; p_top := top; p_refcount := refcount; p_gstack := gstack;
     p_return_point := ret; p_resume_point := res; p_start_fun := 8;
     p_start_arg := 0; p_unwind_frame := NULL |}.

(** Three nested active prompts A (at 64), B (at 128), C (at 192):
    C is the current top, B its parent, A the parent of B. *)
Definition st_nested : state :=
  {| prompts :=
       <[64 := mk_prompt NULL NULL 1 4096 1024 NULL]>
       (<[128 := mk_prompt 64 NULL 1 8192 1040 NULL]>
       (<[192 := mk_prompt 128 NULL 1 12288 1056 NULL]> ∅));
     return_points :=
       <[1024 := {| ret_jmp := {| reg_sp := 1000 |}; ret_kind := MP_RETURN;
                    ret_fun := NULL; ret_arg := 0 |}]>
       (<[1040 := {| ret_jmp := {| reg_sp := 5000 |}; ret_kind := MP_RETURN;
                     ret_fun := NULL; ret_arg := 0 |}]>
       (<[1056 := {| ret_jmp := {| reg_sp := 9000 |}; ret_kind := MP_RETURN;
                     ret_fun := NULL; ret_arg := 0 |}]> ∅));
     resume_points := <[13000 := {| res_jmp := {| reg_sp := 13000 |}; res_result := 0 |}]> ∅;
     mresumes := ∅; saves := ∅;
     _mp_prompt_top := 192; heap_next := 65536; trace := [] |}.

(** [st_nested] after C yielded to A: [mp_prompt_unlink 64 13000]. *)
Definition st_yielded : state := unlink_state st_nested 64 13000 (mk_prompt NULL NULL 1 4096 1024 NULL).

(** A prompt at 64 is created, entered, and its start function returns:
    the return path of [mp_prompt_stack_entry] unlinks with a null resume
    point. *)
Definition returned_history : list op :=
  [OpCreate 4096 64 8 0; OpLink 64 1024; OpUnlink 64 NULL].

Definition st_returned : state :=
  {| prompts :=
       <[64 := {| p_parent := NULL; p_top := 64; p_refcount := 1; p_gstack := 4096;
                  p_return_point := 1024; p_resume_point := NULL; p_start_fun := 8;
                  p_start_arg := 0; p_unwind_frame := NULL |}]> ∅;
     return_points := ∅; resume_points := ∅; mresumes := ∅; saves := ∅;
     _mp_prompt_top := NULL; heap_next := 16;
     trace := [EvUnwindFrameUpdate NULL 1024] |}.

(** The history that builds the nesting of [st_nested]. *)
Definition nested_history : list op :=
  [OpCreate 4096 64 8 0; OpLink 64 1024;
   OpCreate 8192 128 8 0; OpLink 128 1040;
   OpCreate 12288 192 8 0; OpLink 192 1056].

(** [st_yielded] with a multi-shot resumption record for A at 20000 that
    has two owners and no snapshot yet. *)
Definition st_multi : state :=
  with_mresumes (insert 20000
    {| r_refcount := 2; r_resume_count := 0; r_prompt := 64; r_save := NULL;
       r_tail_return_point := 1024 |}) st_yielded.

(** The three nodes that [mp_prompt_save] builds for A in [st_yielded]. *)
Definition node_A : mp_prompt_save_t := {| s_next := 65568; s_prompt := 64; s_gsave := 65616 |}.
Definition node_B : mp_prompt_save_t := {| s_next := 65536; s_prompt := 128; s_gsave := 65584 |}.
Definition node_C : mp_prompt_save_t := {| s_next := NULL; s_prompt := 192; s_gsave := 65552 |}.

(** [st_nested] after C yielded to A with [mp_yieldm]: the state in which
    control arrives at A's return point 1024. *)
Definition st_yieldm : state :=
  match mp_yieldm 64 500 7 13000 {| reg_sp := 13000 |} st_nested with
  | Exit _ s => s
  | _ => st_nested
  end.

(** A yield function that resumes nothing and returns its argument plus one. *)
Definition example_yield_fun (fn : ptr) (resume : Z) (arg : Z) : M Z := mreturn (arg + 1).


(** ** More of the chain walk and of the public interface *)

Definition mp_gstack_current : M ptr :=
  let* top := mp_prompt_top in
  if negb (top =? NULL) then
    let* pr := load_prompt top in mreturn (p_gstack pr)
  else mreturn NULL.

(** The walk a caller of [mp_prompt_parent] performs: start from [NULL]
    and feed each answer back in, [n] times. *)
Fixpoint mp_prompt_parent_iter (n : nat) : M ptr :=
  match n with
  | O => mreturn NULL
  | S n' => let* q := mp_prompt_parent_iter n' in mp_prompt_parent q
  end.

(** The path of [mp_yield_internal] on which [mp_setjmp] returns non-zero:
    a resume has jumped to the resume point [res]. *)
Definition mp_yield_internal_resumed (res : ptr) : M Z :=
  let* rp := load_resume_point res in
  mreturn (res_result rp).

Section Start.

(** [((mp_start_fun_t* )sfun)(p, arg)] *)
Variable call_fun : ptr → ptr → Z → M Z.
(** The address of [mp_startc_fun]. *)
Variable mp_startc_fun_addr : ptr.

Definition mp_startc_fun (p : ptr) (sfun : ptr) (arg : Z) : M Z :=
  let fn := sfun in
  call_fun fn p arg.

(** [gstack] and [p] are what the stacklet allocator returns to
    [mp_prompt_create]; [ret] and [jb] are the frame of [mp_prompt_resume]. *)
Definition mp_prompt (fuel : nat) (gstack p : ptr) (fn : ptr) (arg : Z)
    (ret : ptr) (jb : mp_jmpbuf_t) : M Z :=
  let* r := mp_prompt_create gstack p mp_startc_fun_addr fn in
  mp_resume fuel r arg ret jb.

End Start.

(** The stacklet of the prompt [y] is given back, with the flag [delay]. *)
Definition frees_stacklet_of (s : state) (delay : bool) (y : ptr) (e : event) : Prop :=
  ∃ yr, prompts s !! y = Some yr ∧ e = EvGstackFree (p_gstack yr) delay.

Definition drop_refcount (pr : mp_prompt_s) : mp_prompt_s :=
  set_p_refcount (intptr_wrap (p_refcount pr - 1)) pr.

(** The state in which [mp_yield_internal] jumps to the return point of
    [p]: the resume point is saved, [p] is unlinked and the return point
    carries the yield. *)
Definition yield_state (s : state) (rkind : mp_return_kind_t) (p fn : ptr) (arg : Z)
    (res : ptr) (jb : mp_jmpbuf_t) (pr : mp_prompt_s) (rp : mp_return_point_t) : state :=
  {| prompts :=
       <[p := {| p_parent := NULL; p_top := _mp_prompt_top s;
                 p_refcount := p_refcount pr; p_gstack := p_gstack pr;
                 p_return_point := p_return_point pr; p_resume_point := res;
                 p_start_fun := p_start_fun pr; p_start_arg := p_start_arg pr;
                 p_unwind_frame := p_unwind_frame pr |}]> (prompts s);
     return_points :=
       <[p_return_point pr := {| ret_jmp := ret_jmp rp; ret_kind := rkind;
                                 ret_fun := fn; ret_arg := arg |}]> (return_points s);
     resume_points :=
       <[res := {| res_jmp := jb;
                   res_result := match resume_points s !! res with
                                 | Some r => res_result r
                                 | None => 0
                                 end |}]> (resume_points s);
     mresumes := mresumes s; saves := saves s;
     _mp_prompt_top := p_parent pr; heap_next := heap_next s; trace := trace s |}.

(** A start closure that yields nothing and returns twice its argument. *)
Definition example_start_fun (start_fun p : ptr) (start_arg arg : Z) : M Z :=
  mreturn (2 * arg).

(** [s'] has the multi-shot records of [s] except possibly [r], and [r],
    if it is still there, has kept its prompt and its count of resumes. *)
Definition keeps_other_records (r : ptr) (s s' : state) : Prop :=
  (∀ r', r' ≠ r → mresumes s' !! r' = mresumes s !! r') ∧
  (∀ m', mresumes s' !! r = Some m' →
         ∃ m, mresumes s !! r = Some m ∧
              r_resume_count m' = r_resume_count m ∧ r_prompt m' = r_prompt m).

(** Every run of [c] that returns or leaves through an exit is related by [R]. *)
Definition framed_all (R : state → state → Prop) {A} (c : M A) : Prop :=
  ∀ s, match c s with
       | Done _ s' => R s s'
       | Exit _ s' => R s s'
       | Undef => True
       | OutOfFuel => True
       end.

(** [after o P]: the state in which a run ended, by return or by a jump,
    satisfies [P]. *)
Definition after {A} (o : res A) (P : state → Prop) : Prop :=
  match o with
  | Done _ s' => P s'
  | Exit _ s' => P s'
  | Undef => True
  | OutOfFuel => True
  end.

(** The addresses of the nodes of a save list that starts at [a]. *)
Fixpoint save_addrs (a : ptr) (l : list mp_prompt_save_t) : list ptr :=
  match l with
  | [] => []
  | n :: l' => a :: save_addrs (s_next n) l'
  end.

(** How many of the references in [l] are to the prompt [y]. *)
Fixpoint references_held (l : list ptr) (y : ptr) : Z :=
  match l with
  | [] => 0
  | x :: l' => (if bool_decide (x = y) then 1 else 0) + references_held l' y
  end.

(** The prompt header after [k] of its references were given back. *)
Definition release (k : Z) (pr : mp_prompt_s) : mp_prompt_s :=
  set_p_refcount (p_refcount pr - k) pr.

(** [st_multi] after a first [mp_resume] of its record: the record now
    owns a save list. *)
Definition st_resumed : state :=
  match mp_resume 8 20004 7 14000 {| reg_sp := 14000 |} st_multi with
  | Exit _ s => s
  | _ => st_multi
  end.

(** [st_yielded] with the record that a [mp_yieldm] to A would have made:
    one owner, never resumed. *)
Definition st_fresh_multi : state :=
  with_mresumes (insert 20000
    {| r_refcount := 1; r_resume_count := 0; r_prompt := 64; r_save := NULL;
       r_tail_return_point := 1024 |}) st_yielded.

(** A user function for [mp_prompt] that returns twice its argument. *)
Definition example_fun (fn p : ptr) (arg : Z) : M Z := mreturn (2 * arg).

(** [p->unwind_frame = v] *)
Definition set_p_unwind_frame (v : ptr) (pr : mp_prompt_s) : mp_prompt_s :=
  {| p_parent := p_parent pr; p_top := p_top pr; p_refcount := p_refcount pr;
     p_gstack := p_gstack pr; p_return_point := p_return_point pr;
     p_resume_point := p_resume_point pr; p_start_fun := p_start_fun pr;
     p_start_arg := p_start_arg pr; p_unwind_frame := v |}.
(** * Properties *)

(** ** Basic facts about the monad and the stores *)

Lemma mbind_done {A B} (c : M A) (k : A → M B) s a s' :
  c s = Done a s' → mbind' c k s = k a s'.
Proof. unfold mbind'. by intros ->. Qed.

Lemma load_prompt_done s p pr :
  prompts s !! p = Some pr → load_prompt p s = Done pr s.
Proof. unfold load_prompt. by intros ->. Qed.

Lemma store_prompt_done s p pr f :
  prompts s !! p = Some pr →
  store_prompt p f s = Done tt (with_prompts (insert p (f pr)) s).
Proof. unfold store_prompt. by intros ->. Qed.

Lemma mbind_assoc {A B C} (c : M A) (k1 : A → M B) (k2 : B → M C) s :
  mbind' (mbind' c k1) k2 s = mbind' c (λ a, mbind' (k1 a) k2) s.
Proof. unfold mbind'. by destruct (c s). Qed.

Ltac mstep :=
  first
    [ rewrite mbind_assoc
    | erewrite (mbind_done (load_prompt _)) by (apply load_prompt_done; simpl; first [eassumption | apply lookup_insert_eq])
    | erewrite (mbind_done (store_prompt _ _)) by (apply store_prompt_done; simpl; first [eassumption | apply lookup_insert_eq])
    | erewrite (mbind_done mp_prompt_top) by reflexivity
    | erewrite (mbind_done (mmodify _)) by reflexivity
    | erewrite (mbind_done (emit _)) by reflexivity
    | erewrite (mbind_done (mreturn _)) by reflexivity ].

Lemma mp_prompt_link_done s p ret pr :
  prompts s !! p = Some pr →
  mp_prompt_link p ret s = Done (p_resume_point pr) (link_state s p ret pr).
Proof.
  intros Hp. unfold mp_prompt_link.
  repeat mstep.
  destruct (ret =? 0) eqn:E; simpl.
  - repeat mstep. unfold mreturn, link_state, with_prompts, with_top; simpl.
    rewrite E. rewrite !insert_insert_eq. reflexivity.
  - unfold mp_unwind_frame_update. repeat mstep.
    unfold mreturn, link_state, with_prompts, with_top, with_event; simpl.
    rewrite E. rewrite !insert_insert_eq. reflexivity.
Qed.

Lemma mp_prompt_unlink_done s p res pr :
  prompts s !! p = Some pr →
  mp_prompt_unlink p res s = Done (p_return_point pr) (unlink_state s p res pr).
Proof.
  intros Hp. unfold mp_prompt_unlink.
  repeat mstep.
  unfold mreturn, unlink_state, with_prompts, with_top; simpl.
  rewrite !insert_insert_eq. reflexivity.
Qed.

(** ** Handles *)

Lemma mp_resume_is_multi_once h : Z.land h 4 = 0 → mp_resume_is_multi h = NULL.
Proof. unfold mp_resume_is_multi. by intros ->. Qed.

Lemma mp_resume_is_once_once h : Z.land h 4 = 0 → mp_resume_is_once h = h.
Proof. unfold mp_resume_is_once. by intros ->. Qed.

(** C9: duplicating a once-resumption handle (bit 2 clear) is an error:
    [mp_resume_dup] returns [NULL], logs one [EINVAL] error message and
    changes nothing else; in particular no prompt's reference count moves
    and no multi-shot record is touched. *)
Theorem mp_resume_dup_once (h : Z) (s : state) :
  Z.land h 4 = 0 →
  ∃ s', mp_resume_dup h s = Done NULL s' ∧
        trace s' = trace s ++
          [EvErrorMessage EINVAL mp_resume_dup_message] ∧
        prompts s' = prompts s ∧ mresumes s' = mresumes s ∧ saves s' = saves s ∧
        _mp_prompt_top s' = _mp_prompt_top s ∧
        mp_resume_is_once NULL = NULL ∧ mp_resume_is_multi NULL = NULL.
Proof.
  intros Hh. unfold mp_resume_dup. rewrite (mp_resume_is_multi_once h Hh). simpl.
  eexists. split; [reflexivity|]. simpl. repeat split; reflexivity.
Qed.

Lemma mp_resume_dup_once_witness :
  Z.land 64 4 = 0 ∧
  ∃ s', mp_resume_dup 64 st_nested = Done NULL s' ∧
        trace s' = trace st_nested ++
          [EvErrorMessage EINVAL mp_resume_dup_message] ∧
        prompts s' = prompts st_nested ∧ mresumes s' = mresumes st_nested ∧
        saves s' = saves st_nested ∧
        _mp_prompt_top s' = _mp_prompt_top st_nested ∧
        mp_resume_is_once NULL = NULL ∧ mp_resume_is_multi NULL = NULL.
Proof. split; [reflexivity | apply (mp_resume_dup_once 64 st_nested); reflexivity]. Defined.

(** C10: on a once-resumption handle (bit 2 clear) the multi-shot queries
    degenerate, whatever the state of the prompt: [mp_resume_resume_count]
    returns 0 and [mp_resume_should_unwind] returns false, both without
    touching the state. *)
Theorem mp_resume_queries_once (h : Z) (s : state) :
  Z.land h 4 = 0 →
  mp_resume_resume_count h s = Done 0 s ∧
  mp_resume_should_unwind h s = Done false s.
Proof.
  intros Hh. unfold mp_resume_resume_count, mp_resume_should_unwind.
  rewrite (mp_resume_is_multi_once h Hh). simpl. split; reflexivity.
Qed.

Lemma mp_resume_queries_once_witness :
  Z.land 192 4 = 0 ∧
  mp_resume_resume_count 192 st_yielded = Done 0 st_yielded ∧
  mp_resume_should_unwind 192 st_yielded = Done false st_yielded.
Proof. split; [reflexivity | apply (mp_resume_queries_once 192 st_yielded); reflexivity]. Defined.

(** ** Link and unlink *)

Lemma mp_prompt_is_active_done s p pr :
  p ≠ NULL → prompts s !! p = Some pr →
  mp_prompt_is_active p s = Done (p_top pr =? NULL) s.
Proof.
  intros Hp Hl. unfold mp_prompt_is_active.
  destruct (p =? 0) eqn:E; [lia|].
  by rewrite (mbind_done _ _ _ _ _ (load_prompt_done _ _ _ Hl)).
Qed.

Lemma mp_prompt_is_active_true s s' p :
  mp_prompt_is_active p s = Done true s' →
  p ≠ NULL ∧ ∃ pr, prompts s !! p = Some pr ∧ p_top pr = NULL.
Proof.
  unfold mp_prompt_is_active. destruct (p =? 0) eqn:E; [discriminate|].
  unfold mbind', load_prompt. destruct (prompts s !! p) as [pr|]; [|discriminate].
  unfold mreturn. intros [= Ht _]. split; [lia|]. exists pr. split; [done|lia].
Qed.

Lemma mp_prompt_is_ancestor_top s s' fuel p :
  mp_prompt_is_ancestor fuel p s = Done true s' → _mp_prompt_top s ≠ NULL.
Proof.
  unfold mp_prompt_is_ancestor. destruct fuel as [|fuel]; [discriminate|].
  simpl. unfold mbind' at 1. simpl.
  destruct (_mp_prompt_top s =? 0) eqn:E; [discriminate|]. lia.
Qed.

(** C3: for an active prompt [p] that is an ancestor of the current top,
    [mp_prompt_unlink p res] sets [p->top] to the current top, the current
    top to [p->parent], [p->parent] to [NULL], stores [res] in
    [p->resume_point], leaves [p->return_point] (and every other field and
    every other prompt) as it was, and returns the stored
    [p->return_point].  The prompt ends suspended. *)
Theorem mp_prompt_unlink_spec (fuel : nat) (s : state) (p res : ptr) (pr : mp_prompt_s) :
  prompts s !! p = Some pr →
  mp_prompt_is_active p s = Done true s →
  mp_prompt_is_ancestor fuel p s = Done true s →
  ∃ s' pr',
    mp_prompt_unlink p res s = Done (p_return_point pr) s' ∧
    prompts s' !! p = Some pr' ∧
    p_top pr' = _mp_prompt_top s ∧
    _mp_prompt_top s' = p_parent pr ∧
    p_parent pr' = NULL ∧
    p_resume_point pr' = res ∧
    p_return_point pr' = p_return_point pr ∧
    p_refcount pr' = p_refcount pr ∧ p_gstack pr' = p_gstack pr ∧
    p_start_fun pr' = p_start_fun pr ∧ p_start_arg pr' = p_start_arg pr ∧
    p_unwind_frame pr' = p_unwind_frame pr ∧
    (∀ q, q ≠ p → prompts s' !! q = prompts s !! q) ∧
    trace s' = trace s ∧
    mp_prompt_is_active p s' = Done false s'.
Proof.
  intros Hp Hact Hanc.
  destruct (mp_prompt_is_active_true _ _ _ Hact) as (Hnz & pr0 & Hp0 & Htop0).
  pose proof (mp_prompt_is_ancestor_top _ _ _ _ Hanc) as Htop.
  eexists _, _. split; [apply mp_prompt_unlink_done, Hp|].
  split; [apply lookup_insert_eq|]. simpl.
  repeat (split; [reflexivity|]).
  split; [intros q Hq; by apply lookup_insert_ne|].
  split; [reflexivity|].
  erewrite mp_prompt_is_active_done; [|done|apply lookup_insert_eq]. simpl.
  destruct (_mp_prompt_top s =? 0) eqn:E; [lia|done].
Qed.

Lemma mp_prompt_unlink_spec_witness :
  prompts st_nested !! 64 = Some (mk_prompt NULL NULL 1 4096 1024 NULL) ∧
  mp_prompt_is_active 64 st_nested = Done true st_nested ∧
  mp_prompt_is_ancestor 4 64 st_nested = Done true st_nested ∧
  ∃ s' pr', mp_prompt_unlink 64 13000 st_nested = Done 1024 s' ∧
            prompts s' !! 64 = Some pr' ∧ p_top pr' = 192 ∧ _mp_prompt_top s' = NULL.
Proof.
  split; [reflexivity|]. split; [reflexivity|]. split; [reflexivity|].
  destruct (mp_prompt_unlink_spec 4 st_nested 64 13000
              (mk_prompt NULL NULL 1 4096 1024 NULL))
    as (s' & pr' & H1 & H2 & H3 & H4 & _); [reflexivity | reflexivity | reflexivity |].
  exists s', pr'. repeat split; assumption.
Defined.

(** C4: from any state in which [p] is a prompt, [mp_prompt_link p ret]
    followed by [mp_prompt_unlink p res] puts the thread's prompt top back
    to what it was before the link and leaves [p] with the chain head in
    [p->top] that it had before; between the two calls [p->top] is [NULL],
    and a [p] that was suspended before is suspended again. *)
Theorem link_unlink_restores (s : state) (p ret res : ptr) (pr : mp_prompt_s) :
  prompts s !! p = Some pr →
  ∃ rp s1 rt s2 pr1 pr2,
    mp_prompt_link p ret s = Done rp s1 ∧
    prompts s1 !! p = Some pr1 ∧ p_top pr1 = NULL ∧
    mp_prompt_unlink p res s1 = Done rt s2 ∧
    _mp_prompt_top s2 = _mp_prompt_top s ∧
    prompts s2 !! p = Some pr2 ∧
    p_top pr2 = p_top pr ∧
    p_parent pr2 = NULL ∧
    (∀ q, q ≠ p → prompts s2 !! q = prompts s !! q) ∧
    (mp_prompt_is_active p s = Done false s →
     mp_prompt_is_active p s2 = Done false s2).
Proof.
  intros Hp.
  eexists _, _, _, _, _, _.
  split; [apply mp_prompt_link_done, Hp|].
  split; [apply lookup_insert_eq|].
  split; [reflexivity|].
  split; [apply mp_prompt_unlink_done, lookup_insert_eq|].
  split; [reflexivity|].
  split; [apply lookup_insert_eq|].
  split; [reflexivity|].
  split; [reflexivity|].
  split.
  { intros q Hq. simpl. by rewrite !lookup_insert_ne. }
  unfold mp_prompt_is_active. destruct (p =? 0) eqn:E; [done|].
  rewrite (mbind_done _ _ _ _ _ (load_prompt_done _ _ _ Hp)).
  erewrite mbind_done; [|apply load_prompt_done, lookup_insert_eq].
  simpl. unfold mreturn. intros [= Ht]. by rewrite Ht.
Qed.

Lemma link_unlink_restores_witness :
  prompts st_yielded !! 64 = Some (mk_prompt NULL 192 1 4096 1024 13000) ∧
  ∃ rp s1 rt s2 pr2,
    mp_prompt_link 64 2048 st_yielded = Done rp s1 ∧
    mp_prompt_unlink 64 13000 s1 = Done rt s2 ∧
    _mp_prompt_top s2 = _mp_prompt_top st_yielded ∧
    prompts s2 !! 64 = Some pr2 ∧ p_top pr2 = 192.
Proof.
  split; [reflexivity|].
  destruct (link_unlink_restores st_yielded 64 2048 13000
              (mk_prompt NULL 192 1 4096 1024 13000))
    as (rp & s1 & rt & s2 & pr1 & pr2 & H1 & _ & _ & H2 & H3 & H4 & H5 & _);
    [reflexivity|].
  exists rp, s1, rt, s2, pr2. repeat split; assumption.
Defined.

(** ** Histories *)


Lemma mp_prompt_is_active_inv s s' p b :
  mp_prompt_is_active p s = Done b s' →
  s' = s ∧ (b = true → p ≠ NULL ∧ ∃ pr, prompts s !! p = Some pr ∧ p_top pr = NULL).
Proof.
  unfold mp_prompt_is_active. destruct (p =? 0) eqn:E.
  - unfold mreturn. intros [= <- <-]. split; [done|discriminate].
  - unfold mbind', load_prompt. destruct (prompts s !! p) as [pr|]; [|discriminate].
    unfold mreturn. intros [= Hb <-]. split; [done|]. intros ->.
    split; [lia|]. exists pr. split; [done|lia].
Qed.

Lemma mp_prompt_is_ancestor_loop_state fuel p q s b s' :
  mp_prompt_is_ancestor_loop fuel p q s = Done b s' → s' = s.
Proof.
  revert q. induction fuel as [|fuel IH]; intros q; [discriminate|].
  simpl. unfold mbind' at 1.
  destruct (mp_prompt_parent q s) as [q' s1| | |] eqn:Hq; try discriminate.
  assert (s1 = s) as ->.
  { revert Hq. unfold mp_prompt_parent. destruct (q =? 0).
    - unfold mp_prompt_top. by intros [= _ <-].
    - unfold mbind', load_prompt. destruct (prompts s !! q); [|discriminate].
      unfold mreturn. by intros [= _ <-]. }
  destruct (q' =? 0); [by intros [= _ <-]|].
  destruct (q' =? p); [by intros [= _ <-]|]. apply IH.
Qed.

(** What a completed step did. *)
Lemma step_inv o s s' :
  step o s = Done tt s' →
  match o with
  | OpCreate gstack p fn start_arg =>
      p ≠ NULL ∧ prompts s !! p = None ∧
      s' = with_prompts (insert p
             {| p_parent := NULL; p_top := p; p_refcount := 1; p_gstack := gstack;
                p_return_point := NULL; p_resume_point := NULL; p_start_fun := fn;
                p_start_arg := start_arg; p_unwind_frame := NULL |}) s
  | OpLink p ret =>
      ∃ pr, prompts s !! p = Some pr ∧ s' = link_state s p ret pr ∧
            (p = NULL ∨ p_top pr ≠ NULL)
  | OpUnlink p res =>
      ∃ pr, p ≠ NULL ∧ prompts s !! p = Some pr ∧ p_top pr = NULL ∧
            s' = unlink_state s p res pr ∧
            mp_prompt_is_ancestor (S (size (prompts s))) p s = Done true s
  end.
Proof.
  destruct o as [g p fn a | p ret | p res]; simpl.
  - unfold mbind' at 1. simpl.
    destruct (p =? 0) eqn:E; [discriminate|]. simpl.
    case_bool_decide as Hs; [discriminate|].
    unfold mp_prompt_create. destruct (g =? 0); [discriminate|].
    unfold mbind', mmodify, mreturn. intros [= <-].
    split; [lia|]. split; [|done].
    destruct (prompts s !! p) eqn:El; [|done]. exfalso. apply Hs. eauto.
  - unfold mbind' at 1.
    destruct (mp_prompt_is_active p s) as [b s1| | |] eqn:Ha; try discriminate.
    destruct (mp_prompt_is_active_inv _ _ _ _ Ha) as [-> _].
    destruct b; [discriminate|].
    unfold mbind' at 1.
    destruct (mp_prompt_link p ret s) as [r s1| | |] eqn:Hl; try discriminate.
    unfold mreturn. intros [= <-].
    destruct (prompts s !! p) as [pr|] eqn:Hp.
    + rewrite (mp_prompt_link_done _ _ _ _ Hp) in Hl. injection Hl as _ <-.
      exists pr. split; [done|]. split; [done|].
      destruct (decide (p = NULL)) as [?|Hnz]; [by left|]. right.
      rewrite (mp_prompt_is_active_done _ _ _ Hnz Hp) in Ha.
      injection Ha as Ha. lia.
    + revert Hl. unfold mp_prompt_link. unfold mbind' at 1. simpl.
      unfold mbind' at 1. unfold store_prompt. by rewrite Hp.
  - unfold mbind' at 1. simpl. unfold mbind' at 1.
    destruct (mp_prompt_is_active p s) as [a s1| | |] eqn:Ha; try discriminate.
    destruct (mp_prompt_is_active_inv _ _ _ _ Ha) as [-> Hact].
    unfold mbind' at 1.
    destruct (mp_prompt_is_ancestor _ p s) as [b s1| | |] eqn:Hb; try discriminate.
    pose proof (mp_prompt_is_ancestor_loop_state _ _ _ _ _ _ Hb) as ->.
    destruct a; simpl; [|discriminate]. destruct b; [|discriminate].
    destruct (Hact eq_refl) as (Hnz & pr & Hp & Ht).
    unfold mbind'. rewrite (mp_prompt_unlink_done _ _ _ _ Hp).
    unfold mreturn. intros [= <-]. exists pr. by repeat split.
Qed.

Lemma run_cons_inv o ops s s' :
  run (o :: ops) s = Done tt s' →
  ∃ s1, step o s = Done tt s1 ∧ run ops s1 = Done tt s'.
Proof.
  simpl. unfold mbind'. destruct (step o s) as [[] s1| | |]; try discriminate. eauto.
Qed.







(** ** Chains *)

Lemma chain_det h x l1 l2 : chain h x l1 → chain h x l2 → l1 = l2.
Proof.
  intros H1. revert l2. induction H1 as [|x pr l Hx Hl _ IH]; intros l2 H2.
  - inversion H2; [done | congruence].
  - inversion H2 as [|x' pr' l' Hx' Hl' Hc']; subst; [done|].
    rewrite Hl in Hl'. injection Hl' as <-. f_equal. by apply IH.
Qed.

Lemma chain_elem h x l q :
  chain h x l → q ∈ l → q ≠ NULL ∧ is_Some (h !! q).
Proof.
  induction 1 as [|x pr l Hx Hl _ IH]; intros Hq.
  - by apply elem_of_nil in Hq.
  - apply elem_of_cons in Hq as [->|Hq]; [eauto | by apply IH].
Qed.

Lemma chain_head h x l1 q l2 : chain h x (l1 ++ q :: l2) → chain h q (q :: l2).
Proof.
  revert x. induction l1 as [|a l1 IH]; intros x H; simpl in H.
  - inversion H; subst. econstructor; eauto.
  - inversion H; subst. eauto.
Qed.

Lemma chain_NoDup h x l : chain h x l → NoDup l.
Proof.
  induction 1 as [|x pr l Hx Hl Hc IH]; [constructor|].
  apply NoDup_cons. split; [|done].
  intros Hin. apply list_elem_of_split in Hin as (l1 & l2 & ->).
  pose proof (chain_head _ _ _ _ _ Hc) as Hq.
  assert (chain h x (x :: l1 ++ x :: l2)) as Hfull by (econstructor; eauto).
  pose proof (chain_det _ _ _ _ Hq Hfull) as Heq.
  apply (f_equal length) in Heq. simpl in Heq. rewrite length_app in Heq.
  simpl in Heq. lia.
Qed.

Lemma chain_insert_notin h p v x l :
  p ∉ l → chain h x l → chain (<[p:=v]> h) x l.
Proof.
  intros Hp. induction 1 as [|x pr l Hx Hl _ IH]; [constructor|].
  apply not_elem_of_cons in Hp as [Hne Hp].
  econstructor; [done | by rewrite lookup_insert_ne | by apply IH].
Qed.

(** After [link]: the captured sub-chain [l1 ++ [p]] is put in front of
    the former current chain [l]. *)
Lemma chain_splice h p v x l1 l :
  chain h x (l1 ++ [p]) → p ∉ l1 → p ∉ l →
  chain h (p_parent v) l →
  chain (<[p:=v]> h) x (l1 ++ p :: l).
Proof.
  intros Hc Hp1 Hpl Hl. revert x Hc.
  induction l1 as [|a l1 IH]; intros x Hc; simpl in *.
  - inversion Hc; subst.
    econstructor; [done | apply lookup_insert_eq | by apply chain_insert_notin].
  - apply not_elem_of_cons in Hp1 as [Hne Hp1].
    inversion Hc; subst.
    econstructor; [done | by rewrite lookup_insert_ne | by apply IH].
Qed.

(** After [unlink]: the current chain is cut below [p]. *)
Lemma chain_cut h p v x l1 l2 :
  chain h x (l1 ++ p :: l2) → p ∉ l1 → p_parent v = NULL →
  chain (<[p:=v]> h) x (l1 ++ [p]).
Proof.
  intros Hc Hp1 Hv. revert x Hc.
  induction l1 as [|a l1 IH]; intros x Hc; simpl in *.
  - inversion Hc; subst.
    econstructor; [done | apply lookup_insert_eq |]. rewrite Hv. constructor.
  - apply not_elem_of_cons in Hp1 as [Hne Hp1].
    inversion Hc; subst.
    econstructor; [done | by rewrite lookup_insert_ne | by apply IH].
Qed.


Lemma same_shape_refl h : same_shape h h.
Proof. by intros x. Qed.

Lemma same_shape_sym h h' : same_shape h h' → same_shape h' h.
Proof. intros H x. by rewrite H. Qed.

Lemma same_shape_trans h1 h2 h3 : same_shape h1 h2 → same_shape h2 h3 → same_shape h1 h3.
Proof. intros H1 H2 x. by rewrite H1. Qed.

Lemma same_shape_lookup h h' x pr :
  same_shape h h' → h !! x = Some pr →
  ∃ pr', h' !! x = Some pr' ∧ p_parent pr' = p_parent pr ∧ p_top pr' = p_top pr.
Proof.
  intros H Hx. specialize (H x). rewrite Hx in H. simpl in H.
  destruct (h' !! x) as [pr'|]; [|done]. injection H as H1 H2. eauto.
Qed.

Lemma same_shape_insert h p pr v :
  h !! p = Some pr → shape v = shape pr → same_shape h (<[p:=v]> h).
Proof.
  intros Hp Hv x. destruct (decide (x = p)) as [->|Hne].
  - rewrite lookup_insert_eq, Hp. simpl. by rewrite Hv.
  - by rewrite lookup_insert_ne.
Qed.

Lemma chain_same_shape h h' x l : same_shape h h' → chain h x l → chain h' x l.
Proof.
  intros Hs. induction 1 as [|x pr l Hx Hl _ IH]; [constructor|].
  destruct (same_shape_lookup _ _ _ _ Hs Hl) as (pr' & Hl' & Hpar & _).
  econstructor; [done | exact Hl' | by rewrite Hpar].
Qed.

Lemma prompt_chain_inv_same_shape s s' :
  same_shape (prompts s) (prompts s') → _mp_prompt_top s' = _mp_prompt_top s →
  prompt_chain_inv s → prompt_chain_inv s'.
Proof.
  intros Hs Ht [Hnull [l Hl] Hact Hsus].
  pose proof (same_shape_sym _ _ Hs) as Hs'.
  split.
  - specialize (Hs NULL). rewrite Hnull in Hs. simpl in Hs.
    by destruct (prompts s' !! NULL).
  - exists l. rewrite Ht. by eapply chain_same_shape.
  - intros p pr' (l' & Hl' & Hin) Hp.
    destruct (same_shape_lookup _ _ _ _ Hs' Hp) as (pr & Hpr & _ & Htop).
    rewrite <- Htop. eapply Hact; [|exact Hpr].
    exists l'. split; [|done]. rewrite <- Ht. by eapply chain_same_shape.
  - intros p pr' Hp Hnz.
    destruct (same_shape_lookup _ _ _ _ Hs' Hp) as (pr & Hpr & Hpar & Htop).
    rewrite <- Htop in Hnz.
    destruct (Hsus p pr Hpr Hnz) as (Hpar0 & l' & Hl' & Hall).
    split; [congruence|]. exists l'. split.
    + rewrite <- Htop. by eapply chain_same_shape.
    + intros q qr' Hq Hqr'.
      destruct (same_shape_lookup _ _ _ _ Hs' Hqr') as (qr & Hqr & _ & Hqt).
      rewrite <- Hqt. by eapply Hall.
Qed.

(** ** The ancestor walk and the current chain

    [mp_prompt_is_ancestor] answers membership of the current chain: a
    positive answer is sound for any budget, and a budget above the length
    of the chain always gives the answer. *)

Lemma mp_prompt_parent_done s q pr :
  q ≠ NULL → prompts s !! q = Some pr → mp_prompt_parent q s = Done (p_parent pr) s.
Proof.
  intros Hq Hl. unfold mp_prompt_parent. destruct (q =? 0) eqn:E; [lia|].
  by rewrite (mbind_done _ _ _ _ _ (load_prompt_done _ _ _ Hl)).
Qed.

Lemma mp_prompt_is_ancestor_loop_sound s s' p fuel :
  ∀ q x l,
    mp_prompt_parent q s = Done x s → chain (prompts s) x l →
    mp_prompt_is_ancestor_loop fuel p q s = Done true s' → p ∈ l.
Proof.
  induction fuel as [|fuel IH]; intros q x l Hq Hc; [discriminate|].
  simpl. rewrite (mbind_done _ _ _ _ _ Hq).
  destruct (x =? 0) eqn:E0; [discriminate|].
  inversion Hc as [|x' xr l' Hx Hl Hc']; subst; [lia|].
  destruct (x =? p) eqn:Ep.
  - intros _. assert (x = p) as -> by lia. by left.
  - intros H. right. eapply (IH x); [by apply mp_prompt_parent_done | exact Hc' | exact H].
Qed.

Lemma mp_prompt_is_ancestor_loop_complete s p l :
  ∀ fuel q x,
    mp_prompt_parent q s = Done x s → chain (prompts s) x l →
    (length l < fuel)%nat →
    mp_prompt_is_ancestor_loop fuel p q s = Done (bool_decide (p ∈ l)) s.
Proof.
  induction l as [|a l IH]; intros fuel q x Hq Hc Hf.
  - destruct fuel as [|fuel]; [simpl in Hf; lia|].
    inversion Hc; subst. cbn [mp_prompt_is_ancestor_loop].
    rewrite (mbind_done _ _ _ _ _ Hq). rewrite Z.eqb_refl.
    reflexivity.
  - destruct fuel as [|fuel]; [simpl in Hf; lia|].
    inversion Hc as [|x' xr l' Hx Hl Hc']; subst.
    cbn [mp_prompt_is_ancestor_loop]. rewrite (mbind_done _ _ _ _ _ Hq).
    destruct (a =? 0) eqn:E0; [lia|].
    destruct (a =? p) eqn:Ep.
    + assert (a = p) as -> by lia.
      unfold mreturn. f_equal. symmetry. apply bool_decide_eq_true_2. by left.
    + rewrite (IH fuel a (p_parent xr)); [| by apply mp_prompt_parent_done | done
                                          | simpl in Hf; lia].
      f_equal. apply bool_decide_ext.
      rewrite elem_of_cons. split; [tauto|]. intros [->|?]; [lia|done].
Qed.

Lemma mp_prompt_is_ancestor_on_chain s s' fuel p :
  prompt_chain_inv s →
  mp_prompt_is_ancestor fuel p s = Done true s' → on_chain s p.
Proof.
  intros [_ [l Hl] _ _] H. exists l. split; [done|].
  eapply mp_prompt_is_ancestor_loop_sound; [|exact Hl|exact H]. reflexivity.
Qed.

(** ** The operations preserve the invariant *)

Lemma prompt_chain_inv_link s p ret pr :
  prompt_chain_inv s → prompts s !! p = Some pr → p_top pr ≠ NULL →
  prompt_chain_inv (link_state s p ret pr) ∧ on_chain (link_state s p ret pr) p.
Proof.
  intros [Hnull [l Hl] Hact Hsus] Hp Htop.
  destruct (Hsus p pr Hp Htop) as (Hpar & l1 & Hl1 & Hall).
  assert (p ≠ NULL) as Hpnz by (intros ->; congruence).
  assert (p ∉ l) as Hpl.
  { intros Hin. apply Htop. eapply Hact; [|exact Hp]. by exists l. }
  assert (p ∉ l1) as Hpl1.
  { intros Hin. apply Htop. eapply Hall; [exact Hin|exact Hp]. }
  set (v := {| p_parent := _mp_prompt_top s; p_top := NULL;
               p_refcount := p_refcount pr; p_gstack := p_gstack pr;
               p_return_point := if ret =? NULL then p_return_point pr else ret;
               p_resume_point := p_resume_point pr;
               p_start_fun := p_start_fun pr; p_start_arg := p_start_arg pr;
               p_unwind_frame := p_unwind_frame pr |}).
  assert (chain (<[p:=v]> (prompts s)) (p_top pr) (l1 ++ p :: l)) as Hnew.
  { by apply chain_splice. }
  assert (on_chain (link_state s p ret pr) p) as Hon.
  { exists (l1 ++ p :: l). split; [exact Hnew|].
    apply elem_of_app. right. by left. }
  split; [|exact Hon]. split.
  - simpl. by rewrite lookup_insert_ne.
  - by exists (l1 ++ p :: l).
  - intros x xr (l' & Hl' & Hin). simpl in Hl'. simpl.
    rewrite (chain_det _ _ _ _ Hl' Hnew) in Hin.
    destruct (decide (x = p)) as [->|Hne].
    + rewrite lookup_insert_eq. by intros [= <-].
    + rewrite lookup_insert_ne by done. intros Hx.
      apply elem_of_app in Hin as [Hin|Hin]; [by eapply Hall|].
      apply elem_of_cons in Hin as [?|Hin]; [done|].
      eapply Hact; [|exact Hx]. by exists l.
  - intros q qr. simpl. destruct (decide (q = p)) as [->|Hne].
    + rewrite lookup_insert_eq. by intros [= <-].
    + rewrite lookup_insert_ne by done. intros Hq Hqt.
      destruct (Hsus q qr Hq Hqt) as (Hqpar & lq & Hlq & Hqall).
      split; [done|]. exists lq.
      assert (p ∉ lq) as Hplq.
      { intros Hin. apply Htop. eapply Hqall; [exact Hin|exact Hp]. }
      split.
      * apply chain_insert_notin; [|done].
        apply not_elem_of_app. split; [done|].
        rewrite list_elem_of_singleton. congruence.
      * intros x xr Hx. destruct (decide (x = p)) as [->|Hxp]; [done|].
        rewrite lookup_insert_ne by done. by apply Hqall.
Qed.

Lemma prompt_chain_inv_unlink s p res pr :
  prompt_chain_inv s → prompts s !! p = Some pr → on_chain s p →
  prompt_chain_inv (unlink_state s p res pr) ∧
  ¬ on_chain (unlink_state s p res pr) p ∧
  _mp_prompt_top s ≠ NULL.
Proof.
  intros [Hnull [l0 Hl0] Hact Hsus] Hp (l & Hl & Hin).
  assert (p ≠ NULL) as Hpnz by (intros ->; congruence).
  pose proof (chain_NoDup _ _ _ Hl) as Hnd.
  assert (_mp_prompt_top s ≠ NULL) as Hnz.
  { inversion Hl; subst; [by apply elem_of_nil in Hin | done]. }
  apply list_elem_of_split_l in Hin as (l1 & l2 & -> & Hpl1).
  assert (p ∉ l2) as Hpl2.
  { apply NoDup_app in Hnd as (_ & _ & Hnd). by apply NoDup_cons in Hnd as [? _]. }
  pose proof (chain_head _ _ _ _ _ Hl) as Hpc.
  assert (chain (prompts s) (p_parent pr) l2) as Hl2.
  { inversion Hpc as [|x xr l' Hx Hxl Hc']; subst. congruence. }
  set (v := {| p_parent := NULL; p_top := _mp_prompt_top s;
               p_refcount := p_refcount pr; p_gstack := p_gstack pr;
               p_return_point := p_return_point pr; p_resume_point := res;
               p_start_fun := p_start_fun pr; p_start_arg := p_start_arg pr;
               p_unwind_frame := p_unwind_frame pr |}).
  assert (chain (<[p:=v]> (prompts s)) (p_parent pr) l2) as Hnew.
  { by apply chain_insert_notin. }
  assert (∀ x, x ∈ l2 → on_chain s x) as Hon2.
  { intros x Hx. exists (l1 ++ p :: l2). split; [done|].
    apply elem_of_app. right. by right. }
  assert (∀ x, x ∈ l1 → on_chain s x) as Hon1.
  { intros x Hx. exists (l1 ++ p :: l2). split; [done|].
    apply elem_of_app. by left. }
  split; [|split; [|exact Hnz]].
  - split.
    + simpl. by rewrite lookup_insert_ne.
    + by exists l2.
    + intros x xr (l' & Hl' & Hx). simpl in Hl'. simpl.
      rewrite (chain_det _ _ _ _ Hl' Hnew) in Hx.
      destruct (decide (x = p)) as [->|Hne]; [done|].
      rewrite lookup_insert_ne by done. intros Hxr.
      eapply Hact; [|exact Hxr]. by apply Hon2.
    + intros q qr. simpl. destruct (decide (q = p)) as [->|Hne].
      * rewrite lookup_insert_eq. intros [= <-] _. simpl.
        split; [done|]. exists l1. split.
        -- by eapply chain_cut.
        -- intros x xr Hx. destruct (decide (x = p)) as [->|Hxp]; [done|].
           rewrite lookup_insert_ne by done. intros Hxr.
           eapply Hact; [|exact Hxr]. by apply Hon1.
      * rewrite lookup_insert_ne by done. intros Hq Hqt.
        destruct (Hsus q qr Hq Hqt) as (Hqpar & lq & Hlq & Hqall).
        split; [done|]. exists lq.
        assert (p ∉ lq) as Hplq.
        { intros Hpin. apply list_elem_of_split in Hpin as (a & b & ->).
          rewrite <- app_assoc in Hlq. simpl in Hlq.
          pose proof (chain_head _ _ _ _ _ Hlq) as Hpq.
          pose proof (chain_det _ _ _ _ Hpc Hpq) as Heq.
          injection Heq as Heq. apply Hqt. eapply Hact; [|exact Hq].
          apply Hon2. rewrite Heq. apply elem_of_app. right. by left. }
        split.
        -- apply chain_insert_notin; [|done].
           apply not_elem_of_app. split; [done|].
           rewrite list_elem_of_singleton. congruence.
        -- intros x xr Hx. destruct (decide (x = p)) as [->|Hxp]; [done|].
           rewrite lookup_insert_ne by done. by apply Hqall.
  - intros (l' & Hl' & Hx). simpl in Hl'.
    rewrite (chain_det _ _ _ _ Hl' Hnew) in Hx. done.
Qed.

Lemma prompt_chain_inv_create s gstack p fn start_arg :
  prompt_chain_inv s → p ≠ NULL → prompts s !! p = None →
  prompt_chain_inv (with_prompts (insert p
     {| p_parent := NULL; p_top := p; p_refcount := 1; p_gstack := gstack;
        p_return_point := NULL; p_resume_point := NULL; p_start_fun := fn;
        p_start_arg := start_arg; p_unwind_frame := NULL |}) s).
Proof.
  intros [Hnull [l Hl] Hact Hsus] Hnz Hfresh.
  assert (∀ x k, chain (prompts s) x k → p ∉ k) as Hnotin.
  { intros x k Hk Hin. destruct (chain_elem _ _ _ _ Hk Hin) as [_ [? ?]]. congruence. }
  split; simpl.
  - by rewrite lookup_insert_ne.
  - exists l. apply chain_insert_notin; eauto.
  - intros x xr (l' & Hl' & Hx). simpl in Hl'.
    rewrite (chain_det _ _ _ _ Hl'
               (chain_insert_notin _ _ _ _ _ (Hnotin _ _ Hl) Hl)) in Hx.
    destruct (decide (x = p)) as [->|Hne]; [by apply Hnotin in Hl|].
    rewrite lookup_insert_ne by done. intros Hxr.
    eapply Hact; [|exact Hxr]. by exists l.
  - intros q qr. destruct (decide (q = p)) as [->|Hne].
    + rewrite lookup_insert_eq. intros [= <-] _. simpl. split; [done|].
      exists []. split; [|intros x xr Hx; by apply elem_of_nil in Hx].
      simpl. econstructor; [done | apply lookup_insert_eq | constructor].
    + rewrite lookup_insert_ne by done. intros Hq Hqt.
      destruct (Hsus q qr Hq Hqt) as (Hqpar & lq & Hlq & Hqall).
      split; [done|]. exists lq. split.
      * apply chain_insert_notin; eauto.
      * intros x xr Hx. destruct (decide (x = p)) as [->|Hxp].
        -- exfalso. eapply Hnotin; [exact Hlq|]. apply elem_of_app. by left.
        -- rewrite lookup_insert_ne by done. by apply Hqall.
Qed.

(** [mp_prompt_free] writes reference counts only. *)
Lemma mp_prompt_free_loop_shape delay fuel :
  ∀ x s s',
    mp_prompt_free_loop fuel x delay s = Done tt s' →
    same_shape (prompts s) (prompts s') ∧ _mp_prompt_top s' = _mp_prompt_top s.
Proof.
  induction fuel as [|fuel IH]; intros x s s'; cbn [mp_prompt_free_loop].
  - destruct (x =? 0); [|discriminate]. intros [= <-]. split; [apply same_shape_refl|done].
  - destruct (x =? 0); [intros [= <-]; split; [apply same_shape_refl|done]|].
    unfold mbind' at 1. unfold load_prompt.
    destruct (prompts s !! x) as [xr|] eqn:Hx; [|discriminate].
    unfold mp_gstack_free. rewrite (mbind_done (emit _) _ _ tt _ eq_refl).
    destruct (p_parent xr =? 0) eqn:Epar.
    + rewrite (mbind_done (mreturn tt) _ _ tt _ eq_refl). intros H.
      apply IH in H as [H1 H2]. split; [exact H1 | exact H2].
    + unfold mbind' at 1. unfold mbind' at 1. unfold load_prompt. simpl.
      destruct (prompts s !! p_parent xr) as [ppr|] eqn:Hpar; [|discriminate].
      unfold store_prompt. simpl. rewrite Hpar. intros H.
      apply IH in H as [H1 H2]. simpl in *. split; [|exact H2].
      eapply same_shape_trans; [|exact H1].
      by eapply same_shape_insert.
Qed.

Lemma mp_prompt_free_shape delay fuel p s s' :
  mp_prompt_free fuel p delay s = Done tt s' →
  same_shape (prompts s) (prompts s') ∧ _mp_prompt_top s' = _mp_prompt_top s.
Proof.
  unfold mp_prompt_free, mbind', load_prompt.
  destruct (prompts s !! p); [|discriminate]. apply mp_prompt_free_loop_shape.
Qed.

(** On a chain of [length l] prompts the loop of [mp_prompt_free] ends
    within that many iterations. *)
Lemma mp_prompt_free_loop_done delay l :
  ∀ fuel x s,
    chain (prompts s) x l → (length l ≤ fuel)%nat →
    ∃ s', mp_prompt_free_loop fuel x delay s = Done tt s'.
Proof.
  induction l as [|a l IH]; intros fuel x s Hc Hf.
  - inversion Hc; subst. destruct fuel; simpl; eauto.
  - inversion Hc as [|x' xr l' Hx Hl Hc']; subst.
    destruct fuel as [|fuel]; [simpl in Hf; lia|].
    cbn [mp_prompt_free_loop]. destruct (a =? 0) eqn:E; [lia|].
    rewrite (mbind_done _ _ _ _ _ (load_prompt_done _ _ _ Hl)).
    unfold mp_gstack_free. rewrite (mbind_done (emit _) _ _ tt _ eq_refl).
    destruct (p_parent xr =? 0) eqn:Epar.
    + rewrite (mbind_done (mreturn tt) _ _ tt _ eq_refl).
      apply IH; [exact Hc' | simpl in Hf; lia].
    + inversion Hc' as [|y yr l'' Hy Hyl Hc'']; subst; [lia|].
      unfold mbind' at 1. unfold mbind' at 1. unfold load_prompt. simpl.
      rewrite Hyl. unfold store_prompt. simpl. rewrite Hyl.
      apply IH; [|simpl in Hf; simpl; lia]. simpl.
      eapply chain_same_shape; [|exact Hc'].
      by eapply same_shape_insert.
Qed.

Lemma prompt_chain_inv_empty : prompt_chain_inv empty_state.
Proof.
  split; simpl.
  - apply lookup_empty.
  - exists []. constructor.
  - intros p pr _. by rewrite lookup_empty.
  - intros p pr. by rewrite lookup_empty.
Qed.

(** Every history of guarded operations keeps the invariant. *)
Lemma run_prompt_chain_inv ops :
  ∀ s s', prompt_chain_inv s → run ops s = Done tt s' → prompt_chain_inv s'.
Proof.
  induction ops as [|o ops IH]; intros s s' Hinv Hrun.
  - by injection Hrun as <-.
  - apply run_cons_inv in Hrun as (s1 & Hstep & Hrun).
    apply step_inv in Hstep. eapply IH; [|exact Hrun].
    destruct o as [g p fn a | p ret | p res].
    + destruct Hstep as (Hnz & Hfresh & ->). by apply prompt_chain_inv_create.
    + destruct Hstep as (pr & Hp & -> & Hsus).
      apply prompt_chain_inv_link; [done | done |].
      destruct Hsus as [->|?]; [|done].
      destruct Hinv as [Hnull _ _ _]. congruence.
    + destruct Hstep as (pr & Hnz & Hp & Htop & -> & Hanc).
      apply prompt_chain_inv_unlink; [done | done |].
      by eapply mp_prompt_is_ancestor_on_chain.
Qed.

Lemma chain_st_nested : chain (prompts st_nested) 192 [192; 128; 64].
Proof.
  econstructor; [done | reflexivity |]. simpl.
  econstructor; [done | reflexivity |]. simpl.
  econstructor; [done | reflexivity |]. simpl. constructor.
Qed.

(** C1, as stated, fails: in [st_nested] every prompt is on the current
    chain and has a null [top]; C yields to A, so A is unlinked with its
    preconditions met; in the state reached, B and C are no longer on the
    current chain and their [top] is still null. *)
Lemma active_iff_top_null_fails :
  (∃ s, run nested_history empty_state = Done tt s ∧
        prompts s = prompts st_nested ∧ _mp_prompt_top s = _mp_prompt_top st_nested) ∧
  active_iff_top_null st_nested ∧
  mp_prompt_is_active 64 st_nested = Done true st_nested ∧
  mp_prompt_is_ancestor 4 64 st_nested = Done true st_nested ∧
  mp_prompt_unlink 64 13000 st_nested = Done 1024 st_yielded ∧
  prompts st_yielded !! 128 = Some (mk_prompt 64 NULL 1 8192 1040 NULL) ∧
  ¬ on_chain st_yielded 128 ∧
  ¬ active_iff_top_null st_yielded.
Proof.
  assert (¬ on_chain st_yielded 128) as Hoff.
  { intros (l & Hl & Hin). simpl in Hl. inversion Hl; subst; [|done].
    by apply elem_of_nil in Hin. }
  split.
  { eexists. split; [vm_compute; reflexivity|]. split; reflexivity. }
  split.
  { intros p pr Hp. simpl in Hp.
    assert (p_top pr = NULL ∧ p ∈ [192; 128; 64]) as [Ht Hin].
    { apply lookup_insert_Some in Hp as [[<- <-]|[_ Hp]];
        [split; [done | set_solver]|].
      apply lookup_insert_Some in Hp as [[<- <-]|[_ Hp]];
        [split; [done | set_solver]|].
      apply lookup_insert_Some in Hp as [[<- <-]|[_ Hp]];
        [split; [done | set_solver]|].
      by rewrite lookup_empty in Hp. }
    split; [done|]. intros _. exists [192; 128; 64]. split; [apply chain_st_nested|done]. }
  split; [reflexivity|].
  split; [reflexivity|].
  split; [reflexivity|].
  split; [reflexivity|].
  split; [exact Hoff|].
  intros H. apply Hoff.
  apply (H 128 (mk_prompt 64 NULL 1 8192 1040 NULL)); reflexivity.
Qed.

(** C1 (amended): between operations the thread has exactly one current
    chain; every prompt on it has a null [top], so a prompt with a non-null
    [top] (a suspended one) is off the chain, has a null [parent] and is
    the root of the sub-chain that starts at its [top], whose other
    members keep a null [top].  [mp_prompt_link], [mp_prompt_unlink],
    [mp_prompt_create] and [mp_prompt_free] preserve this: link puts a
    suspended prompt on the chain with a null [top], unlink takes an
    ancestor of the current top off the chain with a non-null [top],
    create adds a suspended prompt, and free (which ends on every
    suspended prompt) changes no [top], no [parent] and not the current
    top.  Hence the invariant holds after every history of create, link
    and unlink operations that meet the assertions of the source. *)
Theorem prompt_chain_inv_preserved (s : state) :
  prompt_chain_inv s →
  (∃ l, chain (prompts s) (_mp_prompt_top s) l ∧
        ∀ l', chain (prompts s) (_mp_prompt_top s) l' → l' = l) ∧
  (∀ p pr, prompts s !! p = Some pr →
     (on_chain s p → p_top pr = NULL) ∧ (p_top pr ≠ NULL → ¬ on_chain s p)) ∧
  (∀ p ret pr, prompts s !! p = Some pr → p_top pr ≠ NULL →
     ∃ r s' pr', mp_prompt_link p ret s = Done r s' ∧ prompt_chain_inv s' ∧
                 on_chain s' p ∧ prompts s' !! p = Some pr' ∧ p_top pr' = NULL) ∧
  (∀ fuel p res pr, prompts s !! p = Some pr → p_top pr = NULL →
     mp_prompt_is_ancestor fuel p s = Done true s →
     ∃ r s' pr', mp_prompt_unlink p res s = Done r s' ∧ prompt_chain_inv s' ∧
                 ¬ on_chain s' p ∧ prompts s' !! p = Some pr' ∧ p_top pr' ≠ NULL) ∧
  (∀ gstack p fn start_arg, gstack ≠ NULL → p ≠ NULL → prompts s !! p = None →
     ∃ s' pr', mp_prompt_create gstack p fn start_arg s = Done (mp_resume_once p) s' ∧
               prompt_chain_inv s' ∧ ¬ on_chain s' p ∧
               prompts s' !! p = Some pr' ∧ p_top pr' = p) ∧
  (∀ p pr delay, prompts s !! p = Some pr → p_top pr ≠ NULL →
     ∃ fuel s', mp_prompt_free fuel p delay s = Done tt s') ∧
  (∀ fuel p delay s', mp_prompt_free fuel p delay s = Done tt s' →
     prompt_chain_inv s' ∧ same_shape (prompts s) (prompts s') ∧
     _mp_prompt_top s' = _mp_prompt_top s) ∧
  (∀ ops s', run ops s = Done tt s' → prompt_chain_inv s').
Proof.
  intros Hinv. pose proof Hinv as [Hnull [l Hl] Hact Hsus].
  split. { exists l. split; [done|]. intros l' Hl'. by eapply chain_det. }
  split. { intros p pr Hp. split; [intros Hon; by eapply Hact|].
           intros Hnz Hon. apply Hnz. by eapply Hact. }
  split.
  { intros p ret pr Hp Hnz.
    destruct (prompt_chain_inv_link s p ret pr Hinv Hp Hnz) as [Hinv' Hon].
    eexists _, _, _. split; [by apply mp_prompt_link_done|].
    split; [exact Hinv'|]. split; [exact Hon|].
    split; [apply lookup_insert_eq|done]. }
  split.
  { intros fuel p res pr Hp Htop Hanc.
    pose proof (mp_prompt_is_ancestor_on_chain _ _ _ _ Hinv Hanc) as Hon.
    destruct (prompt_chain_inv_unlink s p res pr Hinv Hp Hon) as (Hinv' & Hoff & Hnz).
    eexists _, _, _. split; [by apply mp_prompt_unlink_done|].
    split; [exact Hinv'|]. split; [exact Hoff|].
    split; [apply lookup_insert_eq|done]. }
  split.
  { intros gstack p fn start_arg Hg Hp Hfresh.
    pose proof (prompt_chain_inv_create s gstack p fn start_arg Hinv Hp Hfresh) as Hinv'.
    eexists _, _. split.
    { unfold mp_prompt_create. destruct (gstack =? 0) eqn:E; [lia|]. reflexivity. }
    split; [exact Hinv'|]. split.
    - intros Hon. pose proof Hinv' as [_ _ Hact' _].
      specialize (Hact' p _ Hon (lookup_insert_eq _ _ _)). simpl in Hact'. done.
    - split; [apply lookup_insert_eq|done]. }
  split.
  { intros p pr delay Hp Hnz.
    destruct (Hsus p pr Hp Hnz) as (_ & l1 & Hl1 & _).
    destruct (mp_prompt_free_loop_done delay _ (length (l1 ++ [p])) _ s Hl1 (le_n _))
      as [s' Hs'].
    exists (length (l1 ++ [p])), s'. unfold mp_prompt_free.
    by rewrite (mbind_done _ _ _ _ _ (load_prompt_done _ _ _ Hp)). }
  split.
  { intros fuel p delay s' Hfree.
    destruct (mp_prompt_free_shape _ _ _ _ _ Hfree) as [Hsh Ht].
    split; [by eapply prompt_chain_inv_same_shape|]. by split. }
  intros ops s' Hrun. by eapply run_prompt_chain_inv.
Qed.

Lemma prompt_chain_inv_preserved_witness :
  prompt_chain_inv empty_state ∧
  (∃ s' pr', mp_prompt_create 4096 64 8 0 empty_state = Done (mp_resume_once 64) s' ∧
             prompt_chain_inv s' ∧ ¬ on_chain s' 64 ∧
             prompts s' !! 64 = Some pr' ∧ p_top pr' = 64) ∧
  prompt_chain_inv st_returned.
Proof.
  assert (prompt_chain_inv empty_state) as H.
  { split; simpl.
    - apply lookup_empty.
    - exists []. constructor.
    - intros p pr _. rewrite lookup_empty. discriminate.
    - intros p pr. rewrite lookup_empty. discriminate. }
  split; [exact H|].
  destruct (prompt_chain_inv_preserved empty_state H)
    as (_ & _ & _ & _ & Hc & _ & _ & Hrun).
  split; [apply (Hc 4096 64 8 0); [lia | lia | reflexivity]|].
  apply (Hrun returned_history). vm_compute. reflexivity.
Defined.

(** ** Saving and restoring a suspended chain *)

Lemma save_list_det h a l1 l2 : save_list h a l1 → save_list h a l2 → l1 = l2.
Proof.
  intros H1. revert l2. induction H1 as [|a n l Ha Hl _ IH]; intros l2 H2.
  - inversion H2; [done | congruence].
  - inversion H2 as [|a' n' l' Ha' Hl' Hc']; subst; [done|].
    rewrite Hl in Hl'. injection Hl' as <-. f_equal. by apply IH.
Qed.

Lemma save_list_insert_fresh h a n sv l :
  h !! a = None → save_list h sv l → save_list (<[a:=n]> h) sv l.
Proof.
  intros Hf. induction 1 as [|x m l Hx Hl _ IH]; [constructor|].
  econstructor; [done | | exact IH].
  rewrite lookup_insert_ne; [done | congruence].
Qed.

Lemma mp_prompt_restore_loop_spec nodes :
  ∀ fuel sv s,
    save_list (saves s) sv nodes → nodes ≠ [] → (length nodes ≤ fuel)%nat →
    ∃ s', mp_prompt_restore_loop fuel sv s = Done tt s' ∧
          trace s' = trace s ++ map (λ n, EvGsaveRestore (s_gsave n)) nodes ∧
          prompts s' = prompts s ∧ saves s' = saves s ∧ mresumes s' = mresumes s ∧
          return_points s' = return_points s ∧ resume_points s' = resume_points s ∧
          _mp_prompt_top s' = _mp_prompt_top s ∧ heap_next s' = heap_next s.
Proof.
  induction nodes as [|n nodes IH]; intros fuel sv s Hl Hne Hf; [done|].
  inversion Hl as [|a n' l' Ha Hn Hl']; subst.
  destruct fuel as [|fuel]; [simpl in Hf; lia|].
  cbn [mp_prompt_restore_loop].
  unfold mbind' at 1. unfold load_save. rewrite Hn.
  unfold mp_gsave_restore. rewrite (mbind_done (emit _) _ _ tt _ eq_refl).
  cbv zeta.
  destruct nodes as [|n2 nodes].
  - assert (s_next n = NULL) as Hz by (by inversion Hl'). rewrite Hz. simpl.
    eexists. split; [reflexivity|]. simpl. repeat split; reflexivity.
  - assert (s_next n ≠ NULL) as Hnz by (inversion Hl'; subst; done).
    destruct (s_next n =? 0) eqn:E; [lia|]. simpl negb. cbv iota.
    destruct (IH fuel (s_next n) (with_event (EvGsaveRestore (s_gsave n)) s))
      as (s' & Hrun & Htr & Hrest); [exact Hl' | done | simpl in Hf; simpl; lia |].
    exists s'. split; [exact Hrun|]. split; [|exact Hrest].
    rewrite Htr. simpl. by rewrite <- app_assoc.
Qed.

Lemma mp_prompt_save_loop_step fuel x xr sp savep s :
  prompts s !! x = Some xr →
  mp_prompt_save_loop (S fuel) x sp savep s =
    if p_parent xr =? NULL then Done (heap_next s) (save_step_state s x xr sp savep)
    else match return_points s !! p_return_point xr with
         | Some rp =>
             mp_prompt_save_loop fuel (p_parent xr) (reg_sp (ret_jmp rp)) (heap_next s)
               (save_step_state s x xr sp savep)
         | None => Undef
         end.
Proof.
  intros Hx. cbn [mp_prompt_save_loop].
  unfold mbind' at 1. unfold mp_malloc at 1. cbv beta iota.
  unfold mp_prompt_dup.
  rewrite mbind_assoc.
  erewrite (mbind_done (load_prompt x)); [|apply load_prompt_done; exact Hx].
  rewrite mbind_assoc.
  erewrite (mbind_done (store_prompt x _)); [|apply store_prompt_done; exact Hx].
  rewrite (mbind_done (mreturn x) _ _ x _ eq_refl).
  erewrite (mbind_done (load_prompt x)); [|apply load_prompt_done, lookup_insert_eq].
  unfold mp_gstack_save, mp_malloc. unfold mbind' at 1. unfold mbind' at 1.
  cbv beta iota. unfold mbind' at 1. unfold emit, mmodify at 1. cbv beta iota.
  unfold mreturn at 1. unfold mbind' at 1. unfold mmodify at 1. cbv beta iota zeta.
  erewrite (mbind_done (load_prompt x)); [|apply load_prompt_done, lookup_insert_eq].
  change (p_parent (set_p_refcount _ xr)) with (p_parent xr).
  change (p_return_point (set_p_refcount _ xr)) with (p_return_point xr).
  change (p_gstack (set_p_refcount _ xr)) with (p_gstack xr).
  destruct (p_parent xr =? 0) eqn:E.
  - rewrite (mbind_done (mreturn 0) _ _ 0 _ eq_refl). simpl. reflexivity.
  - unfold mbind' at 1. unfold mbind' at 1. unfold load_return_point. simpl.
    destruct (return_points s !! p_return_point xr); reflexivity.
Qed.

Lemma snapshot_of_step s x xr sp savep z it :
  prompts s !! x = Some xr →
  snapshot_of (save_step_state s x xr sp savep) z it → snapshot_of s z it.
Proof.
  intros Hx [Hz (yr & sp' & Hy & He)]. split; [done|]. simpl in Hy.
  destruct (decide (z = x)) as [->|Hne].
  - rewrite lookup_insert_eq in Hy. injection Hy as <-. eauto.
  - rewrite lookup_insert_ne in Hy by done. eauto.
Qed.

Lemma fresh_heap_step s x xr sp savep :
  fresh_heap s → fresh_heap (save_step_state s x xr sp savep).
Proof.
  intros (Hpos & Hs & Hm). split; [simpl; lia|]. split; simpl.
  - intros a Ha. rewrite lookup_insert_ne by lia. apply Hs. lia.
  - intros a Ha. apply Hm. lia.
Qed.

(** The loop of [mp_prompt_save] on a chain [l]: one node per prompt, each
    put in front of the nodes built so far. *)
Lemma mp_prompt_save_loop_spec l :
  ∀ fuel x sp savep acc s,
    chain (prompts s) x l → l ≠ [] → (length l ≤ fuel)%nat →
    save_list (saves s) savep acc → fresh_heap s → return_points_readable s l →
    ∃ sv s' items,
      mp_prompt_save_loop fuel x sp savep s = Done sv s' ∧
      sv ≠ NULL ∧
      save_list (saves s') sv (rev (map fst items) ++ acc) ∧
      Forall2 (snapshot_of s) l items ∧
      trace s' = trace s ++ map snd items ∧
      (∀ y yr, y ∈ l → prompts s !! y = Some yr →
               prompts s' !! y = Some (bump_refcount yr)) ∧
      (∀ y, y ∉ l → prompts s' !! y = prompts s !! y) ∧
      fresh_heap s' ∧ mresumes s' = mresumes s ∧
      return_points s' = return_points s ∧ resume_points s' = resume_points s ∧
      _mp_prompt_top s' = _mp_prompt_top s.
Proof.
  induction l as [|x l IH]; intros fuel x0 sp savep acc s Hc Hne Hf Hacc Hfresh Hread;
    [done|].
  pose proof (chain_NoDup _ _ _ Hc) as Hnd. apply NoDup_cons in Hnd as [Hxl _].
  assert (x0 = x) as -> by (by inversion Hc).
  inversion Hc as [|x' xr l' Hx Hxr Hc']; subst x' l'.
  destruct fuel as [|fuel]; [simpl in Hf; lia|].
  rewrite (mp_prompt_save_loop_step _ _ _ _ _ _ Hxr).
  set (s1 := save_step_state s x xr sp savep).
  set (node := {| s_next := savep; s_prompt := x; s_gsave := heap_next s + 16 |}).
  set (ev := EvGstackSave (p_gstack xr) sp (heap_next s + 16)).
  destruct Hfresh as (Hpos & Hfs & Hfm).
  assert (save_list (saves s1) (heap_next s) (node :: acc)) as Hnode.
  { econstructor; [lia | apply lookup_insert_eq |]. simpl.
    apply save_list_insert_fresh; [apply Hfs; lia | done]. }
  assert (snapshot_of s x (node, ev)) as Hsnap.
  { split; [done|]. exists xr, sp. by split. }
  assert (fresh_heap s1) as Hfresh1 by (by apply fresh_heap_step).
  destruct l as [|y l].
  - assert (p_parent xr = NULL) as Hroot by (by inversion Hc').
    rewrite Hroot. simpl.
    exists (heap_next s), s1, [(node, ev)].
    split; [done|]. split; [lia|]. split; [exact Hnode|].
    split; [by constructor|]. split; [done|].
    split.
    { intros z zr Hz Hzr. apply list_elem_of_singleton in Hz as ->.
      simpl. rewrite lookup_insert_eq. congruence. }
    split.
    { intros z Hz. apply not_elem_of_cons in Hz as [Hz _]. simpl.
      by rewrite lookup_insert_ne. }
    split; [exact Hfresh1|]. by repeat split.
  - assert (p_parent xr ≠ NULL) as Hpar by (inversion Hc'; subst; done).
    destruct (p_parent xr =? 0) eqn:E; [lia|].
    destruct (Hread x xr) as [rp Hrp]; [by left | done | done |].
    rewrite Hrp.
    destruct (IH fuel (p_parent xr) (reg_sp (ret_jmp rp)) (heap_next s) (node :: acc) s1)
      as (sv & s' & items & Hrun & Hsv & Hlist & Hall & Htr & Hin & Hout & Hfr' & Hrest).
    + simpl. by apply chain_insert_notin.
    + done.
    + simpl in Hf. simpl. lia.
    + exact Hnode.
    + exact Hfresh1.
    + intros z zr Hz. simpl. intros Hzr. apply (Hread z zr); [by right|].
      rewrite lookup_insert_ne in Hzr; [done|]. intros ->. done.
    + exists sv, s', ((node, ev) :: items).
      split; [exact Hrun|]. split; [exact Hsv|].
      split. { simpl. rewrite <- app_assoc. exact Hlist. }
      split. { constructor; [exact Hsnap|].
               eapply Forall2_impl; [exact Hall|]. intros z it.
               by apply snapshot_of_step. }
      split. { rewrite Htr. simpl. by rewrite <- app_assoc. }
      split.
      { intros z zr Hz Hzr. apply elem_of_cons in Hz as [->|Hz].
        - rewrite (Hout x Hxl). simpl. rewrite lookup_insert_eq. congruence.
        - apply Hin; [done|]. simpl. rewrite lookup_insert_ne; [done|].
          intros ->. done. }
      split.
      { intros z Hz. apply not_elem_of_cons in Hz as [Hzx Hz].
        rewrite (Hout z Hz). simpl. by rewrite lookup_insert_ne. }
      split; [exact Hfr'|]. exact Hrest.
Qed.

Lemma snapshot_of_prompts s l items :
  Forall2 (snapshot_of s) l items → map s_prompt (map fst items) = l.
Proof.
  induction 1 as [|y it l items [Hy _] _ IH]; [done|]. simpl. by rewrite Hy, IH.
Qed.

Lemma chain_st_yielded : chain (prompts st_yielded) 192 ([192; 128] ++ [64]).
Proof.
  econstructor; [done | reflexivity |]. simpl.
  econstructor; [done | reflexivity |]. simpl.
  econstructor; [done | reflexivity |]. simpl. constructor.
Qed.

(** C5, as stated, fails: for A suspended over B and C ([st_yielded], the
    walk from [A->top] is C, B, A) [mp_prompt_save] returns a list whose
    head holds the root A and whose last node holds the deepest child C;
    [mp_prompt_restore] restores A's snapshot first and C's last. *)
Lemma save_list_head_is_root :
  chain (prompts st_yielded) 192 [192; 128; 64] ∧
  (∃ s', mp_prompt_save 3 64 st_yielded = Done 65600 s' ∧
         save_list (saves s') 65600 [node_A; node_B; node_C] ∧
         trace s' = [EvGstackSave 12288 13000 65552; EvGstackSave 8192 9000 65584;
                     EvGstackSave 4096 5000 65616] ∧
         ∃ s'', mp_prompt_restore 3 64 65600 s' = Done tt s'' ∧
                trace s'' = trace s' ++ [EvGsaveRestore 65616; EvGsaveRestore 65584;
                                         EvGsaveRestore 65552]) ∧
  map s_prompt [node_A; node_B; node_C] = [64; 128; 192] ∧
  ¬ save_list_child_to_parent.
Proof.
  assert (∃ s', mp_prompt_save 3 64 st_yielded = Done 65600 s' ∧
                save_list (saves s') 65600 [node_A; node_B; node_C] ∧
                trace s' = [EvGstackSave 12288 13000 65552; EvGstackSave 8192 9000 65584;
                            EvGstackSave 4096 5000 65616] ∧
                ∃ s'', mp_prompt_restore 3 64 65600 s' = Done tt s'' ∧
                       trace s'' = trace s' ++ [EvGsaveRestore 65616; EvGsaveRestore 65584;
                                                EvGsaveRestore 65552]) as Hrun.
  { eexists. split; [vm_compute; reflexivity|]. split.
    - econstructor; [done | reflexivity |].
      econstructor; [done | reflexivity |].
      econstructor; [done | reflexivity |]. constructor.
    - split; [reflexivity|]. eexists. split; [vm_compute; reflexivity | reflexivity]. }
  split; [apply chain_st_yielded|]. split; [exact Hrun|]. split; [reflexivity|].
  intros H. destruct Hrun as (s' & Hsave & Hlist & _).
  specialize (H 3%nat st_yielded 64 (mk_prompt NULL 192 1 4096 1024 13000)
                [192; 128; 64] 65600 s' [node_A; node_B; node_C]
                eq_refl chain_st_yielded Hsave Hlist).
  discriminate H.
Qed.


(** C5 (amended): for a suspended prompt [p] whose captured sub-chain,
    walked from [p->top] along [parent], is [l ++ [p]] (deepest child
    first, [p] last), [mp_prompt_save] takes one snapshot per prompt in
    that child→parent order, puts each new node in front of the earlier
    ones, and so returns a list in parent→child order: its head holds [p],
    its last node the deepest child.  Each node holds a reference on its
    prompt: every prompt of the sub-chain has its reference count
    incremented once, no other prompt changes.  [mp_prompt_restore], which
    prepare runs when [r->save] is not null, restores the snapshots in list
    order, from the root [p] to the deepest child. *)
Theorem save_list_parent_to_child (fuel : nat) (s : state) (p : ptr) (pr : mp_prompt_s)
    (rp : mp_resume_point_t) (l : list ptr) :
  prompts s !! p = Some pr →
  resume_points s !! p_resume_point pr = Some rp →
  chain (prompts s) (p_top pr) (l ++ [p]) →
  fresh_heap s →
  return_points_readable s (l ++ [p]) →
  (length (l ++ [p]) ≤ fuel)%nat →
  ∃ sv s' items nodes,
    mp_prompt_save fuel p s = Done sv s' ∧
    sv ≠ NULL ∧
    save_list (saves s') sv nodes ∧
    nodes = rev (map fst items) ∧
    Forall2 (snapshot_of s) (l ++ [p]) items ∧
    trace s' = trace s ++ map snd items ∧
    map s_prompt nodes = p :: rev l ∧
    (∀ y yr, y ∈ l ++ [p] → prompts s !! y = Some yr →
             prompts s' !! y = Some (bump_refcount yr)) ∧
    (∀ y, y ∉ l ++ [p] → prompts s' !! y = prompts s !! y) ∧
    ∃ s'', mp_prompt_restore fuel p sv s' = Done tt s'' ∧
           trace s'' = trace s' ++ map (λ n, EvGsaveRestore (s_gsave n)) nodes ∧
           prompts s'' = prompts s' ∧ saves s'' = saves s'.
Proof.
  intros Hp Hrp Hc Hfresh Hread Hf.
  destruct (mp_prompt_save_loop_spec (l ++ [p]) fuel (p_top pr) (reg_sp (res_jmp rp))
              NULL [] s)
    as (sv & s' & items & Hrun & Hsv & Hlist & Hall & Htr & Hin & Hout & _);
    [exact Hc | by destruct l | exact Hf | constructor | exact Hfresh | exact Hread |].
  rewrite app_nil_r in Hlist.
  assert (map s_prompt (rev (map fst items)) = p :: rev l) as Hprompts.
  { rewrite map_rev, (snapshot_of_prompts _ _ _ Hall), rev_app_distr. done. }
  assert (rev (map fst items) ≠ []) as Hne.
  { intros Heq. rewrite Heq in Hprompts. discriminate. }
  assert (length (rev (map fst items)) ≤ fuel)%nat as Hlen.
  { rewrite length_rev, length_map, <- (Forall2_length _ _ _ Hall). exact Hf. }
  destruct (mp_prompt_restore_loop_spec _ fuel sv s' Hlist Hne Hlen)
    as (s'' & Hres & Htr' & Hpr' & Hsv' & _).
  exists sv, s', items, (rev (map fst items)).
  split.
  { unfold mp_prompt_save.
    rewrite (mbind_done _ _ _ _ _ (load_prompt_done _ _ _ Hp)).
    unfold mbind' at 1. unfold load_resume_point. rewrite Hrp. exact Hrun. }
  repeat (split; [done|]).
  exists s''. by repeat split.
Qed.

Lemma save_list_parent_to_child_witness :
  ∃ sv s' nodes,
    mp_prompt_save 3 64 st_yielded = Done sv s' ∧
    save_list (saves s') sv nodes ∧
    map s_prompt nodes = 64 :: rev [192; 128].
Proof.
  destruct (save_list_parent_to_child 3 st_yielded 64
              (mk_prompt NULL 192 1 4096 1024 13000)
              {| res_jmp := {| reg_sp := 13000 |}; res_result := 0 |} [192; 128])
    as (sv & s' & items & nodes & H1 & _ & H2 & _ & _ & _ & H3 & _).
  - reflexivity.
  - reflexivity.
  - simpl.
    econstructor; [done | reflexivity |]. simpl.
    econstructor; [done | reflexivity |]. simpl.
    econstructor; [done | reflexivity |]. simpl. constructor.
  - split; [reflexivity|]. split; intros a _; reflexivity.
  - intros y yr Hy. simpl in Hy.
    apply elem_of_cons in Hy as [->|Hy].
    { intros [= <-] _. simpl. exists {| ret_jmp := {| reg_sp := 9000 |};
        ret_kind := MP_RETURN; ret_fun := NULL; ret_arg := 0 |}. reflexivity. }
    apply elem_of_cons in Hy as [->|Hy].
    { intros [= <-] _. simpl. exists {| ret_jmp := {| reg_sp := 5000 |};
        ret_kind := MP_RETURN; ret_fun := NULL; ret_arg := 0 |}. reflexivity. }
    apply elem_of_cons in Hy as [->|Hy].
    { intros Hyr Hpar. exfalso. apply Hpar.
      change (Some (mk_prompt NULL 192 1 4096 1024 13000) = Some yr) in Hyr.
      by injection Hyr as <-. }
    by apply elem_of_nil in Hy.
  - simpl. lia.
  - exists sv, s', nodes. repeat split; assumption.
Defined.

(** ** Preparing a multi-shot resumption *)

Lemma mbind_done_inv {A B} (c : M A) (k : A → M B) s b s' :
  mbind' c k s = Done b s' → ∃ a s1, c s = Done a s1 ∧ k a s1 = Done b s'.
Proof. unfold mbind'. destruct (c s) as [a s1| | |]; try discriminate. eauto. Qed.

Lemma load_mresume_done s r m :
  mresumes s !! r = Some m → load_mresume r s = Done m s.
Proof. unfold load_mresume. by intros ->. Qed.

Lemma store_mresume_done s r m f :
  mresumes s !! r = Some m →
  store_mresume r f s = Done tt (with_mresumes (insert r (f m)) s).
Proof. unfold store_mresume. by intros ->. Qed.

Lemma mp_prompt_dup_done s p pr :
  prompts s !! p = Some pr →
  mp_prompt_dup p s = Done p (with_prompts (insert p (bump_refcount pr)) s).
Proof.
  intros Hp. unfold mp_prompt_dup.
  rewrite (mbind_done _ _ _ _ _ (load_prompt_done _ _ _ Hp)).
  by rewrite (mbind_done _ _ _ _ _ (store_prompt_done _ _ _ _ Hp)).
Qed.

(** Dropping a record that has other owners only decrements its count. *)
Lemma mp_mresume_drop_shared fuel s r m :
  mresumes s !! r = Some m → 1 < r_refcount m →
  mp_mresume_drop fuel r s =
    Done tt (with_mresumes (insert r (set_r_refcount (intptr_wrap (r_refcount m - 1)) m)) s).
Proof.
  intros Hr Hrc. unfold mp_mresume_drop.
  rewrite (mbind_done _ _ _ _ _ (load_mresume_done _ _ _ Hr)).
  rewrite (mbind_done _ _ _ _ _ (store_mresume_done _ _ _ _ Hr)).
  destruct (r_refcount m <=? 1) eqn:E; [lia|]. reflexivity.
Qed.

Lemma intptr_wrap_id z : - 2 ^ 63 ≤ z < 2 ^ 63 → intptr_wrap z = z.
Proof.
  intros Hz. unfold intptr_wrap. rewrite Z.mod_small; lia.
Qed.





(** ** The receiving side *)

Lemma mp_resume_multi_is_multi r :
  Z.land r 4 = 0 →
  mp_resume_is_multi (mp_resume_multi r) = r ∧ mp_resume_is_once (mp_resume_multi r) = NULL.
Proof.
  intros Hr. unfold mp_resume_is_multi, mp_resume_is_once, mp_resume_multi.
  assert (Z.land (Z.lor r 4) 4 = 4) as H4.
  { rewrite Z.land_lor_distr_l, Hr. reflexivity. }
  rewrite H4. simpl. split; [|done].
  apply Z.bits_inj'. intros n Hn.
  rewrite Z.lxor_spec, Z.lor_spec.
  destruct (Z.testbit 4 n) eqn:E.
  - assert (Z.testbit (Z.land r 4) n = false) as Hb by (rewrite Hr; apply Z.bits_0).
    rewrite Z.land_spec, E in Hb. destruct (Z.testbit r n); done.
  - by destruct (Z.testbit r n).
Qed.

Lemma load_return_point_done s a rp :
  return_points s !! a = Some rp → load_return_point a s = Done rp s.
Proof. unfold load_return_point. by intros ->. Qed.

(** C7: when control arrives at the receiver with tag [MP_YIELD_MULTI],
    [mp_prompt_exec_yield_fun] allocates a record at an address [r] not in
    use, fills it with [prompt = p], [refcount = 1], [resume_count = 0],
    [save = NULL] and [tail_return_point = p->return_point] as it is at
    that moment, changes nothing else but the allocator's cursor, and its
    result is the result of calling [ret->fun] on the handle
    [mp_resume_multi r] and [ret->arg].  The handle has bit 2 set and
    decodes back to [r]. *)
Theorem mp_prompt_exec_yield_fun_multi (call_yield_fun : ptr → Z → Z → M Z)
    (fuel : nat) (s : state) (ret p : ptr) (rp : mp_return_point_t) (pr : mp_prompt_s) :
  return_points s !! ret = Some rp →
  ret_kind rp = MP_YIELD_MULTI →
  prompts s !! p = Some pr →
  fresh_heap s →
  ∃ r s1,
    r = heap_next s ∧ r ≠ NULL ∧ mresumes s !! r = None ∧
    mp_prompt_exec_yield_fun call_yield_fun fuel ret p s =
      call_yield_fun (ret_fun rp) (mp_resume_multi r) (ret_arg rp) s1 ∧
    mresumes s1 !! r =
      Some {| r_refcount := 1; r_resume_count := 0; r_prompt := p; r_save := NULL;
              r_tail_return_point := p_return_point pr |} ∧
    (∀ r', r' ≠ r → mresumes s1 !! r' = mresumes s !! r') ∧
    prompts s1 = prompts s ∧ return_points s1 = return_points s ∧
    resume_points s1 = resume_points s ∧ saves s1 = saves s ∧
    _mp_prompt_top s1 = _mp_prompt_top s ∧ trace s1 = trace s ∧
    (Z.land r 4 = 0 →
       mp_resume_is_multi (mp_resume_multi r) = r ∧
       mp_resume_is_once (mp_resume_multi r) = NULL).
Proof.
  intros Hret Hkind Hp (Hpos & _ & Hfm).
  eexists (heap_next s), _.
  split; [reflexivity|]. split; [lia|]. split; [apply Hfm; lia|].
  split.
  { unfold mp_prompt_exec_yield_fun.
    rewrite (mbind_done _ _ _ _ _ (load_return_point_done _ _ _ Hret)).
    rewrite Hkind.
    destruct (decide (MP_YIELD_MULTI = MP_YIELD_ONCE)) as [?|_]; [discriminate|].
    destruct (decide (MP_YIELD_MULTI = MP_RETURN)) as [?|_]; [discriminate|].
    destruct (decide (MP_YIELD_MULTI = MP_YIELD_MULTI)) as [_|?]; [|done].
    unfold mbind' at 1. unfold mp_malloc. cbv beta iota.
    erewrite (mbind_done (load_prompt p)); [|apply load_prompt_done; exact Hp].
    rewrite (mbind_done (mmodify _) _ _ tt _ eq_refl).
    erewrite (mbind_done (load_return_point ret));
      [|apply load_return_point_done; exact Hret].
    reflexivity. }
  simpl. split; [apply lookup_insert_eq|].
  split; [intros r' Hr'; by rewrite lookup_insert_ne|].
  repeat (split; [reflexivity|]).
  apply mp_resume_multi_is_multi.
Qed.

Lemma mp_prompt_exec_yield_fun_multi_witness :
  ∃ s1,
    mp_prompt_exec_yield_fun example_yield_fun 4 1024 64 st_yieldm = Done 8 s1 ∧
    mresumes s1 !! 65536 =
      Some {| r_refcount := 1; r_resume_count := 0; r_prompt := 64; r_save := NULL;
              r_tail_return_point := 1024 |}.
Proof.
  destruct (mp_prompt_exec_yield_fun_multi example_yield_fun 4 st_yieldm 1024 64
              {| ret_jmp := {| reg_sp := 1000 |}; ret_kind := MP_YIELD_MULTI;
                 ret_fun := 500; ret_arg := 7 |}
              (mk_prompt NULL 192 1 4096 1024 13000))
    as (r & s1 & Hr & _ & _ & Hrun & Hrec & _).
  - reflexivity.
  - reflexivity.
  - reflexivity.
  - split; [reflexivity|]. split; intros a _; reflexivity.
  - subst r. exists s1. split; [exact Hrun | exact Hrec].
Defined.

(** ** What preparing a resumption leaves alone *)

Lemma keeps_tail_points_refl s : keeps_tail_points s s.
Proof. split; [done|]. eauto. Qed.

Lemma keeps_tail_points_trans s1 s2 s3 :
  keeps_tail_points s1 s2 → keeps_tail_points s2 s3 → keeps_tail_points s1 s3.
Proof.
  intros [H1 H1'] [H2 H2']. split; [congruence|].
  intros r m3 Hm3. destruct (H2' r m3 Hm3) as (m2 & Hm2 & E2).
  destruct (H1' r m2 Hm2) as (m1 & Hm1 & E1). exists m1. split; [done|congruence].
Qed.

Lemma framed_bind {A B} (c : M A) (k : A → M B) :
  framed keeps_tail_points c → (∀ a, framed keeps_tail_points (k a)) →
  framed keeps_tail_points (mbind' c k).
Proof.
  intros Hc Hk s b s' H. apply mbind_done_inv in H as (a & s1 & H1 & H2).
  eapply keeps_tail_points_trans; [by eapply Hc | by eapply Hk].
Qed.

Lemma framed_same {A} (c : M A) :
  (∀ s a s', c s = Done a s' →
     return_points s' = return_points s ∧ mresumes s' = mresumes s) →
  framed keeps_tail_points c.
Proof.
  intros H s a s' Hc. destruct (H s a s' Hc) as [H1 H2]. split; [done|].
  intros r m'. rewrite H2. eauto.
Qed.

Lemma framed_mreturn {A} (a : A) : framed keeps_tail_points (mreturn a).
Proof. apply framed_same. intros s b s' H; by inversion H. Qed.

Lemma framed_load_prompt p : framed keeps_tail_points (load_prompt p).
Proof.
  apply framed_same. intros s a s'. unfold load_prompt.
  destruct (prompts s !! p); [|discriminate]. intros H; by inversion H.
Qed.

Lemma framed_store_prompt p f : framed keeps_tail_points (store_prompt p f).
Proof.
  apply framed_same. intros s a s'. unfold store_prompt.
  destruct (prompts s !! p); [|discriminate]. intros H; by inversion H.
Qed.

Lemma framed_load_mresume r : framed keeps_tail_points (load_mresume r).
Proof.
  apply framed_same. intros s a s'. unfold load_mresume.
  destruct (mresumes s !! r); [|discriminate]. intros H; by inversion H.
Qed.

Lemma framed_store_mresume r f :
  (∀ m, r_tail_return_point (f m) = r_tail_return_point m) →
  framed keeps_tail_points (store_mresume r f).
Proof.
  intros Hf s a s'. unfold store_mresume.
  destruct (mresumes s !! r) as [m|] eqn:Hr; [|discriminate].
  intros H; inversion H; subst; clear H.
  split; [done|]. intros r' m'. simpl.
  destruct (decide (r' = r)) as [->|Hne].
  - rewrite lookup_insert_eq. intros [= <-]. exists m. by split.
  - rewrite lookup_insert_ne by done. eauto.
Qed.

Lemma framed_load_save a : framed keeps_tail_points (load_save a).
Proof.
  apply framed_same. intros s n s'. unfold load_save.
  destruct (saves s !! a); [|discriminate]. intros H; by inversion H.
Qed.

Lemma framed_load_return_point a : framed keeps_tail_points (load_return_point a).
Proof.
  apply framed_same. intros s n s'. unfold load_return_point.
  destruct (return_points s !! a); [|discriminate]. intros H; by inversion H.
Qed.

Lemma framed_load_resume_point a : framed keeps_tail_points (load_resume_point a).
Proof.
  apply framed_same. intros s n s'. unfold load_resume_point.
  destruct (resume_points s !! a); [|discriminate]. intros H; by inversion H.
Qed.

Lemma framed_emit e : framed keeps_tail_points (emit e).
Proof. apply framed_same. intros s a s' H; by inversion H. Qed.

Lemma framed_mp_malloc : framed keeps_tail_points mp_malloc.
Proof. apply framed_same. intros s a s' H; by inversion H. Qed.

Lemma framed_with_saves f : framed keeps_tail_points (mmodify (with_saves f)).
Proof. apply framed_same. intros s a s' H; by inversion H. Qed.

Lemma framed_mp_free_mresume r : framed keeps_tail_points (mp_free_mresume r).
Proof.
  intros s a s' H; inversion H; subst; clear H.
  split; [done|]. intros r' m'. simpl.
  destruct (decide (r' = r)) as [->|Hne].
  - by rewrite lookup_delete_eq.
  - rewrite lookup_delete_ne by done. eauto.
Qed.

Create HintDb framed discriminated.

#[local] Hint Resolve framed_mreturn framed_load_prompt framed_store_prompt
  framed_load_mresume framed_load_save framed_load_return_point
  framed_load_resume_point framed_emit framed_mp_malloc framed_with_saves
  framed_mp_free_mresume : framed.

Ltac framed_step :=
  first
    [ solve [auto 1 with framed nocore]
    | simple apply framed_store_mresume; intros []; reflexivity
    | simple apply framed_bind; [|intros ?]
    | (intros ? ? ?; discriminate) ].

Ltac framed_auto :=
  repeat first
    [ framed_step
    | match goal with
      | |- framed _ (if ?b then _ else _) => destruct b
      | |- framed _ (match ?x with _ => _ end) => destruct x
      end ].

Lemma framed_mp_prompt_free_loop delay fuel :
  ∀ p, framed keeps_tail_points (mp_prompt_free_loop fuel p delay).
Proof.
  induction fuel as [|fuel IH]; intros p; cbn [mp_prompt_free_loop];
    unfold mp_gstack_free; framed_auto.
Qed.

#[local] Hint Resolve framed_mp_prompt_free_loop : framed.

Lemma framed_mp_prompt_drop fuel p : framed keeps_tail_points (mp_prompt_drop fuel p).
Proof.
  unfold mp_prompt_drop, mp_prompt_drop_internal, mp_prompt_free. framed_auto.
Qed.

#[local] Hint Resolve framed_mp_prompt_drop : framed.

Lemma framed_mp_mresume_drop_loop fuel :
  ∀ a, framed keeps_tail_points (mp_mresume_drop_loop fuel a).
Proof.
  induction fuel as [|fuel IH]; intros a; cbn [mp_mresume_drop_loop];
    unfold mp_gsave_free, mp_free_save; framed_auto.
Qed.

#[local] Hint Resolve framed_mp_mresume_drop_loop : framed.

Lemma framed_mp_mresume_drop fuel r : framed keeps_tail_points (mp_mresume_drop fuel r).
Proof. unfold mp_mresume_drop. framed_auto. Qed.

#[local] Hint Resolve framed_mp_mresume_drop : framed.

Lemma framed_mp_prompt_restore_loop fuel :
  ∀ a, framed keeps_tail_points (mp_prompt_restore_loop fuel a).
Proof.
  induction fuel as [|fuel IH]; intros a; cbn [mp_prompt_restore_loop];
    unfold mp_gsave_restore; framed_auto.
Qed.

#[local] Hint Resolve framed_mp_prompt_restore_loop : framed.

Lemma framed_mp_prompt_save_loop fuel :
  ∀ p sp savep, framed keeps_tail_points (mp_prompt_save_loop fuel p sp savep).
Proof.
  induction fuel as [|fuel IH]; intros p sp savep; cbn [mp_prompt_save_loop];
    unfold mp_prompt_dup, mp_gstack_save; framed_auto.
Qed.

#[local] Hint Resolve framed_mp_prompt_save_loop : framed.


(** ** Tail resumption of a multi-shot handle *)

Lemma store_resume_point_done s a rp f :
  resume_points s !! a = Some rp →
  store_resume_point a f s = Done tt (with_resume_points (insert a (f rp)) s).
Proof. unfold store_resume_point. by intros ->. Qed.

Lemma mp_prompt_resume_tail_exit s p arg ret pr rp :
  prompts s !! p = Some pr →
  resume_points s !! p_resume_point pr = Some rp →
  mp_prompt_resume_tail p arg ret s =
    Exit (ExLongjmp (p_resume_point pr))
      (with_resume_points (insert (p_resume_point pr) (set_res_result arg rp))
         (link_state s p ret pr)).
Proof.
  intros Hp Hrp. unfold mp_prompt_resume_tail.
  rewrite (mbind_done _ _ _ _ _ (mp_prompt_link_done _ _ ret _ Hp)). cbv beta.
  unfold mbind'.
  rewrite (store_resume_point_done (link_state s p ret pr) _ rp _ Hrp). reflexivity.
Qed.




(** * Further properties of the engine *)

(** ** Handles: encoding and dispatch *)

Lemma aligned_bit2 (a : Z) : a mod 8 = 0 → Z.land a 4 = 0.
Proof.
  intros Ha. apply Z.bits_inj'. intros n Hn. rewrite Z.land_spec, Z.bits_0.
  destruct (Z.testbit 4 n) eqn:E; [|by rewrite andb_false_r].
  assert (n = 2) as ->.
  { destruct (decide (n = 2)) as [->|Hne]; [done|]. exfalso.
    change 4 with (2 ^ 2) in E. rewrite Z.pow2_bits_eqb in E by lia.
    apply Z.eqb_eq in E. lia. }
  rewrite andb_true_r.
  rewrite (Z.div_mod a 8) by lia. rewrite Ha, Z.add_0_r.
  change 8 with (2 ^ 3). rewrite Z.mul_comm, Z.mul_pow2_bits_low; [done|lia].
Qed.

Lemma mp_resume_multi_add (r : Z) : Z.land r 4 = 0 → mp_resume_multi r = r + 4.
Proof.
  intros Hr. unfold mp_resume_multi.
  rewrite <- Z.lxor_lor by exact Hr. symmetry. by apply Z.add_nocarry_lxor.
Qed.

(** X1: the tag in bit 2 separates the two kinds of handle and loses
    nothing.  For 8-byte aligned addresses [p] and [r]: the once-handle of
    [p] decodes to [p] as a once-resumption and to [NULL] as a multi-shot
    one; the multi-handle of [r] is [r + 4], decodes to [r] as a multi-shot
    resumption and to [NULL] as a once-resumption; the two handles differ.
    In the other direction every handle with bit 2 set is the multi-handle
    of what it decodes to, and every handle with bit 2 clear is the
    once-handle of what it decodes to. *)
Theorem mp_resume_handle_round_trip (p r : ptr) :
  p mod 8 = 0 → r mod 8 = 0 →
  mp_resume_is_once (mp_resume_once p) = p ∧
  mp_resume_is_multi (mp_resume_once p) = NULL ∧
  mp_resume_multi r = r + 4 ∧
  mp_resume_is_multi (mp_resume_multi r) = r ∧
  mp_resume_is_once (mp_resume_multi r) = NULL ∧
  mp_resume_multi r ≠ mp_resume_once p ∧
  (∀ h, Z.land h 4 ≠ 0 →
        mp_resume_is_once h = NULL ∧ mp_resume_multi (mp_resume_is_multi h) = h) ∧
  (∀ h, Z.land h 4 = 0 →
        mp_resume_is_multi h = NULL ∧ mp_resume_once (mp_resume_is_once h) = h).
Proof.
  intros Hp Hr.
  pose proof (aligned_bit2 p Hp) as Hp4. pose proof (aligned_bit2 r Hr) as Hr4.
  destruct (mp_resume_multi_is_multi r Hr4) as [Hm1 Hm2].
  split. { unfold mp_resume_once. by apply mp_resume_is_once_once. }
  split. { unfold mp_resume_once. by apply mp_resume_is_multi_once. }
  split; [by apply mp_resume_multi_add|].
  split; [exact Hm1|]. split; [exact Hm2|].
  split.
  { rewrite (mp_resume_multi_add r Hr4). unfold mp_resume_once. intros Heq.
    assert ((r + 4) mod 8 = 0) as H8 by (by rewrite Heq).
    rewrite Z.add_mod, Hr in H8 by lia. discriminate H8. }
  split.
  - intros h Hh. unfold mp_resume_is_once, mp_resume_is_multi, mp_resume_multi.
    destruct (Z.land h 4 =? 0) eqn:E; [lia|]. split; [done|].
    apply Z.bits_inj'. intros n Hn.
    rewrite Z.lor_spec, Z.lxor_spec.
    destruct (Z.testbit 4 n) eqn:E4; [|by rewrite xorb_false_r, orb_false_r].
    rewrite orb_true_r. symmetry.
    assert (n = 2) as ->.
    { destruct (decide (n = 2)) as [->|Hne]; [done|]. exfalso.
      change 4 with (2 ^ 2) in E4. rewrite Z.pow2_bits_eqb in E4 by lia.
      apply Z.eqb_eq in E4. lia. }
    destruct (Z.testbit h 2) eqn:Eh; [done|]. exfalso. apply Hh.
    apply Z.bits_inj'. intros k Hk. rewrite Z.land_spec, Z.bits_0.
    destruct (decide (k = 2)) as [->|Hne]; [by rewrite Eh|].
    change 4 with (2 ^ 2). rewrite Z.pow2_bits_eqb by lia.
    destruct (2 =? k) eqn:E2; [lia|]. by rewrite andb_false_r.
  - intros h Hh. split; [by apply mp_resume_is_multi_once|].
    unfold mp_resume_once. by apply mp_resume_is_once_once.
Qed.

Lemma mp_resume_handle_round_trip_witness :
  64 mod 8 = 0 ∧ 20000 mod 8 = 0 ∧
  mp_resume_is_once (mp_resume_once 64) = 64 ∧
  mp_resume_multi 20000 = 20004 ∧
  mp_resume_is_multi (mp_resume_multi 20000) = 20000.
Proof.
  split; [reflexivity|]. split; [reflexivity|].
  destruct (mp_resume_handle_round_trip 64 20000) as (H1 & _ & H2 & H3 & _);
    [reflexivity | reflexivity |].
  repeat split; assumption.
Defined.

(** ** Walking the chain *)

Lemma chain_lookup h x l i y :
  chain h x l → l !! i = Some y →
  y ≠ NULL ∧ ∃ yr, h !! y = Some yr ∧ p_parent yr = default NULL (l !! S i).
Proof.
  intros Hc. revert i. induction Hc as [|x pr l Hx Hl Hc IH]; intros i Hi.
  - by rewrite lookup_nil in Hi.
  - destruct i as [|i]; simpl in Hi.
    + injection Hi as <-. split; [done|]. exists pr. split; [done|].
      simpl. inversion Hc; subst; reflexivity.
    + simpl. by apply IH.
Qed.

Lemma chain_top h x l : chain h x l → x = default NULL (l !! 0%nat).
Proof. by inversion 1. Qed.

(** X2: [mp_prompt_is_ancestor] decides membership of the current chain.
    When the walk from the thread's top along [parent] visits the prompts
    [l] and the loop budget exceeds their number, the answer is [true]
    exactly for the prompts of [l]; in particular it is [false] for [NULL]
    and on an empty chain.  Whatever the budget, a [true] answer is only
    given for a prompt of [l], and the walk changes nothing. *)
Theorem mp_prompt_is_ancestor_decides (s : state) (l : list ptr) (fuel : nat) (p : ptr) :
  chain (prompts s) (_mp_prompt_top s) l →
  (length l < fuel)%nat →
  mp_prompt_is_ancestor fuel p s = Done (bool_decide (p ∈ l)) s ∧
  (p = NULL → mp_prompt_is_ancestor fuel p s = Done false s) ∧
  (l = [] → mp_prompt_is_ancestor fuel p s = Done false s) ∧
  (∀ fuel' b s', mp_prompt_is_ancestor fuel' p s = Done b s' →
                 s' = s ∧ (b = true → p ∈ l)).
Proof.
  intros Hc Hf.
  assert (mp_prompt_is_ancestor fuel p s = Done (bool_decide (p ∈ l)) s) as Hdec.
  { unfold mp_prompt_is_ancestor.
    eapply mp_prompt_is_ancestor_loop_complete; [reflexivity | exact Hc | exact Hf]. }
  split; [exact Hdec|]. split.
  { intros ->. rewrite Hdec. f_equal. apply bool_decide_eq_false_2.
    intros Hin. by destruct (chain_elem _ _ _ _ Hc Hin). }
  split.
  { intros ->. rewrite Hdec. f_equal. }
  intros fuel' b s' H.
  pose proof (mp_prompt_is_ancestor_loop_state _ _ _ _ _ _ H) as ->.
  split; [done|]. intros ->.
  eapply mp_prompt_is_ancestor_loop_sound; [|exact Hc|exact H]. reflexivity.
Qed.

Lemma mp_prompt_is_ancestor_decides_witness :
  mp_prompt_is_ancestor 4 128 st_nested = Done true st_nested ∧
  mp_prompt_is_ancestor 4 128 st_yielded = Done false st_yielded.
Proof.
  split.
  - destruct (mp_prompt_is_ancestor_decides st_nested [192; 128; 64] 4 128) as [H _].
    + simpl.
      econstructor; [done | reflexivity |]. simpl.
      econstructor; [done | reflexivity |]. simpl.
      econstructor; [done | reflexivity |]. simpl. constructor.
    + simpl. lia.
    + exact H.
  - destruct (mp_prompt_is_ancestor_decides st_yielded [] 4 128) as (_ & _ & H & _).
    + simpl. constructor.
    + simpl. lia.
    + by apply H.
Defined.

Lemma mp_prompt_parent_iter_state n : ∀ s q s', mp_prompt_parent_iter n s = Done q s' → s' = s.
Proof.
  induction n as [|n IH]; intros s q s'; simpl.
  - by intros [= _ <-].
  - intros H. apply mbind_done_inv in H as (q0 & s1 & H1 & H2).
    apply IH in H1 as ->. revert H2. unfold mp_prompt_parent.
    destruct (q0 =? 0).
    + by intros [= _ <-].
    + unfold mbind', load_prompt. destruct (prompts s !! q0); [|discriminate].
      by intros [= _ <-].
Qed.

(** X3: the walk with [mp_prompt_parent].  Starting from [NULL] and
    feeding each answer back in, the [i+1]-th call returns the [i]-th prompt
    of the current chain, the first being the current top, and the call
    after the last prompt returns [NULL].  The walk then starts over: a
    further call with that [NULL] returns the current top again.  No call
    changes the state. *)
Theorem mp_prompt_parent_walk (s : state) (l : list ptr) :
  chain (prompts s) (_mp_prompt_top s) l →
  (∀ i, (i ≤ length l)%nat →
        mp_prompt_parent_iter (S i) s = Done (default NULL (l !! i)) s) ∧
  mp_prompt_parent_iter 1 s = Done (_mp_prompt_top s) s ∧
  mp_prompt_parent_iter (S (length l)) s = Done NULL s ∧
  (∀ n, mp_prompt_parent_iter (S (length l) + n) s = mp_prompt_parent_iter n s).
Proof.
  intros Hc.
  assert (∀ i, (i ≤ length l)%nat →
               mp_prompt_parent_iter (S i) s = Done (default NULL (l !! i)) s) as Hwalk.
  { induction i as [|i IH]; intros Hi.
    - simpl. rewrite (mbind_done (mreturn 0) _ _ 0 s eq_refl).
      unfold mp_prompt_parent. simpl. unfold mp_prompt_top. f_equal.
      exact (chain_top _ _ _ Hc).
    - change (mp_prompt_parent_iter (S (S i)) s)
        with ((let* q := mp_prompt_parent_iter (S i) in mp_prompt_parent q) s).
      rewrite (mbind_done _ _ _ _ _ (IH ltac:(lia))).
      destruct (l !! i) as [y|] eqn:Hy.
      + destruct (chain_lookup _ _ _ _ _ Hc Hy) as (Hnz & yr & Hyr & Hpar).
        simpl. rewrite (mp_prompt_parent_done _ _ _ Hnz Hyr). by rewrite Hpar.
      + apply lookup_ge_None in Hy. lia. }
  split; [exact Hwalk|].
  split. { rewrite (Hwalk 0%nat) by lia. f_equal. symmetry. exact (chain_top _ _ _ Hc). }
  assert (mp_prompt_parent_iter (S (length l)) s = Done NULL s) as Hend.
  { rewrite (Hwalk (length l)) by lia. by rewrite (lookup_ge_None_2 l (length l)). }
  split; [exact Hend|].
  induction n as [|n IH].
  - rewrite Nat.add_0_r. exact Hend.
  - rewrite Nat.add_succ_r.
    change (mp_prompt_parent_iter (S (S (length l) + n)) s)
      with ((let* q := mp_prompt_parent_iter (S (length l) + n) in mp_prompt_parent q) s).
    change (mp_prompt_parent_iter (S n) s)
      with ((let* q := mp_prompt_parent_iter n in mp_prompt_parent q) s).
    unfold mbind'. by rewrite IH.
Qed.

Lemma mp_prompt_parent_walk_witness :
  mp_prompt_parent_iter 1 st_nested = Done 192 st_nested ∧
  mp_prompt_parent_iter 3 st_nested = Done 64 st_nested ∧
  mp_prompt_parent_iter 4 st_nested = Done NULL st_nested.
Proof.
  destruct (mp_prompt_parent_walk st_nested [192; 128; 64]) as (Hw & _ & _ & _).
  - simpl.
    econstructor; [done | reflexivity |]. simpl.
    econstructor; [done | reflexivity |]. simpl.
    econstructor; [done | reflexivity |]. simpl. constructor.
  - split; [apply (Hw 0%nat); simpl; lia|].
    split; [apply (Hw 2%nat); simpl; lia | apply (Hw 3%nat); simpl; lia].
Defined.

(** ** Dropping and freeing prompts *)

Lemma frees_stacklet_of_shape s s' delay y e :
  (∀ z zr', prompts s' !! z = Some zr' →
            ∃ zr, prompts s !! z = Some zr ∧ p_gstack zr = p_gstack zr') →
  frees_stacklet_of s' delay y e → frees_stacklet_of s delay y e.
Proof.
  intros H (yr' & Hy & ->). destruct (H y yr' Hy) as (yr & Hyr & Hg).
  exists yr. by rewrite Hg.
Qed.

Lemma drop_refcount_insert_gstack (h : gmap Z mp_prompt_s) q qr z zr' :
  h !! q = Some qr → <[q := drop_refcount qr]> h !! z = Some zr' →
  ∃ zr, h !! z = Some zr ∧ p_gstack zr = p_gstack zr'.
Proof.
  intros Hq. destruct (decide (z = q)) as [->|Hne].
  - rewrite lookup_insert_eq. intros [= <-]. eauto.
  - rewrite lookup_insert_ne by done. eauto.
Qed.

(** The loop of [mp_prompt_free] on a chain [l]: every stacklet is given
    back once, in the order of the walk, and every prompt but the first
    loses one reference. *)
Lemma mp_prompt_free_loop_spec delay l :
  ∀ fuel x s,
    chain (prompts s) x l → (length l ≤ fuel)%nat →
    ∃ s' evs,
      mp_prompt_free_loop fuel x delay s = Done tt s' ∧
      trace s' = trace s ++ evs ∧
      Forall2 (frees_stacklet_of s delay) l evs ∧
      (∀ y yr, y ∈ tail l → prompts s !! y = Some yr →
               prompts s' !! y = Some (drop_refcount yr)) ∧
      (∀ y, y ∉ tail l → prompts s' !! y = prompts s !! y) ∧
      _mp_prompt_top s' = _mp_prompt_top s ∧ mresumes s' = mresumes s ∧
      saves s' = saves s ∧ return_points s' = return_points s ∧
      resume_points s' = resume_points s ∧ heap_next s' = heap_next s.
Proof.
  induction l as [|a l IH]; intros fuel x s Hc Hf.
  - inversion Hc; subst. exists s, [].
    split; [by destruct fuel|]. split; [by rewrite app_nil_r|].
    split; [constructor|]. split; [intros y yr Hy; by apply elem_of_nil in Hy|].
    by repeat split.
  - pose proof (chain_NoDup _ _ _ Hc) as Hnd. apply NoDup_cons in Hnd as [Hal Hnd].
    assert (x = a) as -> by (by inversion Hc).
    inversion Hc as [|x' ar l' Ha Har Hc']; subst x' l'.
    destruct fuel as [|fuel]; [simpl in Hf; lia|].
    cbn [mp_prompt_free_loop]. destruct (a =? 0) eqn:E; [lia|].
    rewrite (mbind_done _ _ _ _ _ (load_prompt_done _ _ _ Har)).
    unfold mp_gstack_free. rewrite (mbind_done (emit _) _ _ tt _ eq_refl).
    assert (frees_stacklet_of s delay a (EvGstackFree (p_gstack ar) delay)) as Hev
      by (by exists ar).
    destruct l as [|y l].
    + assert (p_parent ar = NULL) as Hroot by (by inversion Hc').
      rewrite Hroot. simpl (0 =? 0). cbv iota.
      rewrite (mbind_done (mreturn tt) _ _ tt _ eq_refl).
      exists (with_event (EvGstackFree (p_gstack ar) delay) s),
        [EvGstackFree (p_gstack ar) delay].
      split; [by destruct fuel|]. split; [done|]. split; [by constructor|].
      split; [intros z zr Hz; by apply elem_of_nil in Hz|]. by repeat split.
    + assert (p_parent ar = y) as Hpar by (by inversion Hc').
      inversion Hc' as [|y' yr l' Hy Hyr Hc'']; subst l'.
      rewrite Hpar in Hyr. pose proof Hc' as Hcy. rewrite Hpar in Hcy.
      destruct (p_parent ar =? 0) eqn:Epar; [lia|].
      unfold mbind' at 1. unfold mbind' at 1. unfold load_prompt. simpl.
      rewrite Hpar, Hyr. unfold store_prompt. simpl. rewrite Hyr.
      set (s1 := with_prompts (insert y (set_p_refcount (intptr_wrap (p_refcount yr - 1)) yr))
                   (with_event (EvGstackFree (p_gstack ar) delay) s)).
      apply NoDup_cons in Hnd as [Hyl Hnd].
      destruct (IH fuel y s1)
        as (s' & evs & Hrun & Htr & Hall & Hin & Hout & Hrest).
      { simpl. eapply chain_same_shape; [|exact Hcy].
        by eapply same_shape_insert. }
      { simpl in Hf. simpl. lia. }
      exists s', (EvGstackFree (p_gstack ar) delay :: evs).
      split; [exact Hrun|].
      split. { rewrite Htr. simpl. by rewrite <- app_assoc. }
      split.
      { constructor; [exact Hev|]. eapply Forall2_impl; [exact Hall|].
        intros z e. apply frees_stacklet_of_shape. intros w wr'. simpl.
        by apply drop_refcount_insert_gstack. }
      split.
      { intros z zr Hz Hzr. simpl in Hz. apply elem_of_cons in Hz as [->|Hz].
        - rewrite (Hout y); [|simpl; exact Hyl]. simpl.
          rewrite lookup_insert_eq. rewrite Hyr in Hzr. by injection Hzr as <-.
        - apply Hin; [simpl; exact Hz|]. simpl.
          rewrite lookup_insert_ne; [done|]. intros ->. done. }
      split.
      { intros z Hz. simpl in Hz. apply not_elem_of_cons in Hz as [Hzy Hz].
        rewrite (Hout z); [|simpl; exact Hz]. simpl. by rewrite lookup_insert_ne. }
      exact Hrest.
Qed.

(** X4: dropping a once-resumption.  For a non-null handle [h] with bit 2
    clear that holds a prompt with record [pr]: while other references
    remain ([refcount > 1]) [mp_resume_drop] only takes one reference and
    gives no stacklet back; at the last reference it frees the whole
    captured sub-chain: walking from [p->top] along [parent] it gives back
    the stacklet of every prompt exactly once, deepest child first, without
    delay, and takes from every prompt after the first the reference its
    child held.  It never touches [parent], [top], the current top, the
    multi-shot records or the snapshots. *)
Theorem mp_resume_drop_once (fuel : nat) (s : state) (h : Z) (pr : mp_prompt_s) :
  Z.land h 4 = 0 → h ≠ NULL →
  prompts s !! h = Some pr →
  (1 < p_refcount pr →
     mp_resume_drop fuel h s = Done tt (with_prompts (insert h (drop_refcount pr)) s)) ∧
  (p_refcount pr ≤ 1 →
     ∀ l, chain (prompts s) (p_top pr) l → (length l ≤ fuel)%nat →
     ∃ s' evs,
       mp_resume_drop fuel h s = Done tt s' ∧
       trace s' = trace s ++ evs ∧
       Forall2 (frees_stacklet_of s false) l evs ∧
       same_shape (prompts s) (prompts s') ∧
       (∀ y, y ≠ h → y ∉ tail l → prompts s' !! y = prompts s !! y) ∧
       _mp_prompt_top s' = _mp_prompt_top s ∧ mresumes s' = mresumes s ∧
       saves s' = saves s).
Proof.
  intros Hbit Hnz Hp.
  assert (mp_resume_drop fuel h s = mp_prompt_drop fuel h s) as Hdisp.
  { unfold mp_resume_drop. rewrite (mp_resume_is_once_once h Hbit).
    destruct (h =? 0) eqn:E; [lia|done]. }
  rewrite Hdisp. unfold mp_prompt_drop, mp_prompt_drop_internal.
  rewrite (mbind_done _ _ _ _ _ (load_prompt_done _ _ _ Hp)).
  rewrite (mbind_done _ _ _ _ _ (store_prompt_done _ _ _ _ Hp)).
  split.
  - intros Hrc. destruct (p_refcount pr <=? 1) eqn:E; [lia|]. reflexivity.
  - intros Hrc l Hc Hf. destruct (p_refcount pr <=? 1) eqn:E; [|lia].
    set (s0 := with_prompts (insert h (set_p_refcount (intptr_wrap (p_refcount pr - 1)) pr)) s).
    assert (same_shape (prompts s) (prompts s0)) as Hsh0.
    { simpl. by eapply same_shape_insert. }
    destruct (mp_prompt_free_loop_spec false l fuel (p_top pr) s0)
      as (s' & evs & Hrun & Htr & Hall & Hin & Hout & Htop & Hmr & Hsv & _).
    { by eapply chain_same_shape. }
    { exact Hf. }
    exists s', evs.
    split.
    { unfold mp_prompt_free.
      erewrite (mbind_done (load_prompt h));
        [|apply load_prompt_done; simpl; apply lookup_insert_eq].
      exact Hrun. }
    split; [exact Htr|].
    split.
    { eapply Forall2_impl; [exact Hall|]. intros z e.
      apply frees_stacklet_of_shape. intros w wr'. simpl.
      by apply drop_refcount_insert_gstack. }
    split.
    { eapply same_shape_trans; [exact Hsh0|].
      by destruct (mp_prompt_free_loop_shape _ _ _ _ _ Hrun). }
    split.
    { intros y Hyh Hy. rewrite (Hout y Hy). simpl. by rewrite lookup_insert_ne. }
    by repeat split.
Qed.

Lemma mp_resume_drop_once_witness :
  Z.land 64 4 = 0 ∧ 64 ≠ NULL ∧
  prompts st_yielded !! 64 = Some (mk_prompt NULL 192 1 4096 1024 13000) ∧
  ∃ s' evs,
    mp_resume_drop 3 64 st_yielded = Done tt s' ∧
    trace s' = trace st_yielded ++ evs ∧
    Forall2 (frees_stacklet_of st_yielded false) [192; 128; 64] evs.
Proof.
  split; [reflexivity|]. split; [lia|]. split; [reflexivity|].
  destruct (mp_resume_drop_once 3 st_yielded 64 (mk_prompt NULL 192 1 4096 1024 13000))
    as [_ Hlast]; [reflexivity | lia | reflexivity |].
  destruct (Hlast ltac:(simpl; lia) [192; 128; 64])
    as (s' & evs & H1 & H2 & H3 & _).
  - simpl.
    econstructor; [done | reflexivity |]. simpl.
    econstructor; [done | reflexivity |]. simpl.
    econstructor; [done | reflexivity |]. simpl. constructor.
  - simpl. lia.
  - exists s', evs. repeat split; assumption.
Defined.

(** ** Reference counts *)

Lemma mp_mresume_dup_done s r m :
  mresumes s !! r = Some m →
  mp_mresume_dup r s =
    Done r (with_mresumes (insert r (set_r_refcount (intptr_wrap (r_refcount m + 1)) m)) s).
Proof.
  intros Hr. unfold mp_mresume_dup.
  rewrite (mbind_done _ _ _ _ _ (load_mresume_done _ _ _ Hr)).
  by rewrite (mbind_done _ _ _ _ _ (store_mresume_done _ _ _ _ Hr)).
Qed.

(** X5: a duplicate that is dropped again leaves no mark.  For a prompt
    with at least one reference, and for a multi-shot handle whose record
    has at least one owner (counts below the largest [intptr_t]),
    taking a reference and then dropping it gives back exactly the state
    before: nothing is freed, no count has moved.  On a handle the
    duplicate is the handle itself. *)
Theorem dup_drop_round_trip (fuel : nat) (s : state) :
  (∀ p pr, prompts s !! p = Some pr → 1 ≤ p_refcount pr < 2 ^ 63 - 1 →
     (let* q := mp_prompt_dup p in mp_prompt_drop fuel q) s = Done tt s) ∧
  (∀ h m, Z.land h 4 ≠ 0 → mp_resume_is_multi h ≠ NULL →
     mresumes s !! mp_resume_is_multi h = Some m →
     1 ≤ r_refcount m < 2 ^ 63 - 1 →
     (∃ s1, mp_resume_dup h s = Done h s1) ∧
     (let* h' := mp_resume_dup h in mp_resume_drop fuel h') s = Done tt s).
Proof.
  split.
  - intros p pr Hp Hrc.
    rewrite (mbind_done _ _ _ _ _ (mp_prompt_dup_done _ _ _ Hp)).
    unfold mp_prompt_drop, mp_prompt_drop_internal.
    erewrite (mbind_done (load_prompt p));
      [|apply load_prompt_done; simpl; apply lookup_insert_eq].
    erewrite (mbind_done (store_prompt p _));
      [|apply store_prompt_done; simpl; apply lookup_insert_eq].
    unfold bump_refcount. cbn [p_refcount set_p_refcount].
    rewrite (intptr_wrap_id (p_refcount pr + 1)) by lia.
    destruct (p_refcount pr + 1 <=? 1) eqn:E; [lia|].
    unfold mreturn. f_equal.
    replace (p_refcount pr + 1 - 1) with (p_refcount pr) by lia.
    rewrite intptr_wrap_id by lia.
    destruct s as [ps rps sps ms svs top hn tr]. unfold with_prompts. simpl in *.
    f_equal. rewrite insert_insert_eq. apply insert_id. rewrite Hp. f_equal.
    by destruct pr.
  - intros h m Hbit Hnz Hr Hrc.
    assert (mp_resume_dup h s =
            Done h (with_mresumes (insert (mp_resume_is_multi h)
                     (set_r_refcount (intptr_wrap (r_refcount m + 1)) m)) s)) as Hdup.
    { unfold mp_resume_dup. destruct (mp_resume_is_multi h =? 0) eqn:E; [lia|].
      by rewrite (mbind_done _ _ _ _ _ (mp_mresume_dup_done _ _ _ Hr)). }
    split; [eauto|].
    rewrite (mbind_done _ _ _ _ _ Hdup).
    unfold mp_resume_drop.
    assert (mp_resume_is_once h = NULL) as ->.
    { unfold mp_resume_is_once. destruct (Z.land h 4 =? 0) eqn:E; [lia|done]. }
    simpl (0 =? 0). cbv iota.
    erewrite mp_mresume_drop_shared;
      [|simpl; apply lookup_insert_eq | simpl; rewrite intptr_wrap_id; lia].
    f_equal. cbn [r_refcount set_r_refcount].
    rewrite (intptr_wrap_id (r_refcount m + 1)) by lia.
    replace (r_refcount m + 1 - 1) with (r_refcount m) by lia.
    rewrite intptr_wrap_id by lia.
    destruct s as [ps rps sps ms svs top hn tr]. unfold with_mresumes. simpl in *.
    f_equal. rewrite insert_insert_eq. apply insert_id. rewrite Hr. f_equal.
    by destruct m.
Qed.

Lemma dup_drop_round_trip_witness :
  (let* q := mp_prompt_dup 64 in mp_prompt_drop 3 q) st_multi = Done tt st_multi ∧
  (let* h' := mp_resume_dup 20004 in mp_resume_drop 3 h') st_multi = Done tt st_multi.
Proof.
  destruct (dup_drop_round_trip 3 st_multi) as [Hp Hh]. split.
  - apply (Hp 64 (mk_prompt NULL 192 1 4096 1024 13000)); [reflexivity|].
    simpl. lia.
  - apply (Hh 20004 {| r_refcount := 2; r_resume_count := 0; r_prompt := 64;
                       r_save := NULL; r_tail_return_point := 1024 |}).
    + vm_compute. discriminate.
    + vm_compute. discriminate.
    + reflexivity.
    + simpl. lia.
Defined.

(** ** Yielding *)

Lemma store_return_point_done s a rp f :
  return_points s !! a = Some rp →
  store_return_point a f s = Done tt (with_return_points (insert a (f rp)) s).
Proof. unfold store_return_point. by intros ->. Qed.

Lemma mp_yield_internal_exit rkind s p fn arg res jb pr rp :
  prompts s !! p = Some pr →
  return_points s !! p_return_point pr = Some rp →
  mp_yield_internal rkind p fn arg res jb s =
    Exit (ExLongjmp (p_return_point pr)) (yield_state s rkind p fn arg res jb pr rp).
Proof.
  intros Hp Hrp. unfold mp_yield_internal.
  rewrite (mbind_done (setjmp_resume_point _ _) _ _ tt _ eq_refl).
  erewrite (mbind_done (mp_prompt_unlink _ _));
    [|apply mp_prompt_unlink_done; simpl; exact Hp].
  cbv beta.
  erewrite (mbind_done (store_return_point _ _));
    [|apply store_return_point_done; simpl; exact Hrp].
  erewrite (mbind_done (store_return_point _ _));
    [|apply store_return_point_done; simpl; apply lookup_insert_eq].
  erewrite (mbind_done (store_return_point _ _));
    [|apply store_return_point_done; simpl; apply lookup_insert_eq].
  unfold mp_longjmp, mexit. f_equal.
  unfold yield_state, with_return_points, unlink_state, with_resume_points. simpl.
  f_equal. { by rewrite !insert_insert_eq. }
  f_equal. f_equal. by destruct (resume_points s !! res).
Qed.

(** X6: a yield reaches the receiver with its function and argument.
    When the prompt [p] has a readable return point, [mp_yield p fn arg]
    saves the resume point, unlinks [p] (the current top becomes
    [p->parent], [p->top] the former top) and jumps to [p->return_point];
    run from there, [mp_prompt_exec_yield_fun] calls [fn] on the
    once-handle of [p] and on [arg], in the very state of the jump.
    [mp_yieldm] does the same with a multi-shot handle: the receiver calls
    [fn] on the handle of a new record for [p] with one owner, no resume
    yet, no snapshot, and the return point just jumped to as its
    [tail_return_point]. *)
Theorem mp_yield_reaches_receiver (call_yield_fun : ptr → Z → Z → M Z) (fuel : nat)
    (s : state) (p fn : ptr) (arg : Z) (res : ptr) (jb : mp_jmpbuf_t)
    (pr : mp_prompt_s) (rp : mp_return_point_t) :
  prompts s !! p = Some pr →
  return_points s !! p_return_point pr = Some rp →
  (∃ s1 pr1 rs1,
     mp_yield p fn arg res jb s = Exit (ExLongjmp (p_return_point pr)) s1 ∧
     _mp_prompt_top s1 = p_parent pr ∧
     prompts s1 !! p = Some pr1 ∧ p_top pr1 = _mp_prompt_top s ∧
     p_parent pr1 = NULL ∧ p_resume_point pr1 = res ∧
     p_return_point pr1 = p_return_point pr ∧
     resume_points s1 !! res = Some rs1 ∧ res_jmp rs1 = jb ∧
     mp_prompt_exec_yield_fun call_yield_fun fuel (p_return_point pr) p s1 =
       call_yield_fun fn (mp_resume_once p) arg s1) ∧
  (∃ s1 s2,
     mp_yieldm p fn arg res jb s = Exit (ExLongjmp (p_return_point pr)) s1 ∧
     mp_prompt_exec_yield_fun call_yield_fun fuel (p_return_point pr) p s1 =
       call_yield_fun fn (mp_resume_multi (heap_next s)) arg s2 ∧
     mresumes s2 !! heap_next s =
       Some {| r_refcount := 1; r_resume_count := 0; r_prompt := p; r_save := NULL;
               r_tail_return_point := p_return_point pr |} ∧
     prompts s2 = prompts s1 ∧ return_points s2 = return_points s1 ∧
     resume_points s2 = resume_points s1 ∧ _mp_prompt_top s2 = _mp_prompt_top s1 ∧
     trace s2 = trace s).
Proof.
  intros Hp Hrp. split.
  - eexists _, _, _.
    split; [unfold mp_yield; by apply mp_yield_internal_exit|].
    split; [reflexivity|]. split; [simpl; apply lookup_insert_eq|].
    repeat (split; [reflexivity|]).
    split; [simpl; apply lookup_insert_eq|]. split; [reflexivity|].
    unfold mp_prompt_exec_yield_fun.
    erewrite (mbind_done (load_return_point _));
      [|apply load_return_point_done; simpl; apply lookup_insert_eq].
    reflexivity.
  - eexists _, _.
    split; [unfold mp_yieldm; by apply mp_yield_internal_exit|].
    split.
    { unfold mp_prompt_exec_yield_fun.
      erewrite (mbind_done (load_return_point _));
        [|apply load_return_point_done; simpl; apply lookup_insert_eq].
      cbn [ret_kind ret_fun ret_arg].
      destruct (decide (MP_YIELD_MULTI = MP_YIELD_ONCE)) as [?|_]; [discriminate|].
      destruct (decide (MP_YIELD_MULTI = MP_RETURN)) as [?|_]; [discriminate|].
      destruct (decide (MP_YIELD_MULTI = MP_YIELD_MULTI)) as [_|?]; [|done].
      unfold mbind' at 1. unfold mp_malloc. cbv beta iota.
      erewrite (mbind_done (load_prompt p));
        [|apply load_prompt_done; simpl; apply lookup_insert_eq].
      rewrite (mbind_done (mmodify _) _ _ tt _ eq_refl).
      erewrite (mbind_done (load_return_point _));
        [|apply load_return_point_done; simpl; apply lookup_insert_eq].
      reflexivity. }
    simpl. split; [apply lookup_insert_eq|]. by repeat split.
Qed.

Lemma mp_yield_reaches_receiver_witness :
  prompts st_nested !! 64 = Some (mk_prompt NULL NULL 1 4096 1024 NULL) ∧
  ∃ s1, mp_yield 64 500 7 13000 {| reg_sp := 13000 |} st_nested =
          Exit (ExLongjmp 1024) s1 ∧
        mp_prompt_exec_yield_fun example_yield_fun 4 1024 64 s1 = Done 8 s1.
Proof.
  split; [reflexivity|].
  destruct (mp_yield_reaches_receiver example_yield_fun 4 st_nested 64 500 7 13000
              {| reg_sp := 13000 |} (mk_prompt NULL NULL 1 4096 1024 NULL)
              {| ret_jmp := {| reg_sp := 1000 |}; ret_kind := MP_RETURN;
                 ret_fun := NULL; ret_arg := 0 |})
    as [(s1 & pr1 & rs1 & H1 & _ & _ & _ & _ & _ & _ & _ & _ & H2) _];
    [reflexivity | reflexivity |].
  exists s1. split; [exact H1 | exact H2].
Defined.

(** ** Resuming after a yield *)

Lemma mp_resume_once_dispatch fuel p v frame jb s :
  Z.land p 4 = 0 → p ≠ NULL →
  mp_resume fuel (mp_resume_once p) v frame jb s = mp_prompt_resume p v frame jb s ∧
  mp_resume_tail fuel (mp_resume_once p) v frame jb s =
    (let* pr := load_prompt p in mp_prompt_resume_tail p v (p_return_point pr)) s.
Proof.
  intros Hbit Hnz. unfold mp_resume, mp_resume_tail, mp_resume_once.
  rewrite (mp_resume_is_once_once p Hbit). destruct (p =? 0) eqn:E; [lia|done].
Qed.

(** X7: a yield followed by a resume puts the chain back and delivers the
    value.  Let [p] be an active prompt with a readable return point, held
    through a non-null handle with bit 2 clear.  After [mp_yield p ...] has
    jumped to the receiver, [mp_resume] on the once-handle of [p] with the
    value [v] (from a frame at [frame]) jumps to the resume point that the
    yield saved, where the yield returns [v].  In that state the current
    top is what it was before the yield and the store of prompts is the one
    before the yield except that [p->return_point] is the new frame and
    [p->resume_point] the saved resume point; a return point has been
    written at the new frame, and the only call recorded is the update of
    the unwind frame. *)
Theorem mp_yield_resume_round_trip (fuel : nat) (s : state) (p fn : ptr) (arg : Z)
    (res : ptr) (jb : mp_jmpbuf_t) (v : Z) (frame : ptr) (jb' : mp_jmpbuf_t)
    (pr : mp_prompt_s) (rp : mp_return_point_t) :
  Z.land p 4 = 0 → p ≠ NULL → res ≠ NULL → frame ≠ NULL →
  prompts s !! p = Some pr → p_top pr = NULL →
  return_points s !! p_return_point pr = Some rp →
  ∃ s1 s2,
    mp_yield p fn arg res jb s = Exit (ExLongjmp (p_return_point pr)) s1 ∧
    mp_resume fuel (mp_resume_once p) v frame jb' s1 = Exit (ExLongjmp res) s2 ∧
    mp_yield_internal_resumed res s2 = Done v s2 ∧
    _mp_prompt_top s2 = _mp_prompt_top s ∧
    prompts s2 = <[p := set_p_resume_point res (set_p_return_point frame pr)]> (prompts s) ∧
    trace s2 = trace s ++ [EvUnwindFrameUpdate (p_unwind_frame pr) frame] ∧
    is_Some (return_points s2 !! frame) ∧
    mresumes s2 = mresumes s ∧ saves s2 = saves s ∧ heap_next s2 = heap_next s.
Proof.
  intros Hbit Hnz Hres Hframe Hp Htop Hrp.
  eexists _, _.
  split; [unfold mp_yield; by apply mp_yield_internal_exit|].
  destruct (mp_resume_once_dispatch fuel p v frame jb'
              (yield_state s MP_YIELD_ONCE p fn arg res jb pr rp) Hbit Hnz) as [-> _].
  split.
  { unfold mp_prompt_resume.
    rewrite (mbind_done (setjmp_return_point _ _) _ _ tt _ eq_refl).
    erewrite (mbind_done (mp_prompt_link _ _));
      [|apply mp_prompt_link_done; simpl; apply lookup_insert_eq].
    cbv beta. cbn [p_resume_point].
    destruct (res =? 0) eqn:E; [lia|]. change (negb false) with true. cbv iota.
    unfold mbind'.
    match goal with
    | |- context [store_resume_point ?a ?f ?st] =>
        erewrite (store_resume_point_done st a _ f) by (simpl; apply lookup_insert_eq)
    end.
    reflexivity. }
  split.
  { unfold mp_yield_internal_resumed, mbind', load_resume_point. simpl.
    by rewrite lookup_insert_eq. }
  split; [reflexivity|].
  split.
  { simpl. rewrite insert_insert_eq. f_equal.
    destruct (frame =? 0) eqn:E; [lia|].
    unfold set_p_resume_point, set_p_return_point. simpl. by rewrite Htop. }
  split. { simpl. destruct (frame =? 0) eqn:E; [lia|done]. }
  split. { simpl. rewrite lookup_insert_eq. eauto. }
  by repeat split.
Qed.

Lemma mp_yield_resume_round_trip_witness :
  prompts st_nested !! 64 = Some (mk_prompt NULL NULL 1 4096 1024 NULL) ∧
  ∃ s1 s2,
    mp_yield 64 500 7 13000 {| reg_sp := 13000 |} st_nested = Exit (ExLongjmp 1024) s1 ∧
    mp_resume 4 (mp_resume_once 64) 11 2048 {| reg_sp := 900 |} s1 =
      Exit (ExLongjmp 13000) s2 ∧
    mp_yield_internal_resumed 13000 s2 = Done 11 s2 ∧
    _mp_prompt_top s2 = 192.
Proof.
  split; [reflexivity|].
  destruct (mp_yield_resume_round_trip 4 st_nested 64 500 7 13000 {| reg_sp := 13000 |}
              11 2048 {| reg_sp := 900 |} (mk_prompt NULL NULL 1 4096 1024 NULL)
              {| ret_jmp := {| reg_sp := 1000 |}; ret_kind := MP_RETURN;
                 ret_fun := NULL; ret_arg := 0 |})
    as (s1 & s2 & H1 & H2 & H3 & H4 & _);
    [reflexivity | lia | lia | lia | reflexivity | reflexivity | reflexivity |].
  exists s1, s2. repeat split; assumption.
Defined.

(** X8: a yield followed by a tail resume uses no new return point.  Under
    the conditions of the round trip above, [mp_resume_tail] on the
    once-handle of [p] jumps to the saved resume point with the value [v],
    and links [p] with the return point it already had: the store of
    prompts is the one before the yield except for [p->resume_point], the
    current top is as before, and the store of return points has the same
    addresses as before the yield, the return point of [p] still carrying
    the yield.  The frame of the caller is not used. *)
Theorem mp_yield_resume_tail_round_trip (fuel : nat) (s : state) (p fn : ptr) (arg : Z)
    (res : ptr) (jb : mp_jmpbuf_t) (v : Z) (frame : ptr) (jb' : mp_jmpbuf_t)
    (pr : mp_prompt_s) (rp : mp_return_point_t) :
  Z.land p 4 = 0 → p ≠ NULL → p_return_point pr ≠ NULL →
  prompts s !! p = Some pr → p_top pr = NULL →
  return_points s !! p_return_point pr = Some rp →
  ∃ s1 s2,
    mp_yield p fn arg res jb s = Exit (ExLongjmp (p_return_point pr)) s1 ∧
    mp_resume_tail fuel (mp_resume_once p) v frame jb' s1 = Exit (ExLongjmp res) s2 ∧
    mp_yield_internal_resumed res s2 = Done v s2 ∧
    _mp_prompt_top s2 = _mp_prompt_top s ∧
    prompts s2 = <[p := set_p_resume_point res pr]> (prompts s) ∧
    return_points s2 = return_points s1 ∧
    dom (return_points s2) = dom (return_points s) ∧
    return_points s2 !! p_return_point pr =
      Some {| ret_jmp := ret_jmp rp; ret_kind := MP_YIELD_ONCE;
              ret_fun := fn; ret_arg := arg |} ∧
    trace s2 = trace s ++ [EvUnwindFrameUpdate (p_unwind_frame pr) (p_return_point pr)] ∧
    mresumes s2 = mresumes s ∧ saves s2 = saves s ∧ heap_next s2 = heap_next s.
Proof.
  intros Hbit Hnz Hret Hp Htop Hrp.
  eexists _, _.
  split; [unfold mp_yield; by apply mp_yield_internal_exit|].
  destruct (mp_resume_once_dispatch fuel p v frame jb'
              (yield_state s MP_YIELD_ONCE p fn arg res jb pr rp) Hbit Hnz) as [_ ->].
  split.
  { erewrite (mbind_done (load_prompt p));
      [|apply load_prompt_done; simpl; apply lookup_insert_eq].
    cbn [p_return_point].
    erewrite mp_prompt_resume_tail_exit; cycle 1;
      [simpl; apply lookup_insert_eq | simpl; apply lookup_insert_eq | reflexivity]. }
  split.
  { unfold mp_yield_internal_resumed, mbind', load_resume_point. simpl.
    by rewrite lookup_insert_eq. }
  split; [reflexivity|].
  split.
  { simpl. rewrite insert_insert_eq. f_equal.
    destruct (p_return_point pr =? 0) eqn:E; [lia|].
    unfold set_p_resume_point. simpl. rewrite Htop. by destruct pr. }
  split; [reflexivity|].
  split.
  { simpl. rewrite dom_insert_L.
    apply subseteq_union_1_L, singleton_subseteq_l, elem_of_dom. eauto. }
  split; [simpl; apply lookup_insert_eq|].
  split. { simpl. destruct (p_return_point pr =? 0) eqn:E; [lia|done]. }
  by repeat split.
Qed.

Lemma mp_yield_resume_tail_round_trip_witness :
  prompts st_nested !! 64 = Some (mk_prompt NULL NULL 1 4096 1024 NULL) ∧
  ∃ s1 s2,
    mp_yield 64 500 7 13000 {| reg_sp := 13000 |} st_nested = Exit (ExLongjmp 1024) s1 ∧
    mp_resume_tail 4 (mp_resume_once 64) 11 2048 {| reg_sp := 900 |} s1 =
      Exit (ExLongjmp 13000) s2 ∧
    dom (return_points s2) = dom (return_points st_nested).
Proof.
  split; [reflexivity|].
  destruct (mp_yield_resume_tail_round_trip 4 st_nested 64 500 7 13000
              {| reg_sp := 13000 |} 11 2048 {| reg_sp := 900 |}
              (mk_prompt NULL NULL 1 4096 1024 NULL)
              {| ret_jmp := {| reg_sp := 1000 |}; ret_kind := MP_RETURN;
                 ret_fun := NULL; ret_arg := 0 |})
    as (s1 & s2 & H1 & H2 & _ & _ & _ & _ & H3 & _);
    [reflexivity | lia | simpl; lia | reflexivity | reflexivity | reflexivity |].
  exists s1, s2. repeat split; assumption.
Defined.

(** ** Entering a fresh prompt and returning from it *)

Lemma mp_gstack_current_done s pr :
  _mp_prompt_top s ≠ NULL → prompts s !! _mp_prompt_top s = Some pr →
  mp_gstack_current s = Done (p_gstack pr) s.
Proof.
  intros Hnz Hp. unfold mp_gstack_current.
  rewrite (mbind_done mp_prompt_top _ _ _ _ eq_refl).
  destruct (_mp_prompt_top s =? 0) eqn:E; [lia|]. change (negb false) with true. cbv iota.
  by rewrite (mbind_done _ _ _ _ _ (load_prompt_done _ _ _ Hp)).
Qed.

(** X9: [mp_prompt] installs a fresh prompt and enters its stacklet.  If
    the stacklet allocator returned [NULL] the call is fatal with [ENOMEM]
    and has changed nothing.  Otherwise, with the prompt header at a
    non-null address [p] with bit 2 clear and the frame at a non-null
    address, control enters the new stacklet with the environment
    [(p, arg)]: [p] is the current top and its parent is the former top; it
    has one reference, no resume point, the caller's frame as return point,
    [mp_startc_fun] with the user function as start closure; the current
    stacklet is the new one; no other prompt has changed; and if [p] was a
    free address the chain invariant still holds with [p] on the chain.
    An empty chain has no current stacklet. *)
Theorem mp_prompt_enters (mp_startc_fun_addr : ptr) (fuel : nat) (s : state)
    (gstack p fn : ptr) (arg : Z) (frame : ptr) (jb : mp_jmpbuf_t) :
  (gstack = NULL →
     mp_prompt mp_startc_fun_addr fuel gstack p fn arg frame jb s =
       Exit (ExFatal ENOMEM ("unable to allocate a stack" ++ newline)) s) ∧
  (gstack ≠ NULL → Z.land p 4 = 0 → p ≠ NULL → frame ≠ NULL →
     ∃ s1,
       mp_prompt mp_startc_fun_addr fuel gstack p fn arg frame jb s =
         Exit (ExGstackEnter gstack p arg) s1 ∧
       prompts s1 !! p =
         Some {| p_parent := _mp_prompt_top s; p_top := NULL; p_refcount := 1;
                 p_gstack := gstack; p_return_point := frame; p_resume_point := NULL;
                 p_start_fun := mp_startc_fun_addr; p_start_arg := fn;
                 p_unwind_frame := NULL |} ∧
       _mp_prompt_top s1 = p ∧
       mp_gstack_current s1 = Done gstack s1 ∧
       (∀ q, q ≠ p → prompts s1 !! q = prompts s !! q) ∧
       trace s1 = trace s ++ [EvUnwindFrameUpdate NULL frame] ∧
       (prompt_chain_inv s → prompts s !! p = None →
        prompt_chain_inv s1 ∧ on_chain s1 p)) ∧
  (_mp_prompt_top s = NULL → mp_gstack_current s = Done NULL s).
Proof.
  split; [|split].
  - intros ->. reflexivity.
  - intros Hg Hbit Hnz Hframe.
    set (rec := {| p_parent := NULL; p_top := p; p_refcount := 1; p_gstack := gstack;
                   p_return_point := NULL; p_resume_point := NULL;
                   p_start_fun := mp_startc_fun_addr; p_start_arg := fn;
                   p_unwind_frame := NULL |}).
    set (s0 := with_prompts (insert p rec) s).
    set (sj := with_return_points (λ h,
                 <[frame := match h !! frame with
                            | Some r => {| ret_jmp := jb; ret_kind := ret_kind r;
                                           ret_fun := ret_fun r; ret_arg := ret_arg r |}
                            | None => {| ret_jmp := jb; ret_kind := MP_RETURN;
                                         ret_fun := NULL; ret_arg := 0 |}
                            end]> h) s0).
    assert (prompts sj !! p = Some rec) as Hrec by (simpl; apply lookup_insert_eq).
    exists (link_state sj p frame rec).
    assert (prompts (link_state sj p frame rec) !! p =
            Some {| p_parent := _mp_prompt_top s; p_top := NULL; p_refcount := 1;
                    p_gstack := gstack; p_return_point := frame; p_resume_point := NULL;
                    p_start_fun := mp_startc_fun_addr; p_start_arg := fn;
                    p_unwind_frame := NULL |}) as Hp1.
    { simpl. rewrite lookup_insert_eq. destruct (frame =? 0) eqn:E; [lia|done]. }
    split.
    { unfold mp_prompt, mp_prompt_create. destruct (gstack =? 0) eqn:E; [lia|].
      rewrite mbind_assoc.
      rewrite (mbind_done (mmodify _) _ _ tt _ eq_refl).
      rewrite (mbind_done (mreturn _) _ _ _ _ eq_refl).
      destruct (mp_resume_once_dispatch fuel p arg frame jb s0 Hbit Hnz) as [Hd _].
      change (mp_resume fuel (mp_resume_once p) arg frame jb s0 =
              Exit (ExGstackEnter gstack p arg) (link_state sj p frame rec)).
      rewrite Hd. unfold mp_prompt_resume.
      rewrite (mbind_done (setjmp_return_point _ _) _ _ tt _ eq_refl).
      rewrite (mbind_done _ _ _ _ _ (mp_prompt_link_done sj p frame rec Hrec)).
      cbv beta. simpl (p_resume_point rec =? 0). change (negb true) with false. cbv iota.
      by rewrite (mbind_done _ _ _ _ _ (load_prompt_done _ _ _ Hp1)). }
    split; [exact Hp1|]. split; [reflexivity|].
    split.
    { apply (mp_gstack_current_done (link_state sj p frame rec) _ Hnz Hp1). }
    split. { intros q Hq. simpl. by rewrite !lookup_insert_ne. }
    split. { simpl. destruct (frame =? 0) eqn:E; [lia|done]. }
    intros Hinv Hfresh.
    pose proof (prompt_chain_inv_create s gstack p mp_startc_fun_addr fn Hinv Hnz Hfresh)
      as Hinv0.
    assert (prompt_chain_inv sj) as Hinvj.
    { eapply prompt_chain_inv_same_shape; [| |exact Hinv0]; [apply same_shape_refl|done]. }
    apply prompt_chain_inv_link; [exact Hinvj | exact Hrec | done].
  - intros Htop. unfold mp_gstack_current.
    rewrite (mbind_done mp_prompt_top _ _ _ _ eq_refl). by rewrite Htop.
Qed.

Lemma mp_prompt_enters_witness :
  ∃ s1, mp_prompt 8 4 16384 256 600 5 2048 {| reg_sp := 900 |} st_nested =
          Exit (ExGstackEnter 16384 256 5) s1 ∧
        _mp_prompt_top s1 = 256 ∧
        mp_gstack_current s1 = Done 16384 s1.
Proof.
  destruct (mp_prompt_enters 8 4 st_nested 16384 256 600 5 2048 {| reg_sp := 900 |})
    as (_ & Henter & _).
  destruct Henter as (s1 & H1 & _ & H2 & H3 & _); [lia | reflexivity | lia | lia |].
  exists s1. repeat split; assumption.
Defined.

(** X10: a start function that returns delivers its result and the prompt
    is dropped.  Let the start closure, called by [mp_prompt_stack_entry]
    after the unwind frame was recorded in the prompt, return [v] in a
    state where [p] has record [pr1] and a readable return point.  Then the
    trampoline unlinks [p] with a null resume point, writes
    [kind = MP_RETURN], [fun = NULL], [arg = v] into the return point and
    jumps to it.  Run from there, [mp_prompt_exec_yield_fun] returns [v]
    after dropping [p]: with other references left it only takes one; at
    the last reference, when the start function returned on its own prompt
    ([p] was the current top), exactly the stacklet of [p] is given back,
    without delay, and the current top is the former parent of [p]. *)
Theorem mp_prompt_returns (call_start_fun : ptr → ptr → Z → Z → M Z)
    (call_yield_fun : ptr → Z → Z → M Z) (fuel : nat) (s : state) (p : ptr) (arg : Z)
    (uf : ptr) (pr : mp_prompt_s) (v : Z) (s1 : state) (pr1 : mp_prompt_s)
    (rp1 : mp_return_point_t) :
  p ≠ NULL →
  prompts s !! p = Some pr →
  call_start_fun (p_start_fun pr) p (p_start_arg pr) arg
    (with_prompts (insert p
       {| p_parent := p_parent pr; p_top := p_top pr; p_refcount := p_refcount pr;
          p_gstack := p_gstack pr; p_return_point := p_return_point pr;
          p_resume_point := p_resume_point pr; p_start_fun := p_start_fun pr;
          p_start_arg := p_start_arg pr; p_unwind_frame := uf |}) s) = Done v s1 →
  prompts s1 !! p = Some pr1 →
  return_points s1 !! p_return_point pr1 = Some rp1 →
  ∃ s2 pr2,
    mp_prompt_stack_entry call_start_fun p arg uf s =
      Exit (ExLongjmp (p_return_point pr1)) s2 ∧
    return_points s2 !! p_return_point pr1 =
      Some {| ret_jmp := ret_jmp rp1; ret_kind := MP_RETURN; ret_fun := NULL;
              ret_arg := v |} ∧
    _mp_prompt_top s2 = p_parent pr1 ∧
    prompts s2 !! p = Some pr2 ∧
    p_top pr2 = _mp_prompt_top s1 ∧ p_parent pr2 = NULL ∧ p_resume_point pr2 = NULL ∧
    trace s2 = trace s1 ∧
    (1 < p_refcount pr1 →
       mp_prompt_exec_yield_fun call_yield_fun fuel (p_return_point pr1) p s2 =
         Done v (with_prompts (insert p (drop_refcount pr2)) s2)) ∧
    (p_refcount pr1 ≤ 1 → _mp_prompt_top s1 = p → (1 ≤ fuel)%nat →
       ∃ s3,
         mp_prompt_exec_yield_fun call_yield_fun fuel (p_return_point pr1) p s2 =
           Done v s3 ∧
         trace s3 = trace s1 ++ [EvGstackFree (p_gstack pr1) false] ∧
         _mp_prompt_top s3 = p_parent pr1 ∧
         mresumes s3 = mresumes s2 ∧ saves s3 = saves s2).
Proof.
  intros Hnz Hp Hcall Hp1 Hrp1.
  set (ret := p_return_point pr1).
  set (pr2 := {| p_parent := NULL; p_top := _mp_prompt_top s1;
                 p_refcount := p_refcount pr1; p_gstack := p_gstack pr1;
                 p_return_point := p_return_point pr1; p_resume_point := NULL;
                 p_start_fun := p_start_fun pr1; p_start_arg := p_start_arg pr1;
                 p_unwind_frame := p_unwind_frame pr1 |}).
  set (s2 := with_return_points
               (insert ret {| ret_jmp := ret_jmp rp1; ret_kind := MP_RETURN;
                              ret_fun := NULL; ret_arg := v |})
               (unlink_state s1 p NULL pr1)).
  assert (prompts s2 !! p = Some pr2) as Hp2 by (simpl; apply lookup_insert_eq).
  assert (return_points s2 !! ret =
          Some {| ret_jmp := ret_jmp rp1; ret_kind := MP_RETURN; ret_fun := NULL;
                  ret_arg := v |}) as Hret2 by (simpl; apply lookup_insert_eq).
  exists s2, pr2.
  split.
  { unfold mp_prompt_stack_entry.
    rewrite (mbind_done _ _ _ _ _ (store_prompt_done _ _ _ _ Hp)).
    erewrite (mbind_done (load_prompt p));
      [|apply load_prompt_done; simpl; apply lookup_insert_eq].
    cbn [p_start_fun p_start_arg].
    rewrite (mbind_done _ _ _ _ _ Hcall).
    rewrite (mbind_done _ _ _ _ _ (mp_prompt_unlink_done _ _ NULL _ Hp1)).
    cbv beta.
    erewrite (mbind_done (store_return_point _ _));
      [|apply store_return_point_done; simpl; exact Hrp1].
    erewrite (mbind_done (store_return_point _ _));
      [|apply store_return_point_done; simpl; apply lookup_insert_eq].
    erewrite (mbind_done (store_return_point _ _));
      [|apply store_return_point_done; simpl; apply lookup_insert_eq].
    unfold mp_longjmp, mexit. f_equal.
    unfold s2, with_return_points, unlink_state. simpl. f_equal.
    by rewrite !insert_insert_eq. }
  split; [exact Hret2|]. split; [reflexivity|]. split; [exact Hp2|].
  repeat (split; [reflexivity|]).
  assert (mp_prompt_exec_yield_fun call_yield_fun fuel ret p s2 =
          (mp_prompt_drop fuel p;;; mreturn v) s2) as Hexec.
  { unfold mp_prompt_exec_yield_fun.
    rewrite (mbind_done _ _ _ _ _ (load_return_point_done _ _ _ Hret2)).
    cbn [ret_kind ret_arg].
    destruct (decide (MP_RETURN = MP_YIELD_ONCE)) as [?|_]; [discriminate|].
    destruct (decide (MP_RETURN = MP_RETURN)) as [_|?]; [done|done]. }
  split.
  - intros Hrc. rewrite Hexec.
    unfold mp_prompt_drop, mp_prompt_drop_internal.
    rewrite !mbind_assoc.
    rewrite (mbind_done _ _ _ _ _ (load_prompt_done _ _ _ Hp2)).
    rewrite mbind_assoc.
    rewrite (mbind_done _ _ _ _ _ (store_prompt_done _ _ _ _ Hp2)).
    cbn [p_refcount pr2]. destruct (p_refcount pr1 <=? 1) eqn:E; [lia|].
    reflexivity.
  - intros Hrc Htop Hfuel. destruct fuel as [|fuel]; [lia|].
    eexists. split.
    { rewrite Hexec.
      unfold mp_prompt_drop, mp_prompt_drop_internal.
      rewrite !mbind_assoc.
      rewrite (mbind_done _ _ _ _ _ (load_prompt_done _ _ _ Hp2)).
      rewrite mbind_assoc.
      rewrite (mbind_done _ _ _ _ _ (store_prompt_done _ _ _ _ Hp2)).
      cbn [p_refcount pr2]. destruct (p_refcount pr1 <=? 1) eqn:E; [|lia].
      unfold mp_prompt_free. rewrite !mbind_assoc.
      erewrite (mbind_done (load_prompt p));
        [|apply load_prompt_done; simpl; apply lookup_insert_eq].
      cbn [p_top set_p_refcount pr2]. rewrite Htop.
      cbn [mp_prompt_free_loop]. destruct (p =? 0) eqn:Ep; [lia|].
      rewrite !mbind_assoc.
      erewrite (mbind_done (load_prompt p));
        [|apply load_prompt_done; simpl; apply lookup_insert_eq].
      cbn [p_parent p_gstack set_p_refcount pr2].
      unfold mp_gstack_free. rewrite !mbind_assoc.
      rewrite (mbind_done (emit _) _ _ tt _ eq_refl).
      simpl (0 =? 0). cbv iota.
      rewrite !mbind_assoc.
      rewrite (mbind_done (mreturn tt) _ _ tt _ eq_refl).
      assert (∀ st, mp_prompt_free_loop fuel 0 false st = Done tt st) as Hloop
        by (intros st; by destruct fuel).
      rewrite (mbind_done _ _ _ _ _ (Hloop _)).
      reflexivity. }
    by repeat split.
Qed.

Lemma mp_prompt_returns_witness :
  prompts st_nested !! 192 = Some (mk_prompt 128 NULL 1 12288 1056 NULL) ∧
  ∃ s2 s3,
    mp_prompt_stack_entry example_start_fun 192 21 NULL st_nested =
      Exit (ExLongjmp 1056) s2 ∧
    mp_prompt_exec_yield_fun example_yield_fun 4 1056 192 s2 = Done 42 s3 ∧
    trace s3 = [EvGstackFree 12288 false] ∧ _mp_prompt_top s3 = 128.
Proof.
  split; [reflexivity|].
  destruct (mp_prompt_returns example_start_fun example_yield_fun 4 st_nested 192 21 NULL
              (mk_prompt 128 NULL 1 12288 1056 NULL) 42
              (with_prompts (insert 192 (mk_prompt 128 NULL 1 12288 1056 NULL)) st_nested)
              (mk_prompt 128 NULL 1 12288 1056 NULL)
              {| ret_jmp := {| reg_sp := 9000 |}; ret_kind := MP_RETURN;
                 ret_fun := NULL; ret_arg := 0 |})
    as (s2 & pr2 & H1 & _ & _ & _ & _ & _ & _ & _ & _ & Hlast);
    [lia | reflexivity | reflexivity | reflexivity | reflexivity |].
  destruct Hlast as (s3 & H2 & H3 & H4 & _); [simpl; lia | reflexivity | lia |].
  exists s2, s3. repeat split; assumption.
Defined.

(** ** What a resume does to the multi-shot records *)

Lemma keeps_other_records_refl r s : keeps_other_records r s s.
Proof. split; [done|]. eauto. Qed.

Lemma keeps_other_records_trans r s1 s2 s3 :
  keeps_other_records r s1 s2 → keeps_other_records r s2 s3 → keeps_other_records r s1 s3.
Proof.
  intros [H1 H1'] [H2 H2']. split.
  - intros r' Hr'. by rewrite H2, H1.
  - intros m3 Hm3. destruct (H2' m3 Hm3) as (m2 & Hm2 & E2 & E2').
    destruct (H1' m2 Hm2) as (m1 & Hm1 & E1 & E1'). exists m1.
    split; [done|]. split; congruence.
Qed.

Lemma framed_all_bind r {A B} (c : M A) (k : A → M B) :
  framed_all (keeps_other_records r) c →
  (∀ a, framed_all (keeps_other_records r) (k a)) →
  framed_all (keeps_other_records r) (mbind' c k).
Proof.
  intros Hc Hk s. unfold mbind'. specialize (Hc s).
  destruct (c s) as [a s1|e s1| |]; try done.
  specialize (Hk a s1). destruct (k a s1) as [b s2|e s2| |]; try done;
    by eapply keeps_other_records_trans.
Qed.

Lemma framed_all_same r {A} (c : M A) :
  (∀ s, match c s with
        | Done _ s' => mresumes s' = mresumes s
        | Exit _ s' => mresumes s' = mresumes s
        | _ => True
        end) →
  framed_all (keeps_other_records r) c.
Proof.
  intros H s. specialize (H s). destruct (c s) as [a s'|e s'| |]; try done;
    (split; [intros r' _; by rewrite H | intros m'; rewrite H; eauto]).
Qed.

Ltac framed_all_prim :=
  apply framed_all_same; intros s; cbv beta iota delta
    [mreturn mexit mundef mfuel mmodify mget load_prompt store_prompt load_return_point
     load_resume_point store_resume_point store_return_point load_mresume load_save emit
     mp_malloc mp_free_save mp_longjmp mp_fatal_message mp_unreachable mp_prompt_top
     setjmp_return_point setjmp_resume_point mbind'];
  repeat case_match; simplify_eq; done.

Lemma framed_all_mreturn r {A} (a : A) : framed_all (keeps_other_records r) (mreturn a).
Proof. framed_all_prim. Qed.
Lemma framed_all_mexit r {A} e : framed_all (keeps_other_records r) (@mexit A e).
Proof. framed_all_prim. Qed.
Lemma framed_all_mfuel r {A} : framed_all (keeps_other_records r) (@mfuel A).
Proof. framed_all_prim. Qed.
Lemma framed_all_load_prompt r p : framed_all (keeps_other_records r) (load_prompt p).
Proof. framed_all_prim. Qed.
Lemma framed_all_store_prompt r p f : framed_all (keeps_other_records r) (store_prompt p f).
Proof. framed_all_prim. Qed.
Lemma framed_all_load_mresume r a : framed_all (keeps_other_records r) (load_mresume a).
Proof. framed_all_prim. Qed.
Lemma framed_all_load_save r a : framed_all (keeps_other_records r) (load_save a).
Proof. framed_all_prim. Qed.
Lemma framed_all_load_return_point r a :
  framed_all (keeps_other_records r) (load_return_point a).
Proof. framed_all_prim. Qed.
Lemma framed_all_load_resume_point r a :
  framed_all (keeps_other_records r) (load_resume_point a).
Proof. framed_all_prim. Qed.
Lemma framed_all_store_resume_point r a f :
  framed_all (keeps_other_records r) (store_resume_point a f).
Proof. framed_all_prim. Qed.
Lemma framed_all_emit r e : framed_all (keeps_other_records r) (emit e).
Proof. framed_all_prim. Qed.
Lemma framed_all_mp_malloc r : framed_all (keeps_other_records r) mp_malloc.
Proof. framed_all_prim. Qed.
Lemma framed_all_with_saves r f : framed_all (keeps_other_records r) (mmodify (with_saves f)).
Proof. framed_all_prim. Qed.
Lemma framed_all_with_top r v : framed_all (keeps_other_records r) (mmodify (with_top v)).
Proof. framed_all_prim. Qed.
Lemma framed_all_mp_prompt_top r : framed_all (keeps_other_records r) mp_prompt_top.
Proof. framed_all_prim. Qed.
Lemma framed_all_setjmp_return_point r a jb :
  framed_all (keeps_other_records r) (setjmp_return_point a jb).
Proof. framed_all_prim. Qed.

Lemma framed_all_store_mresume r f :
  (∀ m, r_resume_count (f m) = r_resume_count m ∧ r_prompt (f m) = r_prompt m) →
  framed_all (keeps_other_records r) (store_mresume r f).
Proof.
  intros Hf s. unfold store_mresume.
  destruct (mresumes s !! r) as [m|] eqn:Hr; [|done].
  split; simpl.
  - intros r' Hr'. by rewrite lookup_insert_ne.
  - intros m'. rewrite lookup_insert_eq. intros [= <-]. exists m.
    split; [done|]. apply Hf.
Qed.

Lemma framed_all_mp_free_mresume r : framed_all (keeps_other_records r) (mp_free_mresume r).
Proof.
  intros s. unfold mp_free_mresume, mmodify. split; simpl.
  - intros r' Hr'. by rewrite lookup_delete_ne.
  - intros m'. by rewrite lookup_delete_eq.
Qed.

Create HintDb framed_all discriminated.

#[local] Hint Resolve framed_all_mreturn framed_all_mexit framed_all_mfuel
  framed_all_load_prompt framed_all_store_prompt framed_all_load_mresume
  framed_all_load_save framed_all_load_return_point framed_all_load_resume_point
  framed_all_store_resume_point framed_all_emit framed_all_mp_malloc
  framed_all_with_saves framed_all_with_top framed_all_mp_prompt_top
  framed_all_setjmp_return_point framed_all_mp_free_mresume : framed_all.

Ltac framed_all_auto :=
  repeat first
    [ solve [auto 1 with framed_all nocore]
    | simple apply framed_all_store_mresume; intros []; split; reflexivity
    | simple apply framed_all_bind; [|intros ?]
    | match goal with
      | |- framed_all _ (if ?b then _ else _) => destruct b
      | |- framed_all _ (match ?x with _ => _ end) => destruct x
      end ].

Lemma framed_all_mp_prompt_free_loop r delay fuel :
  ∀ p, framed_all (keeps_other_records r) (mp_prompt_free_loop fuel p delay).
Proof.
  induction fuel as [|fuel IH]; intros p; cbn [mp_prompt_free_loop];
    unfold mp_gstack_free; framed_all_auto.
Qed.

#[local] Hint Resolve framed_all_mp_prompt_free_loop : framed_all.

Lemma framed_all_mp_prompt_drop r fuel p :
  framed_all (keeps_other_records r) (mp_prompt_drop fuel p).
Proof.
  unfold mp_prompt_drop, mp_prompt_drop_internal, mp_prompt_free. framed_all_auto.
Qed.

#[local] Hint Resolve framed_all_mp_prompt_drop : framed_all.

Lemma framed_all_mp_mresume_drop_loop r fuel :
  ∀ a, framed_all (keeps_other_records r) (mp_mresume_drop_loop fuel a).
Proof.
  induction fuel as [|fuel IH]; intros a; cbn [mp_mresume_drop_loop];
    unfold mp_gsave_free, mp_free_save; framed_all_auto.
Qed.

#[local] Hint Resolve framed_all_mp_mresume_drop_loop : framed_all.

Lemma framed_all_mp_mresume_drop r fuel :
  framed_all (keeps_other_records r) (mp_mresume_drop fuel r).
Proof. unfold mp_mresume_drop. framed_all_auto. Qed.

#[local] Hint Resolve framed_all_mp_mresume_drop : framed_all.

Lemma framed_all_mp_prompt_restore_loop r fuel :
  ∀ a, framed_all (keeps_other_records r) (mp_prompt_restore_loop fuel a).
Proof.
  induction fuel as [|fuel IH]; intros a; cbn [mp_prompt_restore_loop];
    unfold mp_gsave_restore; framed_all_auto.
Qed.

#[local] Hint Resolve framed_all_mp_prompt_restore_loop : framed_all.

Lemma framed_all_mp_prompt_save_loop r fuel :
  ∀ p sp savep, framed_all (keeps_other_records r) (mp_prompt_save_loop fuel p sp savep).
Proof.
  induction fuel as [|fuel IH]; intros p sp savep; cbn [mp_prompt_save_loop];
    unfold mp_prompt_dup, mp_gstack_save; framed_all_auto.
Qed.

#[local] Hint Resolve framed_all_mp_prompt_save_loop : framed_all.

Lemma framed_all_mp_resume_get_prompt r fuel :
  framed_all (keeps_other_records r) (mp_resume_get_prompt fuel r).
Proof.
  unfold mp_resume_get_prompt, mp_prompt_restore, mp_prompt_save, mp_prompt_dup.
  framed_all_auto.
Qed.

#[local] Hint Resolve framed_all_mp_resume_get_prompt : framed_all.

Lemma framed_all_mp_prompt_link r p ret :
  framed_all (keeps_other_records r) (mp_prompt_link p ret).
Proof. unfold mp_prompt_link, mp_unwind_frame_update. framed_all_auto. Qed.

#[local] Hint Resolve framed_all_mp_prompt_link : framed_all.

Lemma framed_all_mp_prompt_resume r p arg ret jb :
  framed_all (keeps_other_records r) (mp_prompt_resume p arg ret jb).
Proof. unfold mp_prompt_resume, mp_longjmp. framed_all_auto. Qed.

Lemma framed_all_mp_prompt_resume_tail r p arg ret :
  framed_all (keeps_other_records r) (mp_prompt_resume_tail p arg ret).
Proof. unfold mp_prompt_resume_tail, mp_longjmp. framed_all_auto. Qed.

#[local] Hint Resolve framed_all_mp_prompt_resume framed_all_mp_prompt_resume_tail
  : framed_all.

Lemma mp_mresume_counts fuel s r m arg ret jb :
  mresumes s !! r = Some m →
  after (mp_mresume fuel r arg ret jb s)
    (keeps_other_records r
       (with_mresumes (insert r (set_r_resume_count (long_wrap (r_resume_count m + 1)) m)) s)).
Proof.
  intros Hr. unfold mp_mresume.
  rewrite (mbind_done _ _ _ _ _ (load_mresume_done _ _ _ Hr)).
  rewrite (mbind_done _ _ _ _ _ (store_mresume_done _ _ _ _ Hr)).
  assert (framed_all (keeps_other_records r)
            (let* p := mp_resume_get_prompt fuel r in mp_prompt_resume p arg ret jb)) as Hf
    by framed_all_auto.
  exact (Hf _).
Qed.

Lemma mp_mresume_tail_counts fuel s r m arg frame jb :
  mresumes s !! r = Some m →
  after (mp_mresume_tail fuel r arg frame jb s)
    (λ s', (∀ r', r' ≠ r → mresumes s' !! r' = mresumes s !! r') ∧
           ∀ m', mresumes s' !! r = Some m' →
                 r_resume_count m' = long_wrap (r_resume_count m + 1) ∧
                 r_prompt m' = r_prompt m).
Proof.
  intros Hr. unfold mp_mresume_tail.
  rewrite (mbind_done _ _ _ _ _ (load_mresume_done _ _ _ Hr)).
  destruct (r_tail_return_point m =? NULL).
  - pose proof (mp_mresume_counts fuel s r m arg frame jb Hr) as H.
    destruct (mp_mresume fuel r arg frame jb s) as [v s'|e s'| |]; try done;
      destruct H as [H1 H2]; (split;
        [ intros r' Hr'; rewrite (H1 r' Hr'); simpl; by rewrite lookup_insert_ne
        | intros m' Hm'; destruct (H2 m' Hm') as (m0 & Hm0 & -> & ->);
          simpl in Hm0; rewrite lookup_insert_eq in Hm0; by injection Hm0 as <- ]).
  - rewrite (mbind_done _ _ _ _ _ (store_mresume_done _ _ _ _ Hr)).
    set (s0 := with_mresumes (insert r (set_r_tail_return_point NULL m)) s).
    assert (mresumes s0 !! r = Some (set_r_tail_return_point NULL m)) as Hr0
      by (simpl; apply lookup_insert_eq).
    rewrite (mbind_done _ _ _ _ _ (load_mresume_done _ _ _ Hr0)).
    rewrite (mbind_done _ _ _ _ _ (store_mresume_done _ _ _ _ Hr0)).
    assert (framed_all (keeps_other_records r)
              (let* p := mp_resume_get_prompt fuel r in
               mp_prompt_resume_tail p arg (r_tail_return_point m))) as Hf
      by framed_all_auto.
    match goal with |- after (?c ?st) _ => pose proof (Hf st) as H; fold c in H end.
    match type of H with
    | match ?o with _ => _ end => destruct o as [v s'|e s'| |]
    end; try done; destruct H as [H1 H2]; (split;
        [ intros r' Hr'; rewrite (H1 r' Hr'); simpl; by rewrite !lookup_insert_ne
        | intros m' Hm'; destruct (H2 m' Hm') as (m0 & Hm0 & -> & ->);
          simpl in Hm0; rewrite lookup_insert_eq in Hm0; by injection Hm0 as <- ]).
Qed.

(** X11: a multi-shot record counts its resumes.  For an 8-byte aligned
    record [r] with handle [h = mp_resume_multi r]: [mp_resume_resume_count]
    reads [r->resume_count]; however [mp_resume] or [mp_resume_tail] on [h]
    ends (by returning or by jumping away), every other record is exactly
    as before, and [r], if it is still allocated, has the same prompt and
    a count that is one higher (wrapping as a [long]), which
    [mp_resume_resume_count] then reports; [mp_resume_dup] returns [h] and
    leaves the count alone. *)
Theorem mp_resume_counts_resumes (fuel : nat) (s : state) (r : ptr) (m : mp_mresume_t)
    (arg : Z) (frame : ptr) (jb : mp_jmpbuf_t) :
  r mod 8 = 0 → r ≠ NULL → mresumes s !! r = Some m →
  let h := mp_resume_multi r in
  let counted := λ s',
    (∀ r', r' ≠ r → mresumes s' !! r' = mresumes s !! r') ∧
    (∀ m', mresumes s' !! r = Some m' →
           r_prompt m' = r_prompt m ∧
           mp_resume_resume_count h s' = Done (long_wrap (r_resume_count m + 1)) s') in
  mp_resume_resume_count h s = Done (r_resume_count m) s ∧
  after (mp_resume fuel h arg frame jb s) counted ∧
  after (mp_resume_tail fuel h arg frame jb s) counted ∧
  ∃ s', mp_resume_dup h s = Done h s' ∧
        mp_resume_resume_count h s' = Done (r_resume_count m) s'.
Proof.
  intros Hal Hnz Hr h counted.
  destruct (mp_resume_multi_is_multi r (aligned_bit2 r Hal)) as [Hm Ho]. fold h in Hm, Ho.
  assert (∀ s' m', mresumes s' !! r = Some m' →
            mp_resume_resume_count h s' = Done (r_resume_count m') s') as Hcount.
  { intros s' m' Hm'. unfold mp_resume_resume_count. rewrite Hm.
    destruct (r =? NULL) eqn:E; [lia|].
    by rewrite (mbind_done _ _ _ _ _ (load_mresume_done _ _ _ Hm')). }
  split; [by apply Hcount|].
  assert (∀ {A} (o : res A),
            after o (λ s', (∀ r', r' ≠ r → mresumes s' !! r' = mresumes s !! r') ∧
                           ∀ m', mresumes s' !! r = Some m' →
                                 r_resume_count m' = long_wrap (r_resume_count m + 1) ∧
                                 r_prompt m' = r_prompt m) →
            after o counted) as Hup.
  { intros A o Ho'. destruct o as [v s'|e s'| |]; try done;
      destruct Ho' as [H1 H2]; (split; [done|]);
      intros m' Hm'; destruct (H2 m' Hm') as [Hc Hp]; (split; [done|]);
      by rewrite (Hcount _ _ Hm'), Hc. }
  split; [|split].
  - unfold mp_resume. rewrite Ho, Hm. change (NULL =? NULL) with true. cbv iota.
    apply Hup.
    pose proof (mp_mresume_counts fuel s r m arg frame jb Hr) as H.
    destruct (mp_mresume fuel r arg frame jb s) as [v s'|e s'| |]; try done;
      destruct H as [H1 H2]; (split;
        [ intros r' Hr'; rewrite (H1 r' Hr'); simpl; by rewrite lookup_insert_ne
        | intros m' Hm'; destruct (H2 m' Hm') as (m0 & Hm0 & -> & ->);
          simpl in Hm0; rewrite lookup_insert_eq in Hm0; by injection Hm0 as <- ]).
  - unfold mp_resume_tail. rewrite Ho, Hm. change (NULL =? NULL) with true. cbv iota.
    apply Hup. by apply mp_mresume_tail_counts.
  - unfold mp_resume_dup. rewrite Hm.
    destruct (r =? NULL) eqn:E; [lia|].
    rewrite (mbind_done _ _ _ _ _ (mp_mresume_dup_done _ _ _ Hr)).
    eexists. split; [reflexivity|].
    erewrite Hcount; cycle 1; [simpl; apply lookup_insert_eq | reflexivity].
Qed.

Lemma mp_resume_counts_resumes_witness :
  ∃ s1 s2,
    mp_resume 8 20004 7 14000 {| reg_sp := 14000 |} st_multi = Exit (ExLongjmp 13000) s1 ∧
    mp_resume_resume_count 20004 st_multi = Done 0 st_multi ∧
    mp_resume_resume_count 20004 s1 = Done 1 s1 ∧
    mp_resume_tail 8 20004 7 14000 {| reg_sp := 14000 |} st_multi
      = Exit (ExLongjmp 13000) s2 ∧
    mp_resume_resume_count 20004 s2 = Done 1 s2.
Proof.
  pose proof (mp_resume_counts_resumes 8 st_multi 20000
                {| r_refcount := 2; r_resume_count := 0; r_prompt := 64; r_save := NULL;
                   r_tail_return_point := 1024 |} 7 14000 {| reg_sp := 14000 |}
                eq_refl ltac:(done) eq_refl) as (H0 & H1 & H2 & _).
  change (mp_resume_multi 20000) with 20004 in *.
  destruct (mp_resume 8 20004 7 14000 {| reg_sp := 14000 |} st_multi)
    as [v s1|e s1| |] eqn:E1; try (vm_compute in E1; discriminate E1).
  destruct (mp_resume_tail 8 20004 7 14000 {| reg_sp := 14000 |} st_multi)
    as [v2 s2|e0 s2| |] eqn:E2; try (vm_compute in E2; discriminate E2).
  exists s1, s2.
  assert (e = ExLongjmp 13000) as -> by (vm_compute in E1; by injection E1 as <- _).
  assert (e0 = ExLongjmp 13000) as -> by (vm_compute in E2; by injection E2 as <- _).
  assert (is_Some (mresumes s1 !! 20000)) as [m1 Hm1]
    by (vm_compute in E1; injection E1 as <-; vm_compute; eauto).
  assert (is_Some (mresumes s2 !! 20000)) as [m2 Hm2]
    by (vm_compute in E2; injection E2 as <-; vm_compute; eauto).
  destruct H1 as [_ H1], H2 as [_ H2].
  destruct (H1 _ Hm1) as [_ Hc1], (H2 _ Hm2) as [_ Hc2].
  repeat split; done.
Defined.

(** ** Dropping the last owner of a record with snapshots *)

Lemma mp_prompt_drop_shared fuel s p pr :
  prompts s !! p = Some pr → 1 < p_refcount pr →
  mp_prompt_drop fuel p s = Done tt (with_prompts (insert p (drop_refcount pr)) s).
Proof.
  intros Hp Hrc. unfold mp_prompt_drop, mp_prompt_drop_internal.
  rewrite (mbind_done _ _ _ _ _ (load_prompt_done _ _ _ Hp)).
  rewrite (mbind_done _ _ _ _ _ (store_prompt_done _ _ _ _ Hp)).
  destruct (p_refcount pr <=? 1) eqn:E; [lia|]. reflexivity.
Qed.

Lemma save_list_delete h a x l :
  save_list h x l →
  (∀ l', save_list h a l' → (length l < length l')%nat) →
  save_list (delete a h) x l.
Proof.
  induction 1 as [|x n l Hx Hn Hl IH]; intros Hlen; [constructor|].
  assert (x ≠ a) as Hxa.
  { intros ->. assert (save_list h a (n :: l)) as Hal by (by econstructor).
    specialize (Hlen _ Hal). lia. }
  econstructor; [done | by rewrite lookup_delete_ne |].
  apply IH. intros l' Hl'. specialize (Hlen l' Hl'). simpl in Hlen. lia.
Qed.

Lemma save_list_delete_head h a n l :
  save_list h a (n :: l) → save_list (delete a h) (s_next n) l.
Proof.
  intros H. inversion H as [|a' n' l' Ha Hn Hl]; subst.
  apply save_list_delete; [done|].
  intros l' Hl'. rewrite (save_list_det _ _ _ _ Hl' H). simpl. lia.
Qed.

Lemma foldr_delete_comm (h : gmap Z mp_prompt_save_t) a l :
  foldr delete (delete a h) l = delete a (foldr delete h l).
Proof.
  induction l as [|b l IH]; simpl; [done|]. rewrite IH. apply delete_delete.
Qed.

Lemma release_release k1 k2 pr : release k2 (release k1 pr) = release (k1 + k2) pr.
Proof. unfold release, set_p_refcount. destruct pr. simpl. f_equal; lia. Qed.

Lemma release_0 pr : release 0 pr = pr.
Proof. unfold release, set_p_refcount. destruct pr. simpl. f_equal; lia. Qed.

Lemma references_held_nonneg l y : 0 ≤ references_held l y.
Proof. induction l as [|x l IH]; simpl; [lia|]. case_bool_decide; lia. Qed.

Lemma references_held_app l1 l2 y :
  references_held (l1 ++ l2) y = references_held l1 y + references_held l2 y.
Proof. induction l1 as [|x l1 IH]; simpl; [lia|]. rewrite IH. lia. Qed.

Lemma drop_refcount_release pr :
  1 < p_refcount pr < 2 ^ 63 → drop_refcount pr = release 1 pr.
Proof.
  intros H. unfold drop_refcount, release. by rewrite intptr_wrap_id by lia.
Qed.

(** The loop of [mp_mresume_drop]: every node is freed with its snapshot,
    in list order, and the reference it held is given back. *)
Lemma mp_mresume_drop_loop_spec nodes :
  ∀ fuel sv s,
    save_list (saves s) sv nodes → (length nodes ≤ fuel)%nat →
    Forall (λ n, is_Some (prompts s !! s_prompt n)) nodes →
    map_Forall (λ y yr, references_held (map s_prompt nodes) y < p_refcount yr < 2 ^ 63)
               (prompts s) →
    ∃ s', mp_mresume_drop_loop fuel sv s = Done tt s' ∧
          trace s' = trace s ++ map (λ n, EvGsaveFree (s_gsave n)) nodes ∧
          (∀ y, prompts s' !! y =
                release (references_held (map s_prompt nodes) y) <$> prompts s !! y) ∧
          saves s' = foldr delete (saves s) (save_addrs sv nodes) ∧
          mresumes s' = mresumes s ∧ _mp_prompt_top s' = _mp_prompt_top s ∧
          return_points s' = return_points s ∧ resume_points s' = resume_points s ∧
          heap_next s' = heap_next s.
Proof.
  induction nodes as [|n nodes IH]; intros fuel sv s Hl Hf Hall Hrc.
  - inversion Hl; subst. exists s. destruct fuel; simpl;
      (split; [reflexivity|]); (split; [by rewrite app_nil_r|]);
      (split; [|done]); intros y; destruct (prompts s !! y) as [yr|]; simpl; try done;
      by rewrite release_0.
  - pose proof (save_list_delete_head _ _ _ _ Hl) as Hl'.
    inversion Hl as [|a n' l' Ha Hn _]; subst.
    destruct fuel as [|fuel]; [simpl in Hf; lia|].
    cbn [mp_mresume_drop_loop].
    destruct (sv =? NULL) eqn:E; [lia|].
    unfold mbind' at 1. unfold load_save. rewrite Hn.
    unfold mp_gsave_free. rewrite (mbind_done (emit _) _ _ tt _ eq_refl).
    unfold mp_free_save. rewrite (mbind_done (mmodify _) _ _ tt _ eq_refl).
    apply Forall_cons in Hall as [[yr Hyr] Hall].
    set (p := s_prompt n) in *.
    assert (1 < p_refcount yr < 2 ^ 63) as Hrc1.
    { pose proof (Hrc p yr Hyr) as H. simpl in H. rewrite bool_decide_eq_true_2 in H by done.
      pose proof (references_held_nonneg (map s_prompt nodes) p). lia. }
    set (s0 := with_saves (delete sv) (with_event (EvGsaveFree (s_gsave n)) s)).
    rewrite (mbind_done _ _ _ _ _ (mp_prompt_drop_shared (S fuel) s0 p yr Hyr (proj1 Hrc1))).
    rewrite (drop_refcount_release _ Hrc1).
    set (s1 := with_prompts (insert p (release 1 yr)) s0).
    destruct (IH fuel (s_next n) s1) as (s' & Hrun & Htr & Hpr & Hsv & Hmr & Htop & Hret & Hres & Hhn).
    + exact Hl'.
    + simpl in Hf. lia.
    + eapply Forall_impl; [exact Hall|]. intros n2 [y2 Hy2]. simpl.
      destruct (decide (s_prompt n2 = p)) as [->|Hne].
      * rewrite lookup_insert_eq. eauto.
      * rewrite lookup_insert_ne by done. eauto.
    + intros y yr2. simpl. destruct (decide (y = p)) as [->|Hne].
      * rewrite lookup_insert_eq. intros [= <-].
        pose proof (Hrc p yr Hyr) as H. simpl in H.
        rewrite bool_decide_eq_true_2 in H by done.
        pose proof (references_held_nonneg (map s_prompt nodes) p).
        unfold release. simpl. lia.
      * rewrite lookup_insert_ne by done. intros Hy2.
        pose proof (Hrc y yr2 Hy2) as H. simpl in H.
        rewrite bool_decide_eq_false_2 in H by done. lia.
    + exists s'. split; [exact Hrun|]. split.
      { rewrite Htr. simpl. by rewrite <- app_assoc. }
      split.
      { intros y. rewrite Hpr. simpl. fold p.
        destruct (decide (y = p)) as [->|Hne].
        - rewrite lookup_insert_eq, Hyr. simpl.
          rewrite bool_decide_eq_true_2 by done. by rewrite release_release.
        - rewrite lookup_insert_ne by done.
          rewrite bool_decide_eq_false_2 by done. done. }
      split; [rewrite Hsv; simpl; apply foldr_delete_comm|].
      by rewrite Hmr, Htop, Hret, Hres, Hhn.
Qed.

(** X12: dropping the last owner of a multi-shot record gives back exactly
    what the record held.  Let [r] (8-byte aligned) have [refcount <= 1]
    and a save list [nodes], and let no prompt lose its last reference:
    each prompt has more references than the record holds to it, one per
    node that names it and one for [r->prompt].  Then [mp_resume_drop] on
    the handle of [r] returns; the record is freed; every node of the save
    list is freed and its snapshot released, once each and in list order;
    each prompt's count is lowered by the number of references the record
    held to it; no stacklet is freed and the chain top is unchanged. *)
Theorem mp_resume_drop_multi_last (fuel : nat) (s : state) (r : ptr) (m : mp_mresume_t)
    (nodes : list mp_prompt_save_t) :
  r mod 8 = 0 → r ≠ NULL →
  mresumes s !! r = Some m → r_refcount m ≤ 1 →
  save_list (saves s) (r_save m) nodes → (length nodes ≤ fuel)%nat →
  let refs := map s_prompt nodes ++ [r_prompt m] in
  Forall (λ y, is_Some (prompts s !! y)) refs →
  map_Forall (λ y yr, references_held refs y < p_refcount yr < 2 ^ 63) (prompts s) →
  ∃ s', mp_resume_drop fuel (mp_resume_multi r) s = Done tt s' ∧
        mresumes s' = delete r (mresumes s) ∧
        saves s' = foldr delete (saves s) (save_addrs (r_save m) nodes) ∧
        (∀ y, prompts s' !! y = release (references_held refs y) <$> prompts s !! y) ∧
        trace s' = trace s ++ map (λ n, EvGsaveFree (s_gsave n)) nodes ∧
        _mp_prompt_top s' = _mp_prompt_top s ∧
        return_points s' = return_points s ∧ resume_points s' = resume_points s.
Proof.
  intros Hal Hnz Hr Hrc Hl Hf refs Hall Hcnt.
  destruct (mp_resume_multi_is_multi r (aligned_bit2 r Hal)) as [Hm Ho].
  unfold mp_resume_drop. rewrite Ho, Hm. change (NULL =? NULL) with true. cbv iota.
  unfold mp_mresume_drop.
  rewrite (mbind_done _ _ _ _ _ (load_mresume_done _ _ _ Hr)).
  rewrite (mbind_done _ _ _ _ _ (store_mresume_done _ _ _ _ Hr)).
  destruct (r_refcount m <=? 1) eqn:E; [|lia].
  set (m0 := set_r_refcount (intptr_wrap (r_refcount m - 1)) m).
  set (s0 := with_mresumes (insert r m0) s).
  assert (mresumes s0 !! r = Some m0) as Hr0 by (simpl; apply lookup_insert_eq).
  rewrite (mbind_done _ _ _ _ _ (load_mresume_done _ _ _ Hr0)).
  apply Forall_app in Hall as [Hnodes Hp]. apply Forall_singleton in Hp as [pr Hpr].
  destruct (mp_mresume_drop_loop_spec nodes fuel (r_save m) s0)
    as (s1 & Hrun & Htr & Hps & Hsv & Hmr & Htop & Hret & Hres & _).
  - exact Hl.
  - exact Hf.
  - clear -Hnodes. induction nodes as [|n nodes IH]; [constructor|].
    simpl in Hnodes. apply Forall_cons in Hnodes as [Hn Hnodes].
    constructor; [exact Hn | by apply IH].
  - intros y yr Hy. specialize (Hcnt y yr Hy). simpl in Hcnt. unfold refs in Hcnt.
    rewrite references_held_app in Hcnt.
    pose proof (references_held_nonneg [r_prompt m] y). lia.
  - change (r_save m0) with (r_save m). rewrite (mbind_done _ _ _ _ _ Hrun).
    assert (mresumes s1 !! r = Some m0) as Hr1 by (by rewrite Hmr).
    rewrite (mbind_done _ _ _ _ _ (load_mresume_done _ _ _ Hr1)).
    change (r_prompt m0) with (r_prompt m).
    set (k := references_held (map s_prompt nodes) (r_prompt m)).
    assert (references_held refs (r_prompt m) = k + 1) as Hk.
    { unfold refs. rewrite references_held_app. simpl.
      rewrite bool_decide_eq_true_2 by done. fold k. lia. }
    assert (0 ≤ k) as Hk0 by apply references_held_nonneg.
    pose proof (Hcnt _ _ Hpr) as Hrcp. simpl in Hrcp. rewrite Hk in Hrcp.
    assert (prompts s1 !! r_prompt m = Some (release k pr)) as Hp1.
    { rewrite Hps. simpl. by rewrite Hpr. }
    assert (1 < p_refcount (release k pr) < 2 ^ 63) as Hrc1
      by (unfold release; simpl; lia).
    rewrite (mbind_done _ _ _ _ _ (mp_prompt_drop_shared fuel s1 _ _ Hp1 (proj1 Hrc1))).
    rewrite (drop_refcount_release _ Hrc1), release_release.
    eexists. split; [reflexivity|]. simpl.
    split; [by rewrite Hmr; simpl; rewrite delete_insert_eq|].
    split; [by rewrite Hsv|].
    split.
    { intros y. destruct (decide (y = r_prompt m)) as [->|Hne].
      - by rewrite lookup_insert_eq, Hpr, Hk.
      - rewrite lookup_insert_ne by done. rewrite Hps. simpl.
        unfold refs. rewrite references_held_app. simpl.
        rewrite bool_decide_eq_false_2 by done.
        by rewrite !Z.add_0_r. }
    by rewrite Htr, Htop, Hret, Hres.
Qed.

Lemma mp_resume_drop_multi_last_witness :
  ∃ s', mp_resume_drop 8 20004 st_resumed = Done tt s' ∧
        mresumes s' = delete 20000 (mresumes st_resumed) ∧
        saves s' = delete 65600 (delete 65568 (delete 65536 (saves st_resumed))) ∧
        (∀ y, prompts s' !! y =
              release (references_held [64; 128; 192; 64] y) <$> prompts st_resumed !! y) ∧
        trace s' = trace st_resumed ++ [EvGsaveFree 65616; EvGsaveFree 65584; EvGsaveFree 65552] ∧
        _mp_prompt_top s' = _mp_prompt_top st_resumed ∧
        return_points s' = return_points st_resumed ∧
        resume_points s' = resume_points st_resumed.
Proof.
  apply (mp_resume_drop_multi_last 8 st_resumed 20000
           {| r_refcount := 1; r_resume_count := 1; r_prompt := 64; r_save := 65600;
              r_tail_return_point := 1024 |}
           [node_A; node_B; node_C]).
  - reflexivity.
  - done.
  - vm_compute. reflexivity.
  - simpl. lia.
  - econstructor; [done | vm_compute; reflexivity |].
    econstructor; [done | vm_compute; reflexivity |].
    econstructor; [done | vm_compute; reflexivity |]. constructor.
  - simpl. lia.
  - repeat constructor; vm_compute; eauto.
  - apply map_Forall_to_list.
    set (l := map_to_list _). vm_compute in l. subst l.
    repeat constructor; vm_compute; done.
Defined.

(** X13: when an unused multi-shot handle should be unwound.  For an
    8-byte aligned record [r] with handle [h]: [mp_resume_should_unwind h]
    is true exactly when [r] has a single owner and was never resumed, as
    is the record that a [mp_yieldm] hands to its function.  It is false
    after [mp_resume_dup], and false in every state in which a
    [mp_resume] or [mp_resume_tail] of [h] ends with [r] still allocated
    (counts in the range of a [long] that does not wrap). *)
Theorem mp_resume_should_unwind_multi (fuel : nat) (s : state) (r : ptr) (m : mp_mresume_t)
    (arg : Z) (frame : ptr) (jb : mp_jmpbuf_t) :
  r mod 8 = 0 → r ≠ NULL → mresumes s !! r = Some m →
  0 < r_refcount m < 2 ^ 63 - 1 → 0 ≤ r_resume_count m < 2 ^ 63 - 1 →
  let h := mp_resume_multi r in
  let resumed := λ s', is_Some (mresumes s' !! r) →
                       mp_resume_should_unwind h s' = Done false s' in
  mp_resume_should_unwind h s =
    Done (bool_decide (r_refcount m = 1 ∧ r_resume_count m = 0)) s ∧
  (∃ s', mp_resume_dup h s = Done h s' ∧ mp_resume_should_unwind h s' = Done false s') ∧
  after (mp_resume fuel h arg frame jb s) resumed ∧
  after (mp_resume_tail fuel h arg frame jb s) resumed.
Proof.
  intros Hal Hnz Hr Hrc Hcnt h resumed.
  destruct (mp_resume_multi_is_multi r (aligned_bit2 r Hal)) as [Hm Ho]. fold h in Hm, Ho.
  assert (∀ s' m', mresumes s' !! r = Some m' →
            mp_resume_should_unwind h s' =
              Done (if r_refcount m' =? 1 then r_resume_count m' =? 0 else false) s') as Hsu.
  { intros s' m' Hm'. unfold mp_resume_should_unwind. rewrite Hm.
    destruct (r =? NULL) eqn:E; [lia|]. cbn [negb].
    rewrite (mbind_done _ _ _ _ _ (load_mresume_done _ _ _ Hm')).
    by destruct (r_refcount m' =? 1). }
  assert (long_wrap (r_resume_count m + 1) = r_resume_count m + 1) as Hw.
  { unfold long_wrap. rewrite Z.mod_small; lia. }
  assert (∀ {A} (o : res A),
            after o (λ s', (∀ r', r' ≠ r → mresumes s' !! r' = mresumes s !! r') ∧
                           ∀ m', mresumes s' !! r = Some m' →
                                 r_resume_count m' = long_wrap (r_resume_count m + 1) ∧
                                 r_prompt m' = r_prompt m) →
            after o resumed) as Hup.
  { intros A o Ho'. destruct o as [v s'|e s'| |]; try done;
      destruct Ho' as [_ H2]; intros [m' Hm']; destruct (H2 m' Hm') as [Hc _];
      rewrite (Hsu _ _ Hm'), Hc, Hw;
      (destruct (r_refcount m' =? 1); [|done]);
      (destruct (r_resume_count m + 1 =? 0) eqn:E; [lia|done]). }
  split; [|split; [|split]].
  - rewrite (Hsu _ _ Hr). f_equal.
    destruct (r_refcount m =? 1) eqn:E1.
    + destruct (r_resume_count m =? 0) eqn:E2.
      * rewrite bool_decide_eq_true_2; [done | lia].
      * rewrite bool_decide_eq_false_2; [done | lia].
    + rewrite bool_decide_eq_false_2; [done | lia].
  - unfold mp_resume_dup. rewrite Hm. destruct (r =? NULL) eqn:E; [lia|].
    rewrite (mbind_done _ _ _ _ _ (mp_mresume_dup_done _ _ _ Hr)).
    eexists. split; [reflexivity|].
    erewrite Hsu; cycle 1; [simpl; apply lookup_insert_eq|].
    cbn [r_refcount set_r_refcount]. rewrite intptr_wrap_id by lia.
    destruct (r_refcount m + 1 =? 1) eqn:E1; [lia|done].
  - unfold mp_resume. rewrite Ho, Hm. change (NULL =? NULL) with true. cbv iota.
    apply Hup.
    pose proof (mp_mresume_counts fuel s r m arg frame jb Hr) as H.
    destruct (mp_mresume fuel r arg frame jb s) as [v s'|e s'| |]; try done;
      destruct H as [H1 H2]; (split;
        [ intros r' Hr'; rewrite (H1 r' Hr'); simpl; by rewrite lookup_insert_ne
        | intros m' Hm'; destruct (H2 m' Hm') as (m0 & Hm0 & -> & ->);
          simpl in Hm0; rewrite lookup_insert_eq in Hm0; by injection Hm0 as <- ]).
  - unfold mp_resume_tail. rewrite Ho, Hm. change (NULL =? NULL) with true. cbv iota.
    apply Hup. by apply mp_mresume_tail_counts.
Qed.

Lemma mp_resume_should_unwind_multi_witness :
  mp_resume_should_unwind 20004 st_fresh_multi = Done true st_fresh_multi ∧
  (∃ s', mp_resume_dup 20004 st_fresh_multi = Done 20004 s' ∧
         mp_resume_should_unwind 20004 s' = Done false s') ∧
  mp_resume_should_unwind 20004 st_resumed = Done false st_resumed.
Proof.
  destruct (mp_resume_should_unwind_multi 8 st_fresh_multi 20000
              {| r_refcount := 1; r_resume_count := 0; r_prompt := 64; r_save := NULL;
                 r_tail_return_point := 1024 |} 7 14000 {| reg_sp := 14000 |}
              eq_refl ltac:(done) eq_refl ltac:(simpl; lia) ltac:(simpl; lia))
    as (H1 & H2 & _).
  destruct (mp_resume_should_unwind_multi 8 st_multi 20000
              {| r_refcount := 2; r_resume_count := 0; r_prompt := 64; r_save := NULL;
                 r_tail_return_point := 1024 |} 7 14000 {| reg_sp := 14000 |}
              eq_refl ltac:(done) eq_refl ltac:(simpl; lia) ltac:(simpl; lia))
    as (_ & _ & H3 & _).
  split; [exact H1|]. split; [exact H2|].
  change (mp_resume_multi 20000) with 20004 in H3.
  unfold st_resumed.
  destruct (mp_resume 8 20004 7 14000 {| reg_sp := 14000 |} st_multi)
    as [v s1|e s1| |] eqn:E1; try (vm_compute in E1; discriminate E1).
  apply H3. vm_compute in E1. injection E1 as _ <-. vm_compute. eauto.
Defined.

(** ** A prompt whose function returns *)

(** X14: [mp_prompt fn arg] for a function that returns.  Let calling
    [fn] on [(p, arg)] return [v] from any state, leaving the header of
    [p], the chain top and the caller's return point as they are.  Then
    [mp_prompt] enters the new stacklet; the trampoline run there, with
    [mp_startc_fun] as the start function that [mp_prompt] installed,
    records the unwind frame, calls [fn] and jumps back to the caller's
    frame; and the receiver run at that frame returns [v], the value of
    [fn].  Afterwards the chain top is what it was before [mp_prompt], the
    last thing done was to give back the stacklet of [p] without delay, and
    no other prompt, record or snapshot differs from what [fn] left. *)
Theorem mp_prompt_returns_value (call_fun : ptr → ptr → Z → M Z)
    (call_yield_fun : ptr → Z → Z → M Z) (mp_startc_fun_addr : ptr) (fuel : nat)
    (s : state) (gstack p fn : ptr) (arg : Z) (frame : ptr) (jb : mp_jmpbuf_t) (uf : ptr)
    (v : Z) :
  gstack ≠ NULL → Z.land p 4 = 0 → p ≠ NULL → frame ≠ NULL → (1 ≤ fuel)%nat →
  (∀ st, ∃ st', call_fun fn p arg st = Done v st' ∧
                prompts st' !! p = prompts st !! p ∧
                _mp_prompt_top st' = _mp_prompt_top st ∧
                return_points st' !! frame = return_points st !! frame) →
  ∃ s1 pr1 s2 s3 s4,
    mp_prompt mp_startc_fun_addr fuel gstack p fn arg frame jb s =
      Exit (ExGstackEnter gstack p arg) s1 ∧
    prompts s1 !! p = Some pr1 ∧
    call_fun fn p arg (with_prompts (insert p (set_p_unwind_frame uf pr1)) s1) = Done v s2 ∧
    mp_prompt_stack_entry (λ _, mp_startc_fun call_fun) p arg uf s1 =
      Exit (ExLongjmp frame) s3 ∧
    mp_prompt_exec_yield_fun call_yield_fun fuel frame p s3 = Done v s4 ∧
    _mp_prompt_top s4 = _mp_prompt_top s ∧
    trace s4 = trace s2 ++ [EvGstackFree gstack false] ∧
    (∀ q, q ≠ p → prompts s4 !! q = prompts s2 !! q) ∧
    mresumes s4 = mresumes s2 ∧ saves s4 = saves s2.
Proof.
  intros Hg Hbit Hnz Hframe Hfuel Hfn.
  set (rec := {| p_parent := NULL; p_top := p; p_refcount := 1; p_gstack := gstack;
                 p_return_point := NULL; p_resume_point := NULL;
                 p_start_fun := mp_startc_fun_addr; p_start_arg := fn;
                 p_unwind_frame := NULL |}).
  set (s0 := with_prompts (insert p rec) s).
  set (sj := with_return_points (λ h,
               <[frame := match h !! frame with
                          | Some r => {| ret_jmp := jb; ret_kind := ret_kind r;
                                         ret_fun := ret_fun r; ret_arg := ret_arg r |}
                          | None => {| ret_jmp := jb; ret_kind := MP_RETURN;
                                       ret_fun := NULL; ret_arg := 0 |}
                          end]> h) s0).
  assert (prompts sj !! p = Some rec) as Hrec by (simpl; apply lookup_insert_eq).
  set (s1 := link_state sj p frame rec).
  set (pr1 := {| p_parent := _mp_prompt_top s; p_top := NULL; p_refcount := 1;
                 p_gstack := gstack; p_return_point := frame; p_resume_point := NULL;
                 p_start_fun := mp_startc_fun_addr; p_start_arg := fn;
                 p_unwind_frame := NULL |}).
  assert (prompts s1 !! p = Some pr1) as Hp1.
  { simpl. rewrite lookup_insert_eq. destruct (frame =? 0) eqn:E; [lia|done]. }
  set (pr1u := set_p_unwind_frame uf pr1).
  set (s1u := with_prompts (insert p pr1u) s1).
  destruct (Hfn s1u) as (s2 & Hcall & Hp2 & Htop2 & Hret2).
  assert (prompts s2 !! p = Some pr1u) as Hp2' by (rewrite Hp2; simpl; apply lookup_insert_eq).
  assert (_mp_prompt_top s2 = p) as Htop2' by (by rewrite Htop2).
  assert (∃ rp, return_points s2 !! frame = Some rp) as [rp Hrp].
  { rewrite Hret2. simpl. rewrite lookup_insert_eq. eauto. }
  set (pr3 := {| p_parent := NULL; p_top := _mp_prompt_top s2;
                 p_refcount := 1; p_gstack := gstack;
                 p_return_point := frame; p_resume_point := NULL;
                 p_start_fun := mp_startc_fun_addr; p_start_arg := fn;
                 p_unwind_frame := uf |}).
  set (s3 := with_return_points
               (insert frame {| ret_jmp := ret_jmp rp; ret_kind := MP_RETURN;
                                ret_fun := NULL; ret_arg := v |})
               (unlink_state s2 p NULL pr1u)).
  assert (prompts s3 !! p = Some pr3) as Hp3 by (simpl; apply lookup_insert_eq).
  assert (return_points s3 !! frame =
          Some {| ret_jmp := ret_jmp rp; ret_kind := MP_RETURN; ret_fun := NULL;
                  ret_arg := v |}) as Hret3 by (simpl; apply lookup_insert_eq).
  exists s1, pr1, s2, s3.
  destruct fuel as [|fuel]; [lia|].
  eexists.
  split.
  { unfold mp_prompt, mp_prompt_create. destruct (gstack =? 0) eqn:E; [lia|].
    rewrite mbind_assoc.
    rewrite (mbind_done (mmodify _) _ _ tt _ eq_refl).
    rewrite (mbind_done (mreturn _) _ _ _ _ eq_refl).
    destruct (mp_resume_once_dispatch (S fuel) p arg frame jb s0 Hbit Hnz) as [Hd _].
    change (mp_resume (S fuel) (mp_resume_once p) arg frame jb s0 =
            Exit (ExGstackEnter gstack p arg) s1).
    rewrite Hd. unfold mp_prompt_resume.
    rewrite (mbind_done (setjmp_return_point _ _) _ _ tt _ eq_refl).
    rewrite (mbind_done _ _ _ _ _ (mp_prompt_link_done sj p frame rec Hrec)).
    cbv beta. simpl (p_resume_point rec =? 0). change (negb true) with false. cbv iota.
    by rewrite (mbind_done _ _ _ _ _ (load_prompt_done _ _ _ Hp1)). }
  split; [exact Hp1|]. split; [exact Hcall|].
  split.
  { unfold mp_prompt_stack_entry.
    rewrite (mbind_done _ _ _ _ _ (store_prompt_done _ _ _ _ Hp1)).
    erewrite (mbind_done (load_prompt p));
      [|apply load_prompt_done; simpl; apply lookup_insert_eq].
    cbn [p_start_fun p_start_arg pr1]. unfold mp_startc_fun.
    change (call_fun fn p arg s1u = Done v s2) in Hcall.
    match goal with
    | |- mbind' _ ?k ?st = _ => change st with s1u
    end.
    rewrite (mbind_done _ _ _ _ _ Hcall).
    rewrite (mbind_done _ _ _ _ _ (mp_prompt_unlink_done _ _ NULL _ Hp2')).
    cbv beta. cbn [p_return_point pr1u set_p_unwind_frame pr1].
    erewrite (mbind_done (store_return_point _ _));
      [|apply store_return_point_done; simpl; exact Hrp].
    erewrite (mbind_done (store_return_point _ _));
      [|apply store_return_point_done; simpl; apply lookup_insert_eq].
    erewrite (mbind_done (store_return_point _ _));
      [|apply store_return_point_done; simpl; apply lookup_insert_eq].
    unfold mp_longjmp, mexit. f_equal.
    unfold s3, with_return_points, unlink_state. simpl. f_equal.
    by rewrite !insert_insert_eq. }
  split.
  { unfold mp_prompt_exec_yield_fun.
    rewrite (mbind_done _ _ _ _ _ (load_return_point_done _ _ _ Hret3)).
    cbn [ret_kind ret_arg].
    destruct (decide (MP_RETURN = MP_YIELD_ONCE)) as [?|_]; [discriminate|].
    destruct (decide (MP_RETURN = MP_RETURN)) as [_|?]; [|done].
    unfold mp_prompt_drop, mp_prompt_drop_internal.
    rewrite !mbind_assoc.
    rewrite (mbind_done _ _ _ _ _ (load_prompt_done _ _ _ Hp3)).
    rewrite mbind_assoc.
    rewrite (mbind_done _ _ _ _ _ (store_prompt_done _ _ _ _ Hp3)).
    cbn [p_refcount pr3]. change (1 <=? 1) with true. cbv iota.
    unfold mp_prompt_free. rewrite !mbind_assoc.
    erewrite (mbind_done (load_prompt p));
      [|apply load_prompt_done; simpl; apply lookup_insert_eq].
    cbn [p_top set_p_refcount pr3]. rewrite Htop2'.
    cbn [mp_prompt_free_loop]. destruct (p =? 0) eqn:Ep; [lia|].
    rewrite !mbind_assoc.
    erewrite (mbind_done (load_prompt p));
      [|apply load_prompt_done; simpl; apply lookup_insert_eq].
    cbn [p_parent p_gstack set_p_refcount pr3].
    unfold mp_gstack_free. rewrite !mbind_assoc.
    rewrite (mbind_done (emit _) _ _ tt _ eq_refl).
    simpl (0 =? 0). cbv iota.
    rewrite !mbind_assoc.
    rewrite (mbind_done (mreturn tt) _ _ tt _ eq_refl).
    assert (∀ st, mp_prompt_free_loop fuel 0 false st = Done tt st) as Hloop
      by (intros st; by destruct fuel).
    rewrite (mbind_done _ _ _ _ _ (Hloop _)).
    reflexivity. }
  split; [reflexivity|]. split; [reflexivity|].
  split; [|by split].
  intros q Hq. simpl. by rewrite !lookup_insert_ne.
Qed.

Lemma mp_prompt_returns_value_witness :
  ∃ s1 s3 s4,
    mp_prompt 8 4 16384 256 600 5 2048 {| reg_sp := 900 |} st_nested =
      Exit (ExGstackEnter 16384 256 5) s1 ∧
    mp_prompt_stack_entry (λ _, mp_startc_fun example_fun) 256 5 NULL s1 =
      Exit (ExLongjmp 2048) s3 ∧
    mp_prompt_exec_yield_fun example_yield_fun 4 2048 256 s3 = Done 10 s4 ∧
    _mp_prompt_top s4 = 192.
Proof.
  destruct (mp_prompt_returns_value example_fun example_yield_fun 8 4 st_nested
              16384 256 600 5 2048 {| reg_sp := 900 |} NULL 10)
    as (s1 & pr1 & s2 & s3 & s4 & H1 & _ & _ & H3 & H4 & H5 & _);
    [lia | reflexivity | lia | lia | lia | |].
  - intros st. exists st. by repeat split.
  - exists s1, s3, s4. repeat split; assumption.
Defined.
